(** * Server assignation plan: First-Fit Decreasing with anti-affinity

    A shallow embedding of the packing kernel of [script.py] and
    [script1.py]: the feasibility test [can_host], the greedy packers
    [first_fit_decreasing] and [ffd], and the ordering search
    [best_plan].

    The kernel is embedded three times.
    - On exact rationals ([Q]): sums, quotients and comparisons are the
      mathematical ones, without rounding.  This is the arithmetic in
      which the specification is worded.
    - On IEEE 754 doubles (module [F64]): the resource quantities are
      Python floats in the source, and here they are Rocq's primitive
      floats, with the rounding and the comparisons of the interpreter.
    - On a store of dictionaries (module [Store]): the dictionaries of
      the source are shared mutable objects, and the code is a state
      monad over the store that holds them.

    Conventions of the embedding.
    - The dictionaries of the source have a closed set of keys; they
      become records, and the five resource keys an enumeration.
    - [x / y] on Python floats raises [ZeroDivisionError] when [y] is
      zero; fallible code returns a [Result].
    - [random] is the interpreter's generator.  Its state is modelled as
      an arbitrary stream of draws with a cursor, so that every statement
      quantified over [Rng] holds for every seed. *)

From Stdlib Require Import QArith Lqa DecimalString DecimalNat Factorial.
From Stdlib Require Floats.
From stdpp Require Import gmap strings list sorting.

Local Open Scope Q_scope.
Local Open Scope string_scope.
Local Open Scope list_scope.

(** ** Results and exceptions *)

(** The only exception the kernel can raise on well-typed input. *)
Inductive PyExn : Type :=
| ZeroDivisionError.

Inductive Result (A : Type) : Type :=
| Ok (a : A)
| Raise (e : PyExn).

Arguments Ok {A} a.
Arguments Raise {A} e.

#[global] Instance Result_ret : MRet Result := @Ok.

#[global] Instance Result_bind : MBind Result := fun A B f m =>
  match m with
  | Ok a => f a
  | Raise e => Raise e
  end.

(** Evaluation of a comprehension whose body may raise: left to right,
    stopping at the first exception. *)
Fixpoint traverse {A B : Type} (f : A -> Result B) (l : list A) : Result (list B) :=
  match l with
  | [] => Ok []
  | x :: l' => y ← f x; ys ← traverse f l'; Ok (y :: ys)
  end.

(** A loop with an accumulator whose body may raise. *)
Fixpoint foldM {A B : Type} (f : B -> A -> Result B) (l : list A) (b : B) : Result B :=
  match l with
  | [] => Ok b
  | x :: l' => b' ← f b x; foldM f l' b'
  end.

(** ** Numbers *)

Definition Qlt_bool (x y : Q) : bool := negb (Qle_bool y x).

(** Python's [x / y] on floats. *)
Definition py_div (x y : Q) : Result Q :=
  if Qeq_bool y 0 then Raise ZeroDivisionError else Ok (x / y).

(** Python's [sum(...)]: a left fold starting from [0]. *)
Definition py_sum (l : list Q) : Q := fold_left Qplus l 0.

(** ** Data model *)

Inductive Resource : Type :=
| CPU | Memoria | Red | Disco_IO | Almacenamiento.

#[global] Instance Resource_eq_dec : EqDecision Resource.
Proof. solve_decision. Defined.

Definition RESOURCE_KEYS : list Resource :=
  [CPU; Memoria; Red; Disco_IO; Almacenamiento].

(** The resource part of a dictionary: one number per resource key. *)
Record Vec : Type := mkVec {
  v_CPU : Q;
  v_Memoria : Q;
  v_Red : Q;
  v_Disco_IO : Q;
  v_Almacenamiento : Q
}.

(** [d[k]] *)
Definition get (d : Vec) (k : Resource) : Q :=
  match k with
  | CPU => v_CPU d
  | Memoria => v_Memoria d
  | Red => v_Red d
  | Disco_IO => v_Disco_IO d
  | Almacenamiento => v_Almacenamiento d
  end.

(** [d[k] = x] *)
Definition setitem (d : Vec) (k : Resource) (x : Q) : Vec :=
  match k with
  | CPU => mkVec x (v_Memoria d) (v_Red d) (v_Disco_IO d) (v_Almacenamiento d)
  | Memoria => mkVec (v_CPU d) x (v_Red d) (v_Disco_IO d) (v_Almacenamiento d)
  | Red => mkVec (v_CPU d) (v_Memoria d) x (v_Disco_IO d) (v_Almacenamiento d)
  | Disco_IO => mkVec (v_CPU d) (v_Memoria d) (v_Red d) x (v_Almacenamiento d)
  | Almacenamiento => mkVec (v_CPU d) (v_Memoria d) (v_Red d) (v_Disco_IO d) x
  end.

(** [{k: f(k) for k in RESOURCE_KEYS}] *)
Definition tabulate (f : Resource -> Q) : Vec :=
  mkVec (f CPU) (f Memoria) (f Red) (f Disco_IO) (f Almacenamiento).

(** An instance (one replica of a service): the dictionary built by
    [load_instances]. *)
Record Inst : Type := mkInst {
  Servicio : string;
  demand : Vec
}.

(** A server: the dictionary built by the packer, with its usage per
    resource key, the set of hosted service names and the hosted
    instances in the order of their arrival. *)
Record Server : Type := mkServer {
  name : string;
  usage : Vec;
  services : gset string;
  instances : list Inst
}.

Definition Plan : Type := list Server.

(** [f"S{n}"] *)
Definition server_name (n : nat) : string :=
  "S" ++ NilEmpty.string_of_uint (Nat.to_uint n).

(** ** The loop body shared by both packers *)

(** [for k in RESOURCE_KEYS: s[k] += inst[k]], then the service name is
    added to the set and the instance appended. *)
Definition host (s : Server) (inst : Inst) : Server :=
  {| name := name s;
     usage := fold_left (fun u k => setitem u k (get u k + get (demand inst) k))
                        RESOURCE_KEYS (usage s);
     services := services s ∪ {[ Servicio inst ]};
     instances := instances s ++ [inst] |}.

(** The dictionary appended when no server admits the instance. *)
Definition new_server (servers : list Server) (inst : Inst) : Server :=
  {| name := server_name (length servers + 1);
     usage := tabulate (fun k => get (demand inst) k);
     services := {[ Servicio inst ]};
     instances := [inst] |}.

Section Assign.

Variable can_host : Server -> Inst -> Vec -> bool.

(** The inner [for s in servers] loop: the first server that admits the
    instance hosts it; [None] when the loop ends without a [break]. *)
Fixpoint first_fit (servers : list Server) (inst : Inst) (caps : Vec)
  : option (list Server) :=
  match servers with
  | [] => None
  | s :: rest =>
      if can_host s inst caps then Some (host s inst :: rest)
      else option_map (cons s) (first_fit rest inst caps)
  end.

(** One iteration of the outer loop. *)
Definition assign (caps : Vec) (servers : list Server) (inst : Inst) : list Server :=
  match first_fit servers inst caps with
  | Some servers' => servers'
  | None => servers ++ [new_server servers inst]
  end.

(** The outer loop over the sorted instances, from no server. *)
Definition pack (caps : Vec) (instances_sorted : list Inst) : list Server :=
  fold_left (assign caps) instances_sorted [].

End Assign.

(** ** Python's [sorted(l, key=..., reverse=True)]

    The keys are computed once per element; the sort is stable, also
    under [reverse=True]: elements with equal keys keep the order of the
    input.  [lt] is the [<] of the keys. *)
Section Sorted.

Context {K A : Type}.
Variable lt : K -> K -> bool.

Fixpoint insert_desc (x : K * A) (l : list (K * A)) : list (K * A) :=
  match l with
  | [] => [x]
  | y :: l' => if lt (fst x) (fst y) then y :: insert_desc x l' else x :: l
  end.

Definition sorted_reverse (l : list (K * A)) : list (K * A) :=
  fold_right insert_desc [] l.

End Sorted.

(** Python's [<] on tuples of floats: the first position where the two
    differ decides; a proper prefix is smaller. *)
Fixpoint tuple_lt (a b : list Q) : bool :=
  match a, b with
  | x :: a', y :: b' => if Qeq_bool x y then tuple_lt a' b' else Qlt_bool x y
  | [], _ :: _ => true
  | _, [] => false
  end.

(** ** [itertools.permutations] and [random.sample] *)

(** Every way of taking one element out of a list, in the order of the
    positions. *)
Fixpoint selections {A : Type} (l : list A) : list (A * list A) :=
  match l with
  | [] => []
  | x :: l' => (x, l') :: map (fun p => (fst p, x :: snd p)) (selections l')
  end.

Fixpoint permutations_of_length {A : Type} (n : nat) (l : list A) : list (list A) :=
  match n with
  | O => [[]]
  | S n' =>
      flat_map (fun p => map (cons (fst p)) (permutations_of_length n' (snd p)))
               (selections l)
  end.

(** [list(itertools.permutations(l))]: all the orderings of [l], in
    lexicographic order of the positions. *)
Definition itertools_permutations {A : Type} (l : list A) : list (list A) :=
  permutations_of_length (length l) l.

(** The state of the generator: the stream of its future draws and the
    number of draws already consumed. *)
Record Rng : Type := mkRng {
  tape : nat -> nat;
  cursor : nat
}.

(** One draw below [n]. *)
Definition randbelow (n : nat) (g : Rng) : nat * Rng :=
  (tape g (cursor g) mod n, mkRng (tape g) (S (cursor g))).

(** The selection loop of [random.sample] on a pool of [m] remaining
    candidates: [j = randbelow(m); result[i] = pool[j];
    pool[j] = pool[m - 1]].  Both positions exist whenever
    [k <= m <= len(pool)], which holds at the only call. *)
Fixpoint sample_pool {A : Type} (k m : nat) (pool : list A) (g : Rng) : list A * Rng :=
  match k with
  | O => ([], g)
  | S k' =>
      let (j, g1) := randbelow m g in
      match pool !! j, pool !! (m - 1)%nat with
      | Some x, Some y =>
          let (r, g2) := sample_pool k' (m - 1) (<[j := y]> pool) g1 in
          (x :: r, g2)
      | _, _ => ([], g1)
      end
  end.

(** [random.sample(population, k)], for a population small enough to be
    copied into a pool (120 elements for a sample of 100). *)
Definition random_sample {A : Type} (population : list A) (k : nat) (g : Rng)
  : list A * Rng :=
  sample_pool k (length population) population g.

(** ** script.py *)
Module Script.

(** The capacity loop of [can_host]: [False] at the first key whose
    usage would exceed the capacity. *)
Fixpoint fits (keys : list Resource) (server : Server) (inst : Inst) (caps : Vec) : bool :=
  match keys with
  | [] => true
  | k :: keys' =>
      if Qlt_bool (get caps k) (get (usage server) k + get (demand inst) k)
      then false
      else fits keys' server inst caps
  end.

Definition can_host (server : Server) (inst : Inst) (caps : Vec) : bool :=
  if bool_decide (Servicio inst ∈ services server) then false
  else fits RESOURCE_KEYS server inst caps.

(** The sort key [(x["CPU"], x["Red"], x["Memoria"])]. *)
Definition sort_key (x : Inst) : list Q :=
  [get (demand x) CPU; get (demand x) Red; get (demand x) Memoria].

Definition instances_sorted (instances : list Inst) : list Inst :=
  map snd (sorted_reverse tuple_lt (map (fun x => (sort_key x, x)) instances)).

Definition first_fit_decreasing (instances : list Inst) (caps : Vec) : list Server :=
  pack can_host caps (instances_sorted instances).

End Script.

(** ** script1.py *)
Module Script1.

Definition can_host (server : Server) (inst : Inst) (caps : Vec) : bool :=
  if bool_decide (Servicio inst ∈ services server) then false
  else forallb (fun k => Qle_bool (get (usage server) k + get (demand inst) k) (get caps k))
               RESOURCE_KEYS.

(** The sort key [tuple(x[r] / caps[r] for r in crit_order)]. *)
Definition sort_key (caps : Vec) (crit_order : list Resource) (x : Inst) : Result (list Q) :=
  traverse (fun r => py_div (get (demand x) r) (get caps r)) crit_order.

Definition instances_sorted (instances : list Inst) (caps : Vec) (crit_order : list Resource)
  : Result (list Inst) :=
  keyed ← traverse (fun x => key ← sort_key caps crit_order x; Ok (key, x)) instances;
  Ok (map snd (sorted_reverse tuple_lt keyed)).

Definition ffd (instances : list Inst) (caps : Vec) (crit_order : list Resource)
  : Result (list Server) :=
  sorted ← instances_sorted instances caps crit_order;
  Ok (pack can_host caps sorted).

(** Step 1 of [best_plan]: the total demand and the criticity of every
    resource, then the resources by decreasing criticity.  The
    dictionary [criticity] is kept as the list of its items, each value
    before its key, in the order of insertion. *)
Definition crit_order (instances : list Inst) (caps : Vec) : Result (list Resource) :=
  let demand := tabulate (fun k => py_sum (map (fun inst => get (demand inst) k) instances)) in
  criticity ← traverse (fun k => c ← py_div (get demand k) (get caps k); Ok (c, k))
                       RESOURCE_KEYS;
  Ok (map snd (sorted_reverse Qlt_bool criticity)).

(** [sum(caps[k] - sum(s[k] for s in plan) for k in RESOURCE_KEYS)] *)
Definition spare (caps : Vec) (plan : list Server) : Q :=
  py_sum (map (fun k => get caps k - py_sum (map (fun s => get (usage s) k) plan))
              RESOURCE_KEYS).

(** The comparison in the body of the search loop. *)
Definition consider (caps : Vec) (best : option (list Server)) (plan : list Server)
  : option (list Server) :=
  match best with
  | None => Some plan
  | Some b =>
      if (length plan <? length b)%nat then Some plan
      else if (length plan =? length b)%nat then
        let spare_best := spare caps b in
        let spare_now := spare caps plan in
        if Qlt_bool spare_now spare_best then Some plan else Some b
      else Some b
  end.

(** The orderings tried: the critical one, then a sample of the
    permutations of the resource keys. *)
Definition candidates (order0 : list Resource) (g : Rng) : list (list Resource) * Rng :=
  let (sampled, g') :=
    random_sample (itertools_permutations RESOURCE_KEYS)
                  (Nat.min 100 (fact (length RESOURCE_KEYS))) g in
  (order0 :: sampled, g').

Definition search (instances : list Inst) (caps : Vec) (orders : list (list Resource))
  : Result (option (list Server)) :=
  foldM (fun best order => plan ← ffd instances caps order; Ok (consider caps best plan))
        orders None.

Definition best_plan (instances : list Inst) (caps : Vec) (g : Rng)
  : Result (option (list Server)) * Rng :=
  match crit_order instances caps with
  | Raise e => (Raise e, g)
  | Ok order0 =>
      let (orders, g') := candidates order0 g in
      (search instances caps orders, g')
  end.

(** [main] seeds the generator and calls [best_plan] once; [seed] is the
    state [random.seed] leaves. *)
Definition run (seed : Z -> Rng) (n : Z) (instances : list Inst) (caps : Vec)
  : Result (option (list Server)) :=
  fst (best_plan instances caps (seed n)).

End Script1.

(** ** Loading (both scripts) *)

(** A row of the data frame once its columns are numeric: the service
    name, the quantity, and the five measures under their column
    names. *)
Record Row : Type := mkRow {
  Servicios : string;
  Cantidad : Q;
  USO_CPU : Q;
  Memoria_GB : Q;
  ES_Red : Q;
  ES_disco : Q;
  Uso_Disco : Q
}.

(** Python's [int(x)] on a number: truncation toward zero. *)
Definition py_int (x : Q) : Z := Z.quot (Qnum x) (Zpos (Qden x)).

(** Python's [range(n)] as a number of iterations: none for [n <= 0]. *)
Definition range_length (n : Z) : nat := Z.to_nat n.

(** The dictionary appended for a row; the CPU percentage becomes a
    number of cores. *)
Definition instance_of_row (row : Row) : Inst :=
  {| Servicio := Servicios row;
     demand := mkVec (USO_CPU row / (100 # 1)) (Memoria_GB row) (ES_Red row)
                     (ES_disco row) (Uso_Disco row) |}.

(** The two loops of [load_instances] over the rows of the data frame:
    one instance per unit of quantity, row after row. *)
Definition load_instances (rows : list Row) : list Inst :=
  flat_map (fun row => replicate (range_length (py_int (Cantidad row)))
                                 (instance_of_row row)) rows.

(** ** Concrete inputs *)

Definition vec (a b c d e : Z) : Vec := mkVec (a # 1) (b # 1) (c # 1) (d # 1) (e # 1).

Definition rng0 : Rng := mkRng (fun _ => O) O.

(** A generator with the first hundred draws of [rng0] and others after. *)
Definition rng1 : Rng := mkRng (fun i => if (i <? 100)%nat then O else 7%nat) O.

(** Scenario A and B of the specification. *)
Definition capsA : Vec := vec 2 4 100 50 200.
Definition svcA : Inst := mkInst "svcA" (vec 1 2 50 10 50).
Definition svcB : Inst := mkInst "svcB" (vec 1 2 50 10 50).
(** Scenario C: a CPU demand of 3 against a CPU capacity of 2. *)
Definition svcC : Inst := mkInst "svc" (vec 3 1 1 1 1).

(** The plans the packers return on these scenarios. *)
Definition planA : list Server :=
  [mkServer "S1" (vec 2 4 100 20 100) {[ "svcA"; "svcB" ]} [svcA; svcB]].
Definition planB : list Server :=
  [mkServer "S1" (vec 1 2 50 10 50) {[ "svcA" ]} [svcA];
   mkServer "S2" (vec 1 2 50 10 50) {[ "svcA" ]} [svcA]].
Definition planC : list Server :=
  [mkServer "S1" (vec 3 1 1 1 1) {[ "svc" ]} [svcC]].

(** Five replicas that need CPU only, a sixth one, and a CPU capacity
    of 6. *)
Definition cpu_only (service : string) (cpu : Z) : Inst :=
  mkInst service (vec cpu 0 0 0 0).
Definition five : list Inst :=
  [cpu_only "s0" 1; cpu_only "s1" 1; cpu_only "s1" 1; cpu_only "s2" 2; cpu_only "s3" 3].
Definition sixth : Inst := cpu_only "s2" 4.
Definition caps6 : Vec := vec 6 1 1 1 1.

(** Two rows of a data frame: three replicas of one service at 50% of
    a core, and a row whose quantity is not positive. *)
Definition rows3 : list Row :=
  [mkRow "web" (3 # 1) (50 # 1) 1 1 1 1; mkRow "db" (-1 # 1) (100 # 1) 1 1 1 1].
Definition caps3 : Vec := vec 1 4 4 4 4.

(** A negative CPU capacity, and what [best_plan] returns for [svcA]
    alone under it. *)
Definition capsNeg : Vec := vec (-1) 4 100 50 200.
Definition planNeg : list Server :=
  [mkServer "S1" (vec 1 2 50 10 50) {[ "svcA" ]} [svcA]].


(** ** Vocabulary of the properties *)

(** The instance fits in the room the server has left. *)
Definition room (server : Server) (inst : Inst) (caps : Vec) : Prop :=
  forall k, get (usage server) k + get (demand inst) k <= get caps k.



(** The set of service names is the set of the services of the hosted
    instances, and no two of these instances are of one service. *)
Definition anti_affine (s : Server) : Prop :=
  services s = list_to_set (Servicio <$> instances s) /\
  NoDup (Servicio <$> instances s).

(** No demand of the instance is negative. *)
Definition nonneg_demand (inst : Inst) : Prop :=
  forall k, 0 <= get (demand inst) k.

(** No usage of the server is negative. *)
Definition nonneg_usage (s : Server) : Prop :=
  forall k, 0 <= get (usage s) k.

(** A server that hosts the instance [r] alone, above the capacity for
    the resource [k]. *)
Definition alone_on (caps : Vec) (r : Inst) (k : Resource) (s : Server) : Prop :=
  instances s = [r] /\ get caps k < get (usage s) k.

(** The names of the servers follow the order of their creation. *)
Definition numbered (servers : list Server) : Prop :=
  name <$> servers = server_name <$> seq 1 (length servers).

(** The number of replicas of a service in a list. *)
Definition replicas_of (service : string) (l : list Inst) : nat :=
  length (filter (fun inst => Servicio inst = service) l).


(** The criticity of a resource: the total demand of the replicas
    relative to the capacity. *)
Definition criticity (caps : Vec) (l : list Inst) (k : Resource) : Q :=
  py_sum (map (fun inst => get (demand inst) k) l) / get caps k.

(** The number of instances a row stands for. *)
Definition quantity (row : Row) : nat := range_length (py_int (Cantidad row)).

(** The ways a plan is produced: by either packer, or by the search. *)
Inductive packing_run (l : list Inst) (caps : Vec) (plan : list Server) : Prop :=
| run_first_fit_decreasing :
    Script.first_fit_decreasing l caps = plan -> packing_run l caps plan
| run_ffd (crit_order : list Resource) :
    Script1.ffd l caps crit_order = Ok plan -> packing_run l caps plan
| run_best_plan (g : Rng) :
    fst (Script1.best_plan l caps g) = Ok (Some plan) -> packing_run l caps plan.

(** The instances of a plan, server after server. *)
Definition hosted (servers : list Server) : list Inst :=
  concat (instances <$> servers).

(** No capacity is zero on the given resources: every quotient by a
    capacity is defined. *)
Definition nonzero_on (caps : Vec) (keys : list Resource) : Prop :=
  Forall (fun k => ~ get caps k == 0) keys.

(** The sort key of [ffd] where it is defined. *)
Definition key (caps : Vec) (crit_order : list Resource) (x : Inst) : list Q :=
  map (fun r => get (demand x) r / get caps r) crit_order.

(** The lexicographic order on tuples of one length. *)
Inductive lex_lt : list Q -> list Q -> Prop :=
| lex_lt_head (x y : Q) (a b : list Q) : x < y -> lex_lt (x :: a) (y :: b)
| lex_lt_tail (x y : Q) (a b : list Q) : x == y -> lex_lt a b -> lex_lt (x :: a) (y :: b).

(** Equal tuples. *)
Definition tuple_eq (a b : list Q) : Prop := Forall2 Qeq a b.

Definition lex_le (a b : list Q) : Prop := lex_lt a b \/ tuple_eq a b.

#[global] Instance Qeq_rel_dec : RelDecision Qeq := Qeq_dec.

#[global] Instance tuple_eq_dec : RelDecision tuple_eq.
Proof. intros a b. unfold tuple_eq. apply _. Defined.

(** A sort by insertion on the elements themselves, each compared by
    its key; [sorted_reverse] on the decorated list computes it. *)
Section SortBy.

Context {K A : Type}.
Variable lt : K -> K -> bool.
Variable key_of : A -> K.

Fixpoint insert_by (x : A) (l : list A) : list A :=
  match l with
  | [] => [x]
  | y :: l' => if lt (key_of x) (key_of y) then y :: insert_by x l' else x :: l
  end.

Definition sort_by (l : list A) : list A := fold_right insert_by [] l.

(** No element is followed by one of a greater key. *)
Definition decreasing (l : list A) : Prop :=
  StronglySorted (fun a b => lt (key_of a) (key_of b) = false) l.

(** The key of [x] is neither smaller nor greater than [k]. *)
Definition tie (k : K) (x : A) : Prop :=
  lt (key_of x) k = false /\ lt k (key_of x) = false.

#[global] Instance tie_dec (k : K) (x : A) : Decision (tie k x).
Proof. unfold tie. apply _. Defined.

End SortBy.

(** The number of servers of the plan returned, when one is. *)
Definition server_count (r : Result (option (list Server))) : option nat :=
  match r with
  | Ok (Some plan) => Some (length plan)
  | _ => None
  end.



(** Two generators that agree on their next [n] draws. *)
Definition same_draws (n : nat) (g1 g2 : Rng) : Prop :=
  forall i, (i < n)%nat -> tape g1 (cursor g1 + i)%nat = tape g2 (cursor g2 + i)%nat.

(** ** The same code on IEEE 754 doubles

    The numbers of the source are Python floats: binary64 values, added,
    subtracted and divided with rounding to nearest, and compared as
    IEEE 754 prescribes ([nan] compares false with everything).  This
    module embeds the kernel once more on Rocq's primitive floats, which
    are these values and operations bit for bit.  The sort is the stable
    decreasing sort of the keys, which is what [sorted] returns whenever
    no key component is [nan].  The built-in [sum] adds floats from left
    to right in CPython up to version 3.11 and with Neumaier's
    compensation since version 3.12: the functions that call it take the
    summation as a parameter, and both are given. *)
Module F64.

Import PrimFloat.

(** Python's [x / y] on floats: any zero divisor raises. *)
Definition py_div (x y : float) : Result float :=
  if (y =? 0)%float then Raise ZeroDivisionError else Ok (x / y)%float.

(** [sum(...)] up to CPython 3.11: [0 + x1 + x2 + ...]. *)
Definition sum_left (l : list float) : float := fold_left add l 0%float.

(** One step of the compensated sum: [t = s + x], and the low-order
    bits that the addition lost go to [c]. *)
Definition compensate (sc : float * float) (x : float) : float * float :=
  let (s, c) := sc in
  let t := (s + x)%float in
  (t, if (abs x <=? abs s)%float then (c + ((s - t) + x))%float
      else (c + ((x - t) + s))%float).

(** [sum(...)] since CPython 3.12: the compensation is added at the end
    when it is finite and not zero. *)
Definition sum_compensated (l : list float) : float :=
  match l with
  | [] => 0%float
  | x :: rest =>
      let (s, c) := fold_left compensate rest ((0 + x)%float, 0%float) in
      if negb (c =? 0)%float && negb (is_nan c) && negb (is_infinity c)
      then (s + c)%float else s
  end.

Record Vec : Type := mkVec {
  v_CPU : float;
  v_Memoria : float;
  v_Red : float;
  v_Disco_IO : float;
  v_Almacenamiento : float
}.

Definition get (d : Vec) (k : Resource) : float :=
  match k with
  | CPU => v_CPU d
  | Memoria => v_Memoria d
  | Red => v_Red d
  | Disco_IO => v_Disco_IO d
  | Almacenamiento => v_Almacenamiento d
  end.

Definition setitem (d : Vec) (k : Resource) (x : float) : Vec :=
  match k with
  | CPU => mkVec x (v_Memoria d) (v_Red d) (v_Disco_IO d) (v_Almacenamiento d)
  | Memoria => mkVec (v_CPU d) x (v_Red d) (v_Disco_IO d) (v_Almacenamiento d)
  | Red => mkVec (v_CPU d) (v_Memoria d) x (v_Disco_IO d) (v_Almacenamiento d)
  | Disco_IO => mkVec (v_CPU d) (v_Memoria d) (v_Red d) x (v_Almacenamiento d)
  | Almacenamiento => mkVec (v_CPU d) (v_Memoria d) (v_Red d) (v_Disco_IO d) x
  end.

Definition tabulate (f : Resource -> float) : Vec :=
  mkVec (f CPU) (f Memoria) (f Red) (f Disco_IO) (f Almacenamiento).

Record Inst : Type := mkInst {
  Servicio : string;
  demand : Vec
}.

Record Server : Type := mkServer {
  name : string;
  usage : Vec;
  services : gset string;
  instances : list Inst
}.

(** [for k in RESOURCE_KEYS: s[k] += inst[k]], then the name is added
    and the instance appended. *)
Definition host (s : Server) (inst : Inst) : Server :=
  {| name := name s;
     usage := fold_left (fun u k => setitem u k (get u k + get (demand inst) k)%float)
                        RESOURCE_KEYS (usage s);
     services := services s ∪ {[ Servicio inst ]};
     instances := instances s ++ [inst] |}.

Definition new_server (servers : list Server) (inst : Inst) : Server :=
  {| name := server_name (length servers + 1);
     usage := tabulate (fun k => get (demand inst) k);
     services := {[ Servicio inst ]};
     instances := [inst] |}.

Section Assign.

Variable can_host : Server -> Inst -> Vec -> bool.

Fixpoint first_fit (servers : list Server) (inst : Inst) (caps : Vec)
  : option (list Server) :=
  match servers with
  | [] => None
  | s :: rest =>
      if can_host s inst caps then Some (host s inst :: rest)
      else option_map (cons s) (first_fit rest inst caps)
  end.

Definition assign (caps : Vec) (servers : list Server) (inst : Inst) : list Server :=
  match first_fit servers inst caps with
  | Some servers' => servers'
  | None => servers ++ [new_server servers inst]
  end.

Definition pack (caps : Vec) (instances_sorted : list Inst) : list Server :=
  fold_left (assign caps) instances_sorted [].

End Assign.

(** Python's [<] on tuples of floats. *)
Fixpoint tuple_lt (a b : list float) : bool :=
  match a, b with
  | x :: a', y :: b' => if (x =? y)%float then tuple_lt a' b' else (x <? y)%float
  | [], _ :: _ => true
  | _, [] => false
  end.

(** *** script.py *)
Module Script.

(** [if server[k] + inst[k] > caps[k]: return False], key after key. *)
Fixpoint fits (keys : list Resource) (server : Server) (inst : Inst) (caps : Vec) : bool :=
  match keys with
  | [] => true
  | k :: keys' =>
      if (get caps k <? get (usage server) k + get (demand inst) k)%float
      then false
      else fits keys' server inst caps
  end.

Definition can_host (server : Server) (inst : Inst) (caps : Vec) : bool :=
  if bool_decide (Servicio inst ∈ services server) then false
  else fits RESOURCE_KEYS server inst caps.

Definition sort_key (x : Inst) : list float :=
  [get (demand x) CPU; get (demand x) Red; get (demand x) Memoria].

Definition instances_sorted (instances : list Inst) : list Inst :=
  map snd (sorted_reverse tuple_lt (map (fun x => (sort_key x, x)) instances)).

Definition first_fit_decreasing (instances : list Inst) (caps : Vec) : list Server :=
  pack can_host caps (instances_sorted instances).

End Script.

(** *** script1.py *)
Module Script1.

Definition can_host (server : Server) (inst : Inst) (caps : Vec) : bool :=
  if bool_decide (Servicio inst ∈ services server) then false
  else forallb (fun k => (get (usage server) k + get (demand inst) k <=? get caps k)%float)
               RESOURCE_KEYS.

Definition sort_key (caps : Vec) (crit_order : list Resource) (x : Inst)
  : Result (list float) :=
  traverse (fun r => py_div (get (demand x) r) (get caps r)) crit_order.

Definition instances_sorted (instances : list Inst) (caps : Vec) (crit_order : list Resource)
  : Result (list Inst) :=
  keyed ← traverse (fun x => key ← sort_key caps crit_order x; Ok (key, x)) instances;
  Ok (map snd (sorted_reverse tuple_lt keyed)).

Definition ffd (instances : list Inst) (caps : Vec) (crit_order : list Resource)
  : Result (list Server) :=
  sorted ← instances_sorted instances caps crit_order;
  Ok (pack can_host caps sorted).

Definition candidates (order0 : list Resource) (g : Rng) : list (list Resource) * Rng :=
  let (sampled, g') :=
    random_sample (itertools_permutations RESOURCE_KEYS)
                  (Nat.min 100 (fact (length RESOURCE_KEYS))) g in
  (order0 :: sampled, g').

Section Sum.

(** The built-in [sum]. *)
Variable py_sum : list float -> float.

Definition crit_order (instances : list Inst) (caps : Vec) : Result (list Resource) :=
  let demand := tabulate (fun k => py_sum (map (fun inst => get (demand inst) k) instances)) in
  criticity ← traverse (fun k => c ← py_div (get demand k) (get caps k); Ok (c, k))
                       RESOURCE_KEYS;
  Ok (map snd (sorted_reverse ltb criticity)).

(** [sum(caps[k] - sum(s[k] for s in plan) for k in RESOURCE_KEYS)] *)
Definition spare (caps : Vec) (plan : list Server) : float :=
  py_sum (map (fun k => (get caps k - py_sum (map (fun s => get (usage s) k) plan))%float)
              RESOURCE_KEYS).

Definition consider (caps : Vec) (best : option (list Server)) (plan : list Server)
  : option (list Server) :=
  match best with
  | None => Some plan
  | Some b =>
      if (length plan <? length b)%nat then Some plan
      else if (length plan =? length b)%nat then
        let spare_best := spare caps b in
        let spare_now := spare caps plan in
        if (spare_now <? spare_best)%float then Some plan else Some b
      else Some b
  end.

Definition search (instances : list Inst) (caps : Vec) (orders : list (list Resource))
  : Result (option (list Server)) :=
  foldM (fun best order => plan ← ffd instances caps order; Ok (consider caps best plan))
        orders None.

Definition best_plan (instances : list Inst) (caps : Vec) (g : Rng)
  : Result (option (list Server)) * Rng :=
  match crit_order instances caps with
  | Raise e => (Raise e, g)
  | Ok order0 =>
      let (orders, g') := candidates order0 g in
      (search instances caps orders, g')
  end.

End Sum.

End Script1.

(** *** Vocabulary of the properties on doubles *)

(** The comparison of two doubles, [None] when one of them is [nan]. *)
Definition fcmp (x y : float) : option comparison :=
  SpecFloat.SFcompare (FloatOps.Prim2SF x) (FloatOps.Prim2SF y).

Definition no_nan (a : list float) : Prop := Forall (fun x => is_nan x = false) a.

(** The rational number a finite double stands for. *)
Definition exact (x : float) : option Q :=
  match FloatOps.Prim2SF x with
  | SpecFloat.S754_zero _ => Some 0%Q
  | SpecFloat.S754_finite s m e =>
      Some (Qred (inject_Z (if s then Zneg m else Zpos m) * Qpower (2 # 1) e))
  | _ => None
  end.

(** The test of the specification, its sum and its comparison taken in
    double precision: the service is not on the server, and in every
    dimension usage plus demand is at most the capacity. *)
Definition admits (server : Server) (inst : Inst) (caps : Vec) : Prop :=
  (Servicio inst ∉ services server) /\
  forall k, (get (usage server) k + get (demand inst) k <=? get caps k)%float = true.

(** No sum of the test nor any capacity is [nan]. *)
Definition comparable (server : Server) (inst : Inst) (caps : Vec) : Prop :=
  forall k, is_nan (get (usage server) k + get (demand inst) k)%float = false /\
            is_nan (get caps k) = false.

Definition nonzero_on (caps : Vec) (keys : list Resource) : Prop :=
  Forall (fun k => (get caps k =? 0)%float = false) keys.

(** The key tuple of [ffd]: the quotients in double precision. *)
Definition key (caps : Vec) (crit_order : list Resource) (x : Inst) : list float :=
  map (fun r => (get (demand x) r / get caps r)%float) crit_order.

(** The lexicographic order of two tuples of one length. *)
Inductive lex_lt : list float -> list float -> Prop :=
| lex_lt_head x y a b : (x <? y)%float = true -> lex_lt (x :: a) (y :: b)
| lex_lt_tail x y a b : (x =? y)%float = true -> lex_lt a b -> lex_lt (x :: a) (y :: b).

Definition tuple_eq (a b : list float) : Prop :=
  Forall2 (fun x y => (x =? y)%float = true) a b.

Definition lex_le (a b : list float) : Prop := lex_lt a b \/ tuple_eq a b.

#[global] Instance tuple_eq_dec : RelDecision tuple_eq.
Proof. intros a b. unfold tuple_eq. apply Forall2_dec. intros x y. apply _. Defined.

(** [sorted] is [l] sorted by decreasing key, stably: a permutation of
    [l] in which no element is followed by one of a greater key and the
    elements of one key keep the order they have in [l]. *)
Definition sorted_by {A : Type} (key_of : A -> list float) (l sorted : list A) : Prop :=
  sorted ≡ₚ l /\
  StronglySorted (fun a b => lex_le (key_of b) (key_of a)) sorted /\
  forall x, x ∈ l ->
    filter (fun y => tuple_eq (key_of y) (key_of x)) sorted =
    filter (fun y => tuple_eq (key_of y) (key_of x)) l.

(** The instances of a plan, server after server. *)
Definition hosted (servers : list Server) : list Inst :=
  concat (instances <$> servers).

(** The sum of finite doubles in exact arithmetic. *)
Definition exact_sum (l : list float) : option Q :=
  foldr (fun x acc => q ← exact x; s ← acc; Some (q + s)%Q) (Some 0%Q) l.

(** The total spare capacity of a plan as the specification words it:
    the sum over the resources of the capacity times the number of
    servers minus the demand of all the replicas hosted, in exact
    arithmetic. *)
Definition exact_spare (caps : Vec) (plan : list Server) : option Q :=
  spares ← mapM (fun d => c ← exact (get caps d);
                          u ← exact_sum (map (fun inst => get (demand inst) d) (hosted plan));
                          Some (c * inject_Z (Z.of_nat (length plan)) - u)%Q)
                RESOURCE_KEYS;
  Some (Qred (foldr Qplus 0%Q spares)).

(** The same with the usage that the servers store, every operation
    in double precision. *)
Definition total_spare (py_sum : list float -> float) (caps : Vec) (plan : list Server)
  : float :=
  py_sum (map (fun d => (get caps d * of_uint63 (Uint63.of_Z (Z.of_nat (length plan)))
                         - py_sum (map (fun s => get (usage s) d) plan))%float)
              RESOURCE_KEYS).

(** The criticity of a resource as [best_plan] computes it. *)
Definition criticity (py_sum : list float -> float) (caps : Vec) (l : list Inst)
    (k : Resource) : float :=
  (py_sum (map (fun inst => get (demand inst) k) l) / get caps k)%float.

(** The usage of the server is what the loop accumulates: the demand of
    its first instance, to which the demands of the others are added one
    after the other. *)
Definition accumulated (s : Server) : Prop :=
  match instances s with
  | [] => False
  | x :: rest =>
      forall k, get (usage s) k
                = fold_left add (map (fun inst => get (demand inst) k) rest)
                            (get (demand x) k)
  end.

(** The server hosts more than one instance. *)
Definition shared (s : Server) : Prop := (1 < length (instances s))%nat.

(** The ways a plan is produced: by either packer, or by the search. *)
Inductive packing_run (l : list Inst) (caps : Vec) (plan : list Server) : Prop :=
| run_first_fit_decreasing :
    Script.first_fit_decreasing l caps = plan -> packing_run l caps plan
| run_ffd (crit_order : list Resource) :
    Script1.ffd l caps crit_order = Ok plan -> packing_run l caps plan
| run_best_plan (py_sum : list float -> float) (g : Rng) :
    fst (Script1.best_plan py_sum l caps g) = Ok (Some plan) -> packing_run l caps plan.

(** What the capacity of one server leaves when the usage of all the
    servers of the plan is taken from it, summed over the resources. *)
Definition capacity_left (py_sum : list float -> float) (caps : Vec) (plan : list Server)
  : float :=
  py_sum (map (fun d => (get caps d - py_sum (map (fun s => get (usage s) d) plan))%float)
              [CPU; Memoria; Red; Disco_IO; Almacenamiento]).

(** [p] wins the comparison of [best_plan] against [q]: it has fewer
    servers, or as many and less capacity left. *)
Definition beats (py_sum : list float -> float) (caps : Vec) (p q : list Server) : Prop :=
  (length p < length q)%nat \/
  (length p = length q /\
   (capacity_left py_sum caps p <? capacity_left py_sum caps q)%float = true).

(** The demands of CPU, network and memory of a replica. *)
Definition cpu_red_memoria (x : Inst) : list float :=
  [get (demand x) CPU; get (demand x) Red; get (demand x) Memoria].

Definition vec (a b c d e : float) : Vec := mkVec a b c d e.

End F64.


(** ** The dictionaries of [script1.py] as shared mutable objects

    The replicas, the capacities and the servers are Python
    dictionaries: objects that are passed by reference and updated in
    place ([s[k] += inst[k]], [s["services"].add(...)],
    [s["instances"].append(inst)]).  A server keeps in its [instances]
    list the very dictionaries of the input.  In this module the
    dictionaries live in a store, the code works on their addresses, and
    every read and write is a step of a state monad.  The lists that the
    code only builds and traverses ([instances], [servers], the sorted
    list) are passed as lists of addresses. *)
Module Store.

Import PrimFloat.

Abbreviation ref := nat.

Inductive Dict : Type :=
| CapsDict (num : F64.Vec)
| InstDict (Servicio : string) (num : F64.Vec)
| ServerDict (name : string) (num : F64.Vec) (services : gset string) (instances : list ref).

Abbreviation Heap := (list Dict).

(** The value under the five resource keys, which every dictionary has. *)
Definition num (d : Dict) : F64.Vec :=
  match d with
  | CapsDict v => v
  | InstDict _ v => v
  | ServerDict _ v _ _ => v
  end.

Definition with_num (d : Dict) (v : F64.Vec) : Dict :=
  match d with
  | CapsDict _ => CapsDict v
  | InstDict s _ => InstDict s v
  | ServerDict n _ ss rs => ServerDict n v ss rs
  end.

(** How a computation ends: with a value and a store, with an
    exception, or on an access that no dictionary answers (a key it
    lacks, an address that was never allocated). *)
Inductive Outcome (A : Type) : Type :=
| Returns (a : A) (h : Heap)
| Raises (e : PyExn)
| Stuck.

Arguments Returns {A} a h.
Arguments Raises {A} e.
Arguments Stuck {A}.

Definition M (A : Type) : Type := Heap -> Outcome A.

#[global] Instance M_ret : MRet M := fun A a h => Returns a h.

#[global] Instance M_bind : MBind M := fun A B f m h =>
  match m h with
  | Returns a h' => f a h'
  | Raises e => Raises e
  | Stuck => Stuck
  end.

Definition stuck {A : Type} : M A := fun _ => Stuck.

Definition lift {A : Type} (r : Result A) : M A := fun h =>
  match r with
  | Ok a => Returns a h
  | Raise e => Raises e
  end.

Definition deref (r : ref) : M Dict := fun h =>
  match h !! r with
  | Some d => Returns d h
  | None => Stuck
  end.

Definition update (r : ref) (f : Dict -> option Dict) : M unit := fun h =>
  match h !! r with
  | Some d =>
      match f d with
      | Some d' => Returns tt (<[r := d']> h)
      | None => Stuck
      end
  | None => Stuck
  end.

(** [new = {...}]: the dictionary gets the next free address. *)
Definition alloc (d : Dict) : M ref := fun h => Returns (length h) (h ++ [d]).

(** [d[k]] and [d[k] = x] for a resource key [k]. *)
Definition getitem (r : ref) (k : Resource) : M float :=
  d ← deref r; mret (F64.get (num d) k).

Definition setitem (r : ref) (k : Resource) (x : float) : M unit :=
  update r (fun d => Some (with_num d (F64.setitem (num d) k x))).

(** [inst["Servicio"]] *)
Definition get_Servicio (r : ref) : M string :=
  d ← deref r;
  match d with
  | InstDict s _ => mret s
  | _ => stuck
  end.

(** [server["services"]] *)
Definition get_services (r : ref) : M (gset string) :=
  d ← deref r;
  match d with
  | ServerDict _ _ ss _ => mret ss
  | _ => stuck
  end.

(** [s["services"].add(name)] *)
Definition services_add (r : ref) (name : string) : M unit :=
  update r (fun d =>
    match d with
    | ServerDict n v ss rs => Some (ServerDict n v (ss ∪ {[ name ]}) rs)
    | _ => None
    end).

(** [s["instances"].append(inst)] *)
Definition instances_append (r : ref) (inst : ref) : M unit :=
  update r (fun d =>
    match d with
    | ServerDict n v ss rs => Some (ServerDict n v ss (rs ++ [inst]))
    | _ => None
    end).

(** A comprehension: the body runs on every element, left to right. *)
Fixpoint for_each {A B : Type} (f : A -> M B) (l : list A) : M (list B) :=
  match l with
  | [] => mret []
  | x :: l' => y ← f x; ys ← for_each f l'; mret (y :: ys)
  end.

(** [all(...)] of a generator: it stops at the first [False]. *)
Fixpoint all {A : Type} (f : A -> M bool) (l : list A) : M bool :=
  match l with
  | [] => mret true
  | x :: l' => f x ≫= fun b : bool => if b then all f l' else mret false
  end.

(** [{k: f(k) for k in RESOURCE_KEYS}] *)
Definition for_keys (f : Resource -> M float) : M F64.Vec :=
  a ← f CPU; b ← f Memoria; c ← f Red; d ← f Disco_IO; e ← f Almacenamiento;
  mret (F64.mkVec a b c d e).

Definition can_host (server inst caps : ref) : M bool :=
  name ← get_Servicio inst;
  hosted ← get_services server;
  if bool_decide (name ∈ hosted) then mret false
  else all (fun k => u ← getitem server k; d ← getitem inst k; c ← getitem caps k;
                     mret (u + d <=? c)%float) RESOURCE_KEYS.

(** [can_host] of [script.py]: the loop over the keys returns at the
    first one that does not fit. *)
Module Script.

Fixpoint fits (keys : list Resource) (server inst caps : ref) : M bool :=
  match keys with
  | [] => mret true
  | k :: keys' =>
      u ← getitem server k; d ← getitem inst k; c ← getitem caps k;
      if (c <? u + d)%float then mret false else fits keys' server inst caps
  end.

Definition can_host (server inst caps : ref) : M bool :=
  name ← get_Servicio inst;
  hosted ← get_services server;
  if bool_decide (name ∈ hosted) then mret false
  else fits RESOURCE_KEYS server inst caps.

End Script.

Definition sort_key (caps : ref) (crit_order : list Resource) (x : ref) : M (list float) :=
  for_each (fun r => d ← getitem x r; c ← getitem caps r; lift (F64.py_div d c)) crit_order.

Definition instances_sorted (instances : list ref) (caps : ref) (crit_order : list Resource)
  : M (list ref) :=
  keyed ← for_each (fun x => key ← sort_key caps crit_order x; mret (key, x)) instances;
  mret (map snd (sorted_reverse F64.tuple_lt keyed)).

(** The body of [if can_host(s, inst, caps):]. *)
Definition host (s inst : ref) : M unit :=
  _ ← for_each (fun k => u ← getitem s k; d ← getitem inst k; setitem s k (u + d)%float)
               RESOURCE_KEYS;
  name ← get_Servicio inst;
  _ ← services_add s name;
  instances_append s inst.

(** [for s in servers: ... break], answering whether it broke. *)
Fixpoint first_fit (servers : list ref) (inst caps : ref) : M bool :=
  match servers with
  | [] => mret false
  | s :: rest =>
      can_host s inst caps ≫= fun ok : bool =>
      if ok then _ ← host s inst; mret true
      else first_fit rest inst caps
  end.

Definition new_server (servers : list ref) (inst : ref) : M ref :=
  v ← for_keys (fun k => getitem inst k);
  name ← get_Servicio inst;
  alloc (ServerDict (server_name (length servers + 1)) v {[ name ]} [inst]).

(** [for inst in instances_sorted: ...] *)
Fixpoint place (servers : list ref) (sorted : list ref) (caps : ref) : M (list ref) :=
  match sorted with
  | [] => mret servers
  | inst :: rest =>
      first_fit servers inst caps ≫= fun placed : bool =>
      if placed then place servers rest caps
      else s ← new_server servers inst; place (servers ++ [s]) rest caps
  end.

Definition ffd (instances : list ref) (caps : ref) (crit_order : list Resource)
  : M (list ref) :=
  sorted ← instances_sorted instances caps crit_order;
  place [] sorted caps.

Section Sum.

(** The built-in [sum]. *)
Variable py_sum : list float -> float.

Definition crit_order (instances : list ref) (caps : ref) : M (list Resource) :=
  demand ← for_keys (fun k => xs ← for_each (fun inst => getitem inst k) instances;
                              mret (py_sum xs));
  criticity ← for_each (fun k => c ← getitem caps k;
                                 q ← lift (F64.py_div (F64.get demand k) c);
                                 mret (q, k)) RESOURCE_KEYS;
  mret (map snd (sorted_reverse ltb criticity)).

Definition spare (caps : ref) (plan : list ref) : M float :=
  xs ← for_each (fun k => c ← getitem caps k;
                          us ← for_each (fun s => getitem s k) plan;
                          mret (c - py_sum us)%float) RESOURCE_KEYS;
  mret (py_sum xs).

Definition consider (caps : ref) (best : option (list ref)) (plan : list ref)
  : M (option (list ref)) :=
  match best with
  | None => mret (Some plan)
  | Some b =>
      if (length plan <? length b)%nat then mret (Some plan)
      else if (length plan =? length b)%nat then
        spare_best ← spare caps b;
        spare_now ← spare caps plan;
        mret (if (spare_now <? spare_best)%float then Some plan else Some b)
      else mret (Some b)
  end.

Fixpoint search (instances : list ref) (caps : ref) (orders : list (list Resource))
    (best : option (list ref)) : M (option (list ref)) :=
  match orders with
  | [] => mret best
  | order :: rest =>
      plan ← ffd instances caps order;
      best' ← consider caps best plan;
      search instances caps rest best'
  end.

Definition best_plan (instances : list ref) (caps : ref) (g : Rng)
  : M (option (list ref) * Rng) :=
  order0 ← crit_order instances caps;
  let (orders, g') := F64.Script1.candidates order0 g in
  best ← search instances caps orders None;
  mret (best, g').

End Sum.

(** What the addresses stand for: the replica, the server and the
    capacities read off a store. *)
Definition view_inst (h : Heap) (r : ref) : option F64.Inst :=
  match h !! r with
  | Some (InstDict s v) => Some (F64.mkInst s v)
  | _ => None
  end.

Definition view_server (h : Heap) (r : ref) : option F64.Server :=
  match h !! r with
  | Some (ServerDict n v ss rs) =>
      option_map (F64.mkServer n v ss) (mapM (view_inst h) rs)
  | _ => None
  end.

Definition view_caps (h : Heap) (r : ref) : option F64.Vec :=
  match h !! r with
  | Some (CapsDict v) => Some v
  | _ => None
  end.

(** What a caller sees of a run of the packer: the plan behind the
    addresses returned, or the exception. *)
Definition observe (o : Outcome (list ref)) : option (Result (list F64.Server)) :=
  match o with
  | Returns rs h => option_map Ok (mapM (view_server h) rs)
  | Raises e => Some (Raise e)
  | Stuck => None
  end.

Definition observe_best (o : Outcome (option (list ref) * Rng))
  : option (Result (option (list F64.Server))) :=
  match o with
  | Returns (Some rs, _) h => option_map (fun p => Ok (Some p)) (mapM (view_server h) rs)
  | Returns (None, _) h => Some (Ok None)
  | Raises e => Some (Raise e)
  | Stuck => None
  end.

(** *** What an address stands for in a store *)

Definition is_inst (h : Heap) (r : ref) (x : F64.Inst) : Prop :=
  h !! r = Some (InstDict (F64.Servicio x) (F64.demand x)).

Definition is_caps (h : Heap) (r : ref) (v : F64.Vec) : Prop :=
  h !! r = Some (CapsDict v).

(** A server dictionary over the replicas of the store [h]. *)
Definition rep (h : Heap) (d : Dict) (s : F64.Server) : Prop :=
  exists rs, d = ServerDict (F64.name s) (F64.usage s) (F64.services s) rs /\
             Forall2 (is_inst h) rs (F64.instances s).

Definition is_server (h : Heap) (r : ref) (s : F64.Server) : Prop :=
  exists d, h !! r = Some d /\ rep h d s.

(** The plan kept so far, behind its addresses. *)
Definition is_best (h : Heap) (best : option (list ref))
    (pbest : option (list F64.Server)) : Prop :=
  match best, pbest with
  | None, None => True
  | Some rs, Some plan => Forall2 (is_server h) rs plan
  | _, _ => False
  end.

(** Two decorated items with the same key, the one standing for the
    other. *)
Definition same_keys {K : Type} (h : Heap) (p : K * ref) (q : K * F64.Inst) : Prop :=
  fst p = fst q /\ is_inst h (snd p) (snd q).

End Store.


(** ** Concrete inputs on doubles *)
Module Inputs64.

Import PrimFloat.

(** The doubles nearest to 0.2 and 0.4. *)
Definition d02 : float := 0x1.999999999999ap-3.
Definition d04 : float := 0x1.999999999999ap-2.

Definition caps1 : F64.Vec := F64.vec 1 1 1 1 1.

(** A server whose core is used up, a replica that asks for [2^-60] of
    a core, and one whose CPU demand is not a number. *)
Definition db : F64.Inst := F64.mkInst "db" (F64.vec 1 0 0 0 0).
Definition serverFull : F64.Server :=
  F64.mkServer "S1" (F64.vec 1 0 0 0 0) {[ "db" ]} [db].
Definition sliver : F64.Inst := F64.mkInst "web" (F64.vec 0x1p-60 0 0 0 0).
Definition undefinedCPU : F64.Inst := F64.mkInst "web" (F64.vec nan 0 0 0 0).

(** The same server and replicas as dictionaries of a store. *)
Definition storeFull : Store.Heap :=
  [Store.CapsDict caps1;
   Store.InstDict "db" (F64.vec 1 0 0 0 0);
   Store.InstDict "web" (F64.vec 0x1p-60 0 0 0 0);
   Store.ServerDict "S1" (F64.vec 1 0 0 0 0) {[ "db" ]} [1%nat]].

(** Two replicas whose CPU demands differ in the last bit, on servers
    of three quarters of a core; and a server without CPU. *)
Definition lastBitA : F64.Inst := F64.mkInst "a" (F64.vec 0x1.8000000000001p+0 0 0 0 0).
Definition lastBitB : F64.Inst := F64.mkInst "b" (F64.vec 0x1.8000000000002p+0 0 0 0 0).
Definition capsThreeQuarters : F64.Vec := F64.vec 0x1.8p-1 1 1 1 1.
Definition capsNoCPU : F64.Vec := F64.vec 0 1 1 1 1.

(** Two replicas of a service [x] and one of a service [a], with their
    CPU and memory demands, on servers of 1.25 cores and 0.75 GB. *)
Definition x1 : F64.Inst := F64.mkInst "x" (F64.vec d02 0.5 0 0 0).
Definition x2 : F64.Inst := F64.mkInst "x" (F64.vec 0.5 d02 0 0 0).
Definition a1 : F64.Inst := F64.mkInst "a" (F64.vec d04 d02 0 0 0).
Definition replicas : list F64.Inst := [x1; x2; a1].
Definition capsMix : F64.Vec := F64.vec 1.25 0.75 0.0625 0.0625 0.0625.

Definition orderMemoria : list Resource := [Memoria; CPU; Red; Disco_IO; Almacenamiento].

(** Their plan under the ordering that starts with [Memoria], which is
    the critical one, and under the one that starts with [CPU]. *)
Definition planMemoria : list F64.Server :=
  [F64.mkServer "S1" (F64.vec 0x1.3333333333334p-1 0x1.6666666666666p-1 0 0 0)
                {[ "x"; "a" ]} [x1; a1];
   F64.mkServer "S2" (F64.vec 0.5 d02 0 0 0) {[ "x" ]} [x2]].
Definition planCPU : list F64.Server :=
  [F64.mkServer "S1" (F64.vec 0x1.ccccccccccccdp-1 d04 0 0 0) {[ "x"; "a" ]} [x2; a1];
   F64.mkServer "S2" (F64.vec d02 0.5 0 0 0) {[ "x" ]} [x1]].

(** The replicas as dictionaries, in two stores: in the second the
    dictionaries are at other addresses, after a server of an earlier
    run. *)
Definition store1 : Store.Heap :=
  [Store.CapsDict capsMix;
   Store.InstDict "x" (F64.vec d02 0.5 0 0 0);
   Store.InstDict "x" (F64.vec 0.5 d02 0 0 0);
   Store.InstDict "a" (F64.vec d04 d02 0 0 0)].
Definition store2 : Store.Heap :=
  [Store.InstDict "a" (F64.vec d04 d02 0 0 0);
   Store.InstDict "x" (F64.vec 0.5 d02 0 0 0);
   Store.ServerDict "S1" (F64.vec d04 d02 0 0 0) {[ "a" ]} [0%nat];
   Store.InstDict "x" (F64.vec d02 0.5 0 0 0);
   Store.CapsDict capsMix].

End Inputs64.

(** * Properties *)

(** ** Resource vectors *)

Lemma get_tabulate (f : Resource -> Q) (k : Resource) : get (tabulate f) k = f k.
Proof. by destruct k. Qed.

Lemma get_setitem (d : Vec) (k k' : Resource) (x : Q) :
  get (setitem d k x) k' = if decide (k = k') then x else get d k'.
Proof. by destruct k, k'. Qed.

Lemma usage_host (s : Server) (inst : Inst) (k : Resource) :
  get (usage (host s inst)) k = get (usage s) k + get (demand inst) k.
Proof. by destruct k. Qed.

Lemma usage_new_server (servers : list Server) (inst : Inst) (k : Resource) :
  get (usage (new_server servers inst)) k = get (demand inst) k.
Proof. by destruct k. Qed.

Lemma Qlt_bool_iff (x y : Q) : Qlt_bool x y = true <-> x < y.
Proof.
  unfold Qlt_bool. rewrite negb_true_iff, <- not_true_iff_false, Qle_bool_iff.
  split; [apply Qnot_le_lt | apply Qlt_not_le].
Qed.

Lemma Qlt_bool_false (x y : Q) : Qlt_bool x y = false <-> y <= x.
Proof.
  unfold Qlt_bool. rewrite negb_false_iff. apply Qle_bool_iff.
Qed.

Lemma forall_resource (P : Resource -> Prop) :
  (forall k, P k) <-> Forall P RESOURCE_KEYS.
Proof.
  split.
  - intros H. unfold RESOURCE_KEYS. repeat constructor; apply H.
  - intros H k. rewrite Forall_forall in H. apply H.
    destruct k; unfold RESOURCE_KEYS; set_solver.
Qed.

(** ** The feasibility test *)

Lemma can_host1_true (server : Server) (inst : Inst) (caps : Vec) :
  Script1.can_host server inst caps = true <->
  (Servicio inst ∉ services server) /\ room server inst caps.
Proof.
  unfold Script1.can_host, room. case_bool_decide as Hin.
  - split; [discriminate | tauto].
  - rewrite forallb_forall. split.
    + intros H. split; [done|]. intros k. apply Qle_bool_iff, H.
      destruct k; simpl; tauto.
    + intros [_ H] k _. apply Qle_bool_iff, H.
Qed.

Lemma fits_forallb (keys : list Resource) (server : Server) (inst : Inst) (caps : Vec) :
  Script.fits keys server inst caps =
  forallb (fun k => Qle_bool (get (usage server) k + get (demand inst) k) (get caps k)) keys.
Proof.
  induction keys as [|k keys IH]; simpl; [done|].
  unfold Qlt_bool. rewrite IH.
  by destruct (Qle_bool _ _).
Qed.

Lemma can_host_agree (server : Server) (inst : Inst) (caps : Vec) :
  Script.can_host server inst caps = Script1.can_host server inst caps.
Proof.
  unfold Script.can_host, Script1.can_host. by rewrite fits_forallb.
Qed.

Lemma can_host0_true (server : Server) (inst : Inst) (caps : Vec) :
  Script.can_host server inst caps = true <->
  (Servicio inst ∉ services server) /\ room server inst caps.
Proof. rewrite can_host_agree. apply can_host1_true. Qed.

(** ** Invariants of the packing loop

    The two packers differ in their feasibility test and in their sort
    key only; the loop is analysed once, for any test that admits an
    instance exactly when anti-affinity and the capacities allow. *)
Section PackInvariants.

Variable can_host : Server -> Inst -> Vec -> bool.
Hypothesis can_host_true : forall server inst caps,
  can_host server inst caps = true <->
  (Servicio inst ∉ services server) /\ room server inst caps.

Variable caps : Vec.

(** What the inner loop does, as a relation: the list is unchanged but
    for one server, the first that admits the instance. *)
Lemma first_fit_Some (servers servers' : list Server) (inst : Inst) :
  first_fit can_host servers inst caps = Some servers' ->
  exists before s after,
    servers = before ++ s :: after /\
    servers' = before ++ host s inst :: after /\
    can_host s inst caps = true /\
    Forall (fun s' => can_host s' inst caps = false) before.
Proof.
  revert servers'. induction servers as [|s rest IH]; intros servers' H; simpl in H.
  - discriminate.
  - destruct (can_host s inst caps) eqn:Hs.
    + injection H as <-. exists [], s, rest. by repeat split.
    + destruct (first_fit can_host rest inst caps) as [rest'|] eqn:Hrest; [|discriminate].
      injection H as <-.
      destruct (IH rest' eq_refl) as (before & s0 & after & -> & -> & Hs0 & Hb).
      exists (s :: before), s0, after. repeat split; [done|]. by constructor.
Qed.

Lemma first_fit_None (servers : list Server) (inst : Inst) :
  first_fit can_host servers inst caps = None <->
  Forall (fun s => can_host s inst caps = false) servers.
Proof.
  induction servers as [|s rest IH]; simpl.
  - split; [constructor | done].
  - destruct (can_host s inst caps) eqn:Hs.
    + split; [discriminate|]. intros H. inversion H; congruence.
    + destruct (first_fit can_host rest inst caps) eqn:Hrest; simpl.
      * split; [discriminate|]. intros H. inversion H as [|? ? _ Hr]; subst.
        apply IH in Hr. discriminate.
      * split; [|done]. intros _. constructor; [done|]. by apply IH.
Qed.

(** A property of single servers that hosting and creation preserve is
    an invariant of the whole loop. *)
Lemma assign_Forall (P : Server -> Prop) (servers : list Server) (inst : Inst) :
  (forall s, P s -> can_host s inst caps = true -> P (host s inst)) ->
  P (new_server servers inst) ->
  Forall P servers -> Forall P (assign can_host caps servers inst).
Proof.
  intros Hhost Hnew Hall. unfold assign.
  destruct (first_fit can_host servers inst caps) as [servers'|] eqn:H.
  - apply first_fit_Some in H as (before & s & after & -> & -> & Hs & _).
    apply Forall_app in Hall as [Hb Ha]. inversion Ha; subst.
    apply Forall_app. split; [done|]. constructor; auto.
  - apply Forall_app. split; [done|]. by repeat constructor.
Qed.

Lemma pack_from_Forall (P : Server -> Prop) (Q0 : Inst -> Prop)
    (l : list Inst) (servers : list Server) :
  (forall s inst, Q0 inst -> P s -> can_host s inst caps = true -> P (host s inst)) ->
  (forall ss inst, Q0 inst -> P (new_server ss inst)) ->
  Forall Q0 l -> Forall P servers ->
  Forall P (fold_left (assign can_host caps) l servers).
Proof.
  intros Hhost Hnew. revert servers.
  induction l as [|inst l IH]; intros servers Hl Hs; simpl; [done|].
  inversion Hl; subst. apply IH; [done|].
  apply assign_Forall; auto.
Qed.

Lemma pack_Forall (P : Server -> Prop) (Q0 : Inst -> Prop) (l : list Inst) :
  (forall s inst, Q0 inst -> P s -> can_host s inst caps = true -> P (host s inst)) ->
  (forall ss inst, Q0 inst -> P (new_server ss inst)) ->
  Forall Q0 l -> Forall P (pack can_host caps l).
Proof. intros Hhost Hnew Hl. by apply pack_from_Forall with (Q0 := Q0). Qed.

(** *** Capacity *)




(** *** Anti-affinity *)

Lemma host_anti_affine (s : Server) (inst : Inst) :
  anti_affine s -> can_host s inst caps = true -> anti_affine (host s inst).
Proof.
  intros [Hset Hnd] H. apply can_host_true in H as [Hnotin _].
  unfold anti_affine. simpl. rewrite fmap_app. simpl. split.
  - rewrite list_to_set_app_L, <- Hset. simpl. by rewrite union_empty_r_L.
  - apply NoDup_app. split; [done|]. split; [|apply NoDup_singleton].
    intros x Hx Hx'. apply list_elem_of_singleton in Hx' as ->.
    apply Hnotin. rewrite Hset. by apply elem_of_list_to_set.
Qed.

Lemma new_server_anti_affine (servers : list Server) (inst : Inst) :
  anti_affine (new_server servers inst).
Proof.
  unfold anti_affine. simpl. split; [by rewrite union_empty_r_L | apply NoDup_singleton].
Qed.

Lemma pack_anti_affine (l : list Inst) :
  Forall anti_affine (pack can_host caps l).
Proof.
  apply pack_Forall with (Q0 := fun _ => True).
  - intros s inst _. apply host_anti_affine.
  - intros ss inst _. apply new_server_anti_affine.
  - by apply Forall_forall.
Qed.

Lemma anti_affine_size (s : Server) :
  anti_affine s -> size (services s) = length (instances s).
Proof.
  intros [-> Hnd]. rewrite size_list_to_set; [|done]. apply length_fmap.
Qed.

(** *** Conservation *)

Lemma assign_hosted (servers : list Server) (inst : Inst) :
  hosted (assign can_host caps servers inst) ≡ₚ hosted servers ++ [inst].
Proof.
  unfold assign, hosted.
  destruct (first_fit can_host servers inst caps) as [servers'|] eqn:H.
  - apply first_fit_Some in H as (before & s & after & -> & -> & _ & _).
    rewrite !fmap_app, !concat_app. simpl.
    rewrite <- ?app_assoc. do 2 apply Permutation_app_head.
    apply Permutation_app_comm.
  - rewrite fmap_app, concat_app. simpl. by rewrite ?app_nil_r.
Qed.

Lemma pack_from_hosted (l : list Inst) (servers : list Server) :
  hosted (fold_left (assign can_host caps) l servers) ≡ₚ hosted servers ++ l.
Proof.
  revert servers. induction l as [|inst l IH]; intros servers; simpl.
  - by rewrite app_nil_r.
  - rewrite IH, assign_hosted, <- app_assoc. done.
Qed.

Lemma pack_hosted (l : list Inst) : hosted (pack can_host caps l) ≡ₚ l.
Proof. unfold pack. by rewrite pack_from_hosted. Qed.


End PackInvariants.

(** ** Exceptions *)

Lemma py_div_Ok (x y q : Q) : py_div x y = Ok q -> q = x / y /\ ~ y == 0.
Proof.
  unfold py_div. destruct (Qeq_bool y 0) eqn:H; [discriminate|].
  intros [= <-]. split; [done|]. by apply Qeq_bool_neq.
Qed.

Lemma py_div_nonzero (x y : Q) : ~ y == 0 -> py_div x y = Ok (x / y).
Proof.
  intros H. unfold py_div. destruct (Qeq_bool y 0) eqn:E; [|done].
  by apply Qeq_bool_iff in E.
Qed.

Lemma py_div_zero (x y : Q) : y == 0 -> py_div x y = Raise ZeroDivisionError.
Proof.
  intros H. unfold py_div. apply Qeq_bool_iff in H. by rewrite H.
Qed.

Lemma traverse_pure {A B : Type} (f : A -> Result B) (g : A -> B) (l : list A) :
  Forall (fun x => f x = Ok (g x)) l -> traverse f l = Ok (map g l).
Proof.
  induction 1 as [|x l Hx _ IH]; simpl; [done|]. by rewrite Hx, IH.
Qed.

Lemma traverse_Ok {A B : Type} (f : A -> Result B) (l : list A) (ys : list B) :
  traverse f l = Ok ys -> Forall2 (fun x y => f x = Ok y) l ys.
Proof.
  revert ys. induction l as [|x l IH]; intros ys; simpl.
  - intros [= <-]. constructor.
  - destruct (f x) as [y|] eqn:Hx; [|discriminate]. simpl.
    destruct (traverse f l) as [ys'|]; [|discriminate]. simpl.
    intros [= <-]. constructor; auto.
Qed.

(** ** The stable decreasing sort *)

Section SortFacts.

Context {K A : Type}.
Variable lt : K -> K -> bool.
Variable key_of : A -> K.

(** [lt] is the strict part of a total preorder. *)
Hypothesis lt_asym : forall a b, lt a b = true -> lt b a = false.
Hypothesis ge_trans : forall a b c, lt a b = false -> lt b c = false -> lt a c = false.

Lemma insert_decorated (x : A) (l : list A) :
  insert_desc lt (key_of x, x) (map (fun y => (key_of y, y)) l) =
  map (fun y => (key_of y, y)) (insert_by lt key_of x l).
Proof.
  induction l as [|y l IH]; simpl; [done|].
  destruct (lt (key_of x) (key_of y)); simpl; [by rewrite IH | done].
Qed.

(** Decorate, sort, undecorate is the sort by key. *)
Lemma sorted_reverse_sort_by (l : list A) :
  map snd (sorted_reverse lt (map (fun y => (key_of y, y)) l)) = sort_by lt key_of l.
Proof.
  assert (H : sorted_reverse lt (map (fun y => (key_of y, y)) l) =
              map (fun y => (key_of y, y)) (sort_by lt key_of l)).
  { unfold sorted_reverse, sort_by.
    induction l as [|x l IH]; simpl; [done|].
    rewrite IH. apply insert_decorated. }
  rewrite H, map_map. simpl. apply map_id.
Qed.

Lemma insert_by_perm (x : A) (l : list A) : insert_by lt key_of x l ≡ₚ x :: l.
Proof.
  induction l as [|y l IH]; simpl; [done|].
  destruct (lt (key_of x) (key_of y)); [|done].
  rewrite IH. apply perm_swap.
Qed.

Lemma sort_by_perm (l : list A) : sort_by lt key_of l ≡ₚ l.
Proof.
  induction l as [|x l IH]; simpl; [done|].
  by rewrite insert_by_perm, IH.
Qed.

Lemma insert_by_decreasing (x : A) (l : list A) :
  decreasing lt key_of l -> decreasing lt key_of (insert_by lt key_of x l).
Proof.
  unfold decreasing. induction 1 as [|y l Hl IH Hy]; simpl.
  - repeat constructor.
  - destruct (lt (key_of x) (key_of y)) eqn:Hxy.
    + constructor; [done|].
      rewrite insert_by_perm. constructor; [by apply lt_asym | done].
    + constructor; [by constructor|].
      constructor; [done|].
      eapply Forall_impl; [exact Hy|]. intros z Hz. simpl in Hz.
      by apply ge_trans with (key_of y).
Qed.

Lemma sort_by_decreasing (l : list A) : decreasing lt key_of (sort_by lt key_of l).
Proof.
  induction l as [|x l IH]; simpl; [constructor|].
  by apply insert_by_decreasing.
Qed.

(** Stability: the elements of one key come out in the order they came in. *)
Lemma insert_by_stable (k : K) (x : A) (l : list A) :
  filter (tie lt key_of k) (insert_by lt key_of x l) = filter (tie lt key_of k) (x :: l).
Proof.
  induction l as [|y l IH]; simpl; [done|].
  destruct (lt (key_of x) (key_of y)) eqn:Hxy; [|done].
  rewrite filter_cons, IH, !filter_cons.
  destruct (decide (tie lt key_of k y)) as [[Hy1 Hy2]|Hy]; [|done].
  destruct (decide (tie lt key_of k x)) as [[Hx1 Hx2]|Hx]; [|done].
  rewrite (ge_trans _ _ _ Hx1 Hy2) in Hxy. discriminate.
Qed.

Lemma sort_by_stable (k : K) (l : list A) :
  filter (tie lt key_of k) (sort_by lt key_of l) = filter (tie lt key_of k) l.
Proof.
  induction l as [|x l IH]; simpl; [done|].
  by rewrite insert_by_stable, !filter_cons, IH.
Qed.



End SortFacts.

(** ** The order on key tuples *)

Ltac q_bool :=
  repeat match goal with
  | H : Qeq_bool _ _ = true |- _ => apply Qeq_bool_iff in H
  | H : Qeq_bool _ _ = false |- _ => apply Qeq_bool_neq in H
  | H : Qlt_bool _ _ = true |- _ => apply Qlt_bool_iff in H
  | H : Qlt_bool _ _ = false |- _ => apply Qlt_bool_false in H
  | H : Qle_bool _ _ = true |- _ => apply Qle_bool_iff in H
  | |- Qlt_bool _ _ = true => apply Qlt_bool_iff
  | |- Qlt_bool _ _ = false => apply Qlt_bool_false
  | |- Qle_bool _ _ = true => apply Qle_bool_iff
  end.

Ltac q_absurd :=
  exfalso; match goal with H : ~ _ == _ |- _ => apply H; lra end.

Lemma tuple_lt_asym (a b : list Q) : tuple_lt a b = true -> tuple_lt b a = false.
Proof.
  revert b. induction a as [|x a IH]; intros [|y b]; simpl; try done.
  destruct (Qeq_bool x y) eqn:Exy, (Qeq_bool y x) eqn:Eyx; intros H; q_bool;
    first [by apply IH | lra | q_absurd].
Qed.

Lemma tuple_ge_trans (a b c : list Q) :
  tuple_lt a b = false -> tuple_lt b c = false -> tuple_lt a c = false.
Proof.
  revert b c. induction a as [|x a IH]; intros [|y b] [|z c]; simpl; try done.
  destruct (Qeq_bool x y) eqn:Exy, (Qeq_bool y z) eqn:Eyz, (Qeq_bool x z) eqn:Exz;
    intros H1 H2; q_bool; first [by eapply IH | lra | q_absurd].
Qed.

Lemma tuple_lt_lex (a b : list Q) :
  length a = length b -> tuple_lt a b = true <-> lex_lt a b.
Proof.
  revert b. induction a as [|x a IH]; intros [|y b]; simpl; try done.
  - intros _. split; [done | inversion 1].
  - intros [= Hlen]. destruct (Qeq_bool x y) eqn:Exy; q_bool.
    + rewrite (IH b Hlen). split.
      * by apply lex_lt_tail.
      * inversion 1; subst; [exfalso; lra | done].
    + split.
      * intros H. q_bool. by apply lex_lt_head.
      * inversion 1; subst; q_bool; [done | q_absurd].
Qed.

Lemma tuple_tie_eq (a b : list Q) :
  length a = length b ->
  (tuple_lt a b = false /\ tuple_lt b a = false) <-> tuple_eq a b.
Proof.
  unfold tuple_eq.
  revert b. induction a as [|x a IH]; intros [|y b]; simpl; try done.
  intros [= Hlen].
  destruct (Qeq_bool x y) eqn:Exy, (Qeq_bool y x) eqn:Eyx; q_bool.
  - rewrite (IH b Hlen). split; [by constructor | by inversion 1].
  - q_absurd.
  - q_absurd.
  - split.
    + intros [H1 H2]. q_bool. q_absurd.
    + inversion 1; subst. q_absurd.
Qed.

Lemma tuple_ge_lex_le (a b : list Q) :
  length a = length b -> tuple_lt a b = false -> lex_le b a.
Proof.
  intros Hlen H. destruct (tuple_lt b a) eqn:Hba.
  - left. by apply tuple_lt_lex.
  - right. apply tuple_tie_eq; [done|]. by split.
Qed.


(** ** The sorted list of the packers *)

Lemma length_key (caps : Vec) (order : list Resource) (x : Inst) :
  length (key caps order x) = length order.
Proof. unfold key. apply length_map. Qed.

Lemma sort_key_nonzero (caps : Vec) (order : list Resource) (x : Inst) :
  nonzero_on caps order -> Script1.sort_key caps order x = Ok (key caps order x).
Proof.
  intros H. unfold Script1.sort_key, key. apply traverse_pure.
  eapply Forall_impl; [exact H|]. intros r Hr. by apply py_div_nonzero.
Qed.

Lemma sort_key_Ok (caps : Vec) (order : list Resource) (x : Inst) (k : list Q) :
  Script1.sort_key caps order x = Ok k -> k = key caps order x.
Proof.
  unfold Script1.sort_key, key. intros H. apply traverse_Ok in H.
  induction H as [|r q order k Hq _ IH]; simpl; [done|].
  apply py_div_Ok in Hq as [-> _]. by rewrite IH.
Qed.

Lemma sort_key_Raise (caps : Vec) (order : list Resource) (x : Inst) (e : PyExn) :
  Script1.sort_key caps order x = Raise e -> ~ nonzero_on caps order.
Proof.
  intros H Hnz. rewrite sort_key_nonzero in H; [discriminate | done].
Qed.

Lemma instances_sorted_nonzero (l : list Inst) (caps : Vec) (order : list Resource) :
  nonzero_on caps order ->
  Script1.instances_sorted l caps order = Ok (sort_by tuple_lt (key caps order) l).
Proof.
  intros H. unfold Script1.instances_sorted.
  rewrite (traverse_pure _ (fun x => (key caps order x, x))).
  - simpl. by rewrite sorted_reverse_sort_by.
  - apply Forall_forall. intros x _. by rewrite sort_key_nonzero.
Qed.

Lemma instances_sorted_Ok (l sorted : list Inst) (caps : Vec) (order : list Resource) :
  Script1.instances_sorted l caps order = Ok sorted ->
  sorted = sort_by tuple_lt (key caps order) l.
Proof.
  unfold Script1.instances_sorted.
  destruct (traverse _ l) as [keyed|] eqn:H; [|discriminate]. simpl.
  intros [= <-]. rewrite <- sorted_reverse_sort_by. do 2 f_equal.
  apply traverse_Ok in H.
  induction H as [|x p l keyed Hp _ IH]; simpl; [done|].
  rewrite IH. f_equal.
  destruct (Script1.sort_key caps order x) as [k|] eqn:Hk; [|discriminate].
  simpl in Hp. injection Hp as <-. by rewrite (sort_key_Ok _ _ _ _ Hk).
Qed.

Lemma instances_sorted_nil (caps : Vec) (order : list Resource) :
  Script1.instances_sorted [] caps order = Ok [].
Proof. done. Qed.

Lemma ffd_nonzero (l : list Inst) (caps : Vec) (order : list Resource) :
  nonzero_on caps order ->
  Script1.ffd l caps order =
  Ok (pack Script1.can_host caps (sort_by tuple_lt (key caps order) l)).
Proof.
  intros H. unfold Script1.ffd. by rewrite instances_sorted_nonzero.
Qed.

Lemma ffd_Ok (l : list Inst) (caps : Vec) (order : list Resource) (plan : list Server) :
  Script1.ffd l caps order = Ok plan ->
  plan = pack Script1.can_host caps (sort_by tuple_lt (key caps order) l).
Proof.
  unfold Script1.ffd.
  destruct (Script1.instances_sorted l caps order) as [sorted|] eqn:H; [|discriminate].
  simpl. intros [= <-]. by rewrite (instances_sorted_Ok _ _ _ _ H).
Qed.

Lemma first_fit_decreasing_sort_by (l : list Inst) (caps : Vec) :
  Script.first_fit_decreasing l caps =
  pack Script.can_host caps (sort_by tuple_lt Script.sort_key l).
Proof.
  unfold Script.first_fit_decreasing, Script.instances_sorted.
  by rewrite sorted_reverse_sort_by.
Qed.

(** The two feasibility tests are one function: so are the two loops. *)
Lemma pack_can_host_agree (caps : Vec) (l : list Inst) :
  pack Script.can_host caps l = pack Script1.can_host caps l.
Proof.
  unfold pack. generalize (@nil Server).
  induction l as [|inst l IH]; intros servers; simpl; [done|].
  rewrite IH. f_equal. unfold assign. 
  replace (first_fit Script.can_host servers inst caps)
    with (first_fit Script1.can_host servers inst caps); [done|].
  induction servers as [|s rest IHs]; simpl; [done|].
  by rewrite can_host_agree, IHs.
Qed.

(** ** The search loop *)

Lemma best_plan_fst (l : list Inst) (caps : Vec) (g : Rng) :
  fst (Script1.best_plan l caps g) =
  (order0 ← Script1.crit_order l caps;
   Script1.search l caps (fst (Script1.candidates order0 g))).
Proof.
  unfold Script1.best_plan.
  destruct (Script1.crit_order l caps) as [order0|e]; simpl; [|done].
  by destruct (Script1.candidates order0 g).
Qed.

Lemma candidates_fst (order0 : list Resource) (g : Rng) :
  exists sampled, fst (Script1.candidates order0 g) = order0 :: sampled.
Proof.
  unfold Script1.candidates. destruct (random_sample _ _ g) as [sampled g'].
  by exists sampled.
Qed.

(** The plan kept is the newcomer or the incumbent. *)
Lemma consider_cases (caps : Vec) (best : option (list Server)) (plan : list Server) :
  Script1.consider caps best plan = Some plan \/
  (exists b, best = Some b /\ Script1.consider caps best plan = Some b).
Proof.
  unfold Script1.consider. destruct best as [b|]; [|by left].
  repeat case_match; eauto.
Qed.

(** A property of every plan found is a property of the plan kept. *)
Lemma search_from_invariant (P : list Server -> Prop) (l : list Inst) (caps : Vec)
    (orders : list (list Resource)) (acc : option (list Server)) (best : list Server) :
  (forall order plan, order ∈ orders -> Script1.ffd l caps order = Ok plan -> P plan) ->
  (forall b, acc = Some b -> P b) ->
  foldM (fun best order => plan ← Script1.ffd l caps order;
                           Ok (Script1.consider caps best plan)) orders acc
    = Ok (Some best) ->
  P best.
Proof.
  revert acc.
  induction orders as [|order orders IH]; intros acc Hffd Hacc; simpl.
  - intros [= ->]. by apply Hacc.
  - destruct (Script1.ffd l caps order) as [plan|] eqn:Hplan; [|discriminate]. simpl.
    apply IH.
    + intros o p Ho. apply Hffd. by apply list_elem_of_further.
    + intros b Hb.
      destruct (consider_cases caps acc plan) as [H|(b' & -> & H)];
        rewrite H in Hb; injection Hb as <-; [|eauto].
      apply (Hffd order); [apply list_elem_of_here | done].
Qed.

Lemma search_invariant_on (P : list Server -> Prop) (l : list Inst) (caps : Vec)
    (orders : list (list Resource)) (best : list Server) :
  (forall order plan, order ∈ orders -> Script1.ffd l caps order = Ok plan -> P plan) ->
  Script1.search l caps orders = Ok (Some best) -> P best.
Proof.
  intros Hffd. unfold Script1.search.
  by apply search_from_invariant.
Qed.

Lemma search_invariant (P : list Server -> Prop) (l : list Inst) (caps : Vec)
    (orders : list (list Resource)) (best : list Server) :
  (forall order plan, Script1.ffd l caps order = Ok plan -> P plan) ->
  Script1.search l caps orders = Ok (Some best) -> P best.
Proof. intros Hffd. apply search_invariant_on. eauto. Qed.

Lemma best_plan_invariant (P : list Server -> Prop) (l : list Inst) (caps : Vec)
    (g : Rng) (best : list Server) :
  (forall order plan, Script1.ffd l caps order = Ok plan -> P plan) ->
  fst (Script1.best_plan l caps g) = Ok (Some best) -> P best.
Proof.
  intros Hffd. rewrite best_plan_fst.
  destruct (Script1.crit_order l caps) as [order0|]; [|discriminate]. simpl.
  by apply search_invariant.
Qed.

(** ** What a packing run guarantees *)


Lemma ffd_anti_affine (l : list Inst) (caps : Vec) (order : list Resource)
    (plan : list Server) :
  Script1.ffd l caps order = Ok plan -> Forall anti_affine plan.
Proof. intros ->%ffd_Ok. apply (pack_anti_affine _ can_host1_true). Qed.

Lemma ffd_hosted (l : list Inst) (caps : Vec) (order : list Resource) (plan : list Server) :
  Script1.ffd l caps order = Ok plan -> hosted plan ≡ₚ l.
Proof.
  intros ->%ffd_Ok. rewrite pack_hosted. apply sort_by_perm.
Qed.

(** * The claims *)

Ltac q_le := intros k; destruct k; vm_compute; discriminate.




(** C2.  In every plan produced by a packing run, no two instances of a
    server are of one service: the names of the hosted instances are
    pairwise distinct, the set [services] holds exactly these names, and
    it has as many elements as the server has instances. *)
Theorem packing_anti_affinity (l : list Inst) (caps : Vec) (plan : list Server) :
  packing_run l caps plan ->
  Forall (fun s => NoDup (Servicio <$> instances s) /\
                   services s = list_to_set (Servicio <$> instances s) /\
                   size (services s) = length (instances s)) plan.
Proof.
  intros Hrun.
  assert (H : Forall anti_affine plan).
  { destruct Hrun as [<- | order H | g H].
    - rewrite first_fit_decreasing_sort_by. apply (pack_anti_affine _ can_host0_true).
    - by eapply ffd_anti_affine.
    - revert H. apply best_plan_invariant. intros order p. apply ffd_anti_affine. }
  eapply Forall_impl; [exact H|]. intros s Hs.
  split; [apply Hs|]. split; [apply Hs|]. by apply anti_affine_size.
Qed.

Lemma packing_anti_affinity_witness :
  packing_run [svcA; svcA] capsA planB /\
  Forall (fun s => NoDup (Servicio <$> instances s) /\
                   services s = list_to_set (Servicio <$> instances s) /\
                   size (services s) = length (instances s)) planB.
Proof.
  assert (H : packing_run [svcA; svcA] capsA planB)
    by (apply run_ffd with RESOURCE_KEYS; vm_compute; reflexivity).
  exact (conj H (packing_anti_affinity _ _ _ H)).
Defined.

(** C10.  Every packing run conserves its input: the instances of the
    servers of the plan, taken server after server, are a permutation of
    the input list. *)
Theorem packing_conserves (l : list Inst) (caps : Vec) (plan : list Server) :
  packing_run l caps plan -> concat (instances <$> plan) ≡ₚ l.
Proof.
  intros [<- | order H | g H].
  - rewrite first_fit_decreasing_sort_by. fold (hosted (pack Script.can_host caps
      (sort_by tuple_lt Script.sort_key l))).
    rewrite pack_hosted. apply sort_by_perm.
  - by eapply ffd_hosted.
  - revert H. apply (best_plan_invariant (fun p => hosted p ≡ₚ l)).
    intros order p. apply ffd_hosted.
Qed.

Lemma packing_conserves_witness :
  packing_run [svcA; svcB] capsA planA /\
  concat (instances <$> planA) ≡ₚ [svcA; svcB].
Proof.
  assert (H : packing_run [svcA; svcB] capsA planA)
    by (apply run_best_plan with rng0; vm_compute; reflexivity).
  exact (conj H (packing_conserves _ _ _ H)).
Defined.

(** ** When the optimizer returns *)

Lemma nonzero_on_any (caps : Vec) (order : list Resource) :
  nonzero_on caps RESOURCE_KEYS -> nonzero_on caps order.
Proof.
  intros H. apply Forall_forall. intros k _. revert k. by apply forall_resource.
Qed.

Lemma crit_order_nonzero (l : list Inst) (caps : Vec) :
  nonzero_on caps RESOURCE_KEYS -> exists order0, Script1.crit_order l caps = Ok order0.
Proof.
  intros H. unfold Script1.crit_order.
  set (total := tabulate _).
  rewrite (traverse_pure _ (fun k => (get total k / get caps k, k))).
  - simpl. eauto.
  - eapply Forall_impl; [exact H|]. intros k Hk. simpl. by rewrite py_div_nonzero.
Qed.

Lemma crit_order_zero (l : list Inst) (caps : Vec) (k : Resource) :
  get caps k == 0 -> Script1.crit_order l caps = Raise ZeroDivisionError.
Proof.
  intros Hk. unfold Script1.crit_order.
  set (total := tabulate _).
  destruct (traverse _ RESOURCE_KEYS) as [criticity|[]] eqn:H; [|done].
  apply traverse_Ok in H.
  assert (Hall : Forall (fun k => ~ get caps k == 0) RESOURCE_KEYS).
  { clear Hk. induction H as [|k' p keys ps Hp _ IH]; constructor; [|done].
    simpl in Hp. destruct (py_div _ _) as [c|] eqn:Hc; [|discriminate].
    by apply py_div_Ok in Hc as [_ Hc]. }
  apply forall_resource with (k := k) in Hall. contradiction.
Qed.

Lemma foldM_search_total (l : list Inst) (caps : Vec) (orders : list (list Resource))
    (acc : option (list Server)) :
  nonzero_on caps RESOURCE_KEYS ->
  (orders <> [] \/ is_Some acc) ->
  exists best,
    foldM (fun best order => plan ← Script1.ffd l caps order;
                             Ok (Script1.consider caps best plan)) orders acc
    = Ok (Some best).
Proof.
  intros Hnz. revert acc. induction orders as [|order orders IH]; intros acc Hacc; simpl.
  - destruct Hacc as [|[b ->]]; [done | eauto].
  - rewrite ffd_nonzero by by apply nonzero_on_any. simpl.
    apply IH. right.
    destruct (consider_cases caps acc
                (pack Script1.can_host caps (sort_by tuple_lt (key caps order) l)))
      as [-> | (b & _ & ->)]; eauto.
Qed.

Lemma best_plan_total (l : list Inst) (caps : Vec) (g : Rng) :
  nonzero_on caps RESOURCE_KEYS ->
  exists best, fst (Script1.best_plan l caps g) = Ok (Some best).
Proof.
  intros Hnz. rewrite best_plan_fst.
  destruct (crit_order_nonzero l caps Hnz) as [order0 ->]. simpl.
  destruct (candidates_fst order0 g) as [sampled ->].
  apply foldM_search_total; [done | by left].
Qed.

(** C7, the claim as stated fails: with a negative CPU capacity and a
    replica of positive CPU demand nothing is rejected, and a plan is
    returned. *)
Lemma negative_capacity_accepted :
  get capsNeg CPU < 0 /\ 0 < get (demand svcA) CPU /\
  fst (Script1.best_plan [svcA] capsNeg rng0) = Ok (Some planNeg).
Proof. split; [done|]. split; [done|]. by vm_compute. Qed.

(** C7, amended.  [best_plan] fails exactly when some capacity is zero,
    whatever the demands: the quotient of the criticity raises
    [ZeroDivisionError] before any sampling and any packing, and the
    generator is left untouched.  With no zero capacity, negative ones
    included, a plan is returned. *)
Theorem best_plan_zero_capacity (l : list Inst) (caps : Vec) (g : Rng) :
  ((exists k, get caps k == 0) <->
   Script1.best_plan l caps g = (Raise ZeroDivisionError, g)) /\
  ((forall k, ~ get caps k == 0) <->
   exists best, fst (Script1.best_plan l caps g) = Ok (Some best)).
Proof.
  assert (Hzero : (exists k, get caps k == 0) ->
                  Script1.best_plan l caps g = (Raise ZeroDivisionError, g)).
  { intros [k Hk]. unfold Script1.best_plan. by rewrite (crit_order_zero l caps k Hk). }
  assert (Hnz : (forall k, ~ get caps k == 0) ->
                exists best, fst (Script1.best_plan l caps g) = Ok (Some best)).
  { intros H. apply best_plan_total.
    by apply (forall_resource (fun k => ~ get caps k == 0)). }
  assert (Hdec : (exists k, get caps k == 0) \/ (forall k, ~ get caps k == 0)).
  { destruct (decide (Exists (fun k => get caps k == 0) RESOURCE_KEYS)) as [H|H].
    - left. apply Exists_exists in H as (k & _ & Hk). eauto.
    - right. apply not_Exists_Forall in H; [|intros k; apply Qeq_dec].
      by apply (forall_resource (fun k => ~ get caps k == 0)). }
  split; split; [done | | done |].
  - intros H. destruct Hdec as [|Hall]; [done|].
    destruct (Hnz Hall) as [best Hbest]. rewrite H in Hbest. discriminate.
  - intros [best Hbest] k Hk.
    rewrite Hzero in Hbest by eauto. discriminate.
Qed.

(** ** A replica larger than a server *)

Section Oversized.

Variable can_host : Server -> Inst -> Vec -> bool.
Hypothesis can_host_true : forall server inst caps,
  can_host server inst caps = true <->
  (Servicio inst ∉ services server) /\ room server inst caps.

Variable caps : Vec.
Variable r : Inst.
Variable k0 : Resource.
Hypothesis r_oversized : get caps k0 < get (demand r) k0.

Lemma pack_from_nonneg_usage (l : list Inst) (servers : list Server) :
  Forall nonneg_demand l -> Forall nonneg_usage servers ->
  Forall nonneg_usage (fold_left (assign can_host caps) l servers).
Proof.
  apply pack_from_Forall.
  - intros s inst Hi Hs _ k. rewrite usage_host.
    specialize (Hi k). specialize (Hs k). lra.
  - intros ss inst Hi k. rewrite usage_new_server. apply Hi.
Qed.

(** No server with a non-negative usage admits the replica. *)
Lemma oversized_not_hosted (servers : list Server) :
  Forall nonneg_usage servers ->
  first_fit can_host servers r caps = None.
Proof.
  intros H. apply first_fit_None. eapply Forall_impl; [exact H|].
  intros s Hs. apply not_true_is_false. intros Hc.
  apply can_host_true in Hc as [_ Hc].
  specialize (Hc k0). specialize (Hs k0). lra.
Qed.

Lemma assign_oversized (servers : list Server) :
  Forall nonneg_usage servers ->
  Exists (alone_on caps r k0) (assign can_host caps servers r).
Proof.
  intros H. unfold assign. rewrite oversized_not_hosted by done.
  apply Exists_app. right. constructor. split; [done|].
  by rewrite usage_new_server.
Qed.

(** Such a server admits nothing more. *)
Lemma assign_keeps_alone (servers : list Server) (inst : Inst) :
  nonneg_demand inst ->
  Exists (alone_on caps r k0) servers -> Exists (alone_on caps r k0) (assign can_host caps servers inst).
Proof.
  intros Hi H. unfold assign.
  destruct (first_fit can_host servers inst caps) as [servers'|] eqn:Hff.
  - apply first_fit_Some in Hff as (before & s & after & -> & -> & Hs & _).
    apply Exists_app in H as [H|H]; [apply Exists_app; by left|].
    apply Exists_app. right.
    apply Exists_cons in H as [[_ Hover]|H]; [|by apply Exists_cons_tl].
    exfalso. apply can_host_true in Hs as [_ Hs].
    specialize (Hs k0). specialize (Hi k0). lra.
  - apply Exists_app. by left.
Qed.

Lemma pack_from_keeps_alone (l : list Inst) (servers : list Server) :
  Forall nonneg_demand l ->
  Exists (alone_on caps r k0) servers ->
  Exists (alone_on caps r k0) (fold_left (assign can_host caps) l servers).
Proof.
  intros Hl. revert servers. induction Hl as [|inst l Hi _ IH]; intros servers H; simpl.
  - done.
  - apply IH. by apply assign_keeps_alone.
Qed.

Lemma pack_oversized_alone (l : list Inst) :
  Forall nonneg_demand l -> r ∈ l ->
  Exists (alone_on caps r k0) (pack can_host caps l).
Proof.
  intros Hl Hr. apply list_elem_of_split in Hr as (l1 & l2 & ->).
  apply Forall_app in Hl as [Hl1 Hl2]. inversion Hl2; subst.
  unfold pack. rewrite fold_left_app. simpl.
  apply pack_from_keeps_alone; [done|].
  apply assign_oversized. by apply pack_from_nonneg_usage.
Qed.

End Oversized.

(** C3, the claim as stated fails: on scenario C (a CPU demand of 3
    against a CPU capacity of 2) neither packer nor the optimizer
    raises; each returns the plan of one server that hosts the replica. *)
Lemma unplaceable_replica_packed :
  get capsA CPU < get (demand svcC) CPU /\
  Script1.ffd [svcC] capsA RESOURCE_KEYS = Ok planC /\
  Script.first_fit_decreasing [svcC] capsA = planC /\
  fst (Script1.best_plan [svcC] capsA rng0) = Ok (Some planC).
Proof. repeat split; by vm_compute. Qed.

(** C3, amended.  When the demand of a replica exceeds the capacity for
    some resource key, the demands being non-negative and no capacity
    zero, nothing fails: [ffd] under every ordering,
    [first_fit_decreasing] and [best_plan] each return a plan, and in it
    the replica is alone on a server whose usage for that key exceeds
    the capacity. *)
Theorem oversized_replica_alone (l : list Inst) (caps : Vec) (r : Inst) (k : Resource) :
  (forall k', ~ get caps k' == 0) ->
  Forall nonneg_demand l ->
  r ∈ l ->
  get caps k < get (demand r) k ->
  (forall order, exists plan,
     Script1.ffd l caps order = Ok plan /\ Exists (alone_on caps r k) plan) /\
  Exists (alone_on caps r k) (Script.first_fit_decreasing l caps) /\
  (forall g, exists plan,
     fst (Script1.best_plan l caps g) = Ok (Some plan) /\
     Exists (alone_on caps r k) plan).
Proof.
  intros Hnz Hl Hr Hover.
  apply (forall_resource (fun k => ~ get caps k == 0)) in Hnz.
  assert (Hffd : forall order plan,
            Script1.ffd l caps order = Ok plan -> Exists (alone_on caps r k) plan).
  { intros order plan ->%ffd_Ok.
    apply (pack_oversized_alone _ can_host1_true); [done | |].
    - by rewrite sort_by_perm.
    - by rewrite sort_by_perm. }
  split; [|split].
  - intros order. eexists. split; [by apply ffd_nonzero, nonzero_on_any|].
    eapply Hffd. by apply ffd_nonzero, nonzero_on_any.
  - rewrite first_fit_decreasing_sort_by.
    apply (pack_oversized_alone _ can_host0_true); [done | |].
    + by rewrite sort_by_perm.
    + by rewrite sort_by_perm.
  - intros g. destruct (best_plan_total l caps g Hnz) as [best Hbest].
    exists best. split; [done|]. revert Hbest. by apply best_plan_invariant.
Qed.

Lemma oversized_replica_alone_witness :
  (forall k', ~ get capsA k' == 0) /\
  Forall nonneg_demand [svcC] /\
  svcC ∈ [svcC] /\
  get capsA CPU < get (demand svcC) CPU /\
  (forall order, exists plan,
     Script1.ffd [svcC] capsA order = Ok plan /\ Exists (alone_on capsA svcC CPU) plan) /\
  Exists (alone_on capsA svcC CPU) (Script.first_fit_decreasing [svcC] capsA) /\
  (forall g, exists plan,
     fst (Script1.best_plan [svcC] capsA g) = Ok (Some plan) /\
     Exists (alone_on capsA svcC CPU) plan).
Proof.
  assert (H1 : forall k', ~ get capsA k' == 0) by q_le.
  assert (H2 : Forall nonneg_demand [svcC]) by (repeat constructor; q_le).
  assert (H3 : svcC ∈ [svcC]) by apply list_elem_of_here.
  assert (H4 : get capsA CPU < get (demand svcC) CPU) by reflexivity.
  exact (conj H1 (conj H2 (conj H3 (conj H4
           (oversized_replica_alone [svcC] capsA svcC CPU H1 H2 H3 H4))))).
Defined.

(** ** The sort of [ffd] *)

Lemma StronglySorted_impl {A : Type} (R1 R2 : A -> A -> Prop) (l : list A) :
  (forall a b, R1 a b -> R2 a b) -> StronglySorted R1 l -> StronglySorted R2 l.
Proof.
  intros HR. induction 1 as [|x l _ IH Hx]; constructor; [done|].
  eapply Forall_impl; [exact Hx|]. auto.
Qed.

(** On this input the sort moves [svcC] to the front and keeps [svcA]
    before [svcB], whose keys are equal. *)
Example instances_sorted_example :
  Script1.instances_sorted [svcA; svcC; svcB] capsA RESOURCE_KEYS = Ok [svcC; svcA; svcB].
Proof. by vm_compute. Qed.

(** ** The sample of orderings *)

Lemma same_draws_next (n : nat) (g1 g2 : Rng) :
  same_draws (S n) g1 g2 ->
  tape g1 (cursor g1) = tape g2 (cursor g2) /\
  same_draws n (mkRng (tape g1) (S (cursor g1))) (mkRng (tape g2) (S (cursor g2))).
Proof.
  intros H. split.
  - specialize (H O). rewrite !Nat.add_0_r in H. apply H. lia.
  - intros i Hi. simpl. specialize (H (S i)).
    rewrite !Nat.add_succ_r in H. apply H. lia.
Qed.

(** The sample depends on the generator through its next [k] draws only. *)
Lemma sample_pool_same_draws {A : Type} (k m : nat) (pool : list A) (g1 g2 : Rng) :
  same_draws k g1 g2 ->
  fst (sample_pool k m pool g1) = fst (sample_pool k m pool g2).
Proof.
  revert m pool g1 g2. induction k as [|k IH]; intros m pool g1 g2 H; [done|].
  destruct (same_draws_next k g1 g2 H) as [Hj Hnext].
  cbn [sample_pool]. unfold randbelow. rewrite Hj.
  destruct (pool !! (tape g2 (cursor g2) mod m)) as [x|]; [|done].
  destruct (pool !! (m - 1)%nat) as [y|]; [|done].
  specialize (IH (m - 1)%nat (<[tape g2 (cursor g2) mod m:=y]> pool) _ _ Hnext).
  destruct (sample_pool k (m - 1) _ (mkRng (tape g1) _)) as [r1 g1''].
  destruct (sample_pool k (m - 1) _ (mkRng (tape g2) _)) as [r2 g2''].
  simpl in IH. by subst r2.
Qed.

Lemma candidates_same_draws (order0 : list Resource) (g1 g2 : Rng) :
  same_draws 100 g1 g2 ->
  fst (Script1.candidates order0 g1) = fst (Script1.candidates order0 g2).
Proof.
  intros H. unfold Script1.candidates, random_sample.
  pose proof (sample_pool_same_draws 100 (length (itertools_permutations RESOURCE_KEYS))
                (itertools_permutations RESOURCE_KEYS) g1 g2 H) as Hs.
  change (Nat.min 100 (fact (length RESOURCE_KEYS))) with 100%nat.
  destruct (sample_pool 100 _ _ g1) as [s1 g1'].
  destruct (sample_pool 100 _ _ g2) as [s2 g2'].
  simpl in Hs. by subst s2.
Qed.

(** Every sampled element is an element of the population. *)
Lemma sample_pool_elem_of {A : Type} (k m : nat) (pool : list A) (g : Rng) (x : A) :
  x ∈ fst (sample_pool k m pool g) -> x ∈ pool.
Proof.
  revert m pool g. induction k as [|k IH]; intros m pool g.
  - by intros ?%elem_of_nil.
  - cbn [sample_pool]. unfold randbelow.
    set (j := (tape g (cursor g) mod m)%nat). set (g1 := mkRng _ _).
    destruct (pool !! j) as [a|] eqn:Ha; [|by intros ?%elem_of_nil].
    destruct (pool !! (m - 1)%nat) as [y|] eqn:Hy; [|by intros ?%elem_of_nil].
    specialize (IH (m - 1)%nat (<[j:=y]> pool) g1).
    destruct (sample_pool k (m - 1) (<[j:=y]> pool) g1) as [r g2]. simpl in *.
    intros [->|Hx]%elem_of_cons.
    + by eapply list_elem_of_lookup_2.
    + apply IH in Hx. apply list_elem_of_lookup_1 in Hx as [i Hi].
      apply list_lookup_insert_Some in Hi as [(_ & <- & _)|[_ Hi]];
        by eapply list_elem_of_lookup_2.
Qed.

Lemma candidates_elem_of (order0 : list Resource) (g : Rng) (order : list Resource) :
  order ∈ fst (Script1.candidates order0 g) ->
  order = order0 \/ order ∈ itertools_permutations RESOURCE_KEYS.
Proof.
  unfold Script1.candidates, random_sample.
  pose proof (sample_pool_elem_of (Nat.min 100 (fact (length RESOURCE_KEYS)))
                (length (itertools_permutations RESOURCE_KEYS))
                (itertools_permutations RESOURCE_KEYS) g order) as Hs.
  destruct (sample_pool _ _ _ g) as [s g']. simpl in *.
  intros [->|Hx]%elem_of_cons; auto.
Qed.

(** ** Appending a replica *)






(** The same holds from every state of the generator: whatever the
    orderings sampled, each of them packs the five replicas on three
    servers and the six on two. *)
Lemma every_seed_saves_server (g : Rng) :
  server_count (fst (Script1.best_plan five caps6 g)) = Some 3%nat /\
  server_count (fst (Script1.best_plan (five ++ [sixth]) caps6 g)) = Some 2%nat.
Proof.
  assert (Hnz : nonzero_on caps6 RESOURCE_KEYS)
    by (repeat constructor; vm_compute; discriminate).
  assert (Hall : forall (l : list Inst) (n : nat) (order0 : list Resource),
            Script1.crit_order l caps6 = Ok order0 ->
            forallb (fun order => match Script1.ffd l caps6 order with
                                  | Ok p => (length p =? n)%nat
                                  | Raise _ => false
                                  end)
                    (order0 :: itertools_permutations RESOURCE_KEYS) = true ->
            server_count (fst (Script1.best_plan l caps6 g)) = Some n).
  { intros l n order0 Hc Hb.
    destruct (best_plan_total l caps6 g Hnz) as [best Hbest].
    rewrite Hbest. simpl. f_equal.
    rewrite best_plan_fst, Hc in Hbest. simpl in Hbest.
    revert Hbest. apply (search_invariant_on (fun p => length p = n)).
    intros order p Ho Hp.
    rewrite forallb_forall in Hb. specialize (Hb order).
    rewrite Hp in Hb. apply Nat.eqb_eq, Hb, list_elem_of_In.
    apply candidates_elem_of in Ho as [->|Ho]; [apply list_elem_of_here|].
    by apply list_elem_of_further. }
  split.
  - apply Hall with [CPU; Memoria; Red; Disco_IO; Almacenamiento]; by vm_compute.
  - apply Hall with [CPU; Memoria; Red; Disco_IO; Almacenamiento]; by vm_compute.
Qed.



(** ** Keys that compare alike sort alike *)

Lemma sort_by_ext {K1 K2 A : Type} (lt1 : K1 -> K1 -> bool) (lt2 : K2 -> K2 -> bool)
    (key1 : A -> K1) (key2 : A -> K2) (l : list A) :
  (forall x y, lt1 (key1 x) (key1 y) = lt2 (key2 x) (key2 y)) ->
  sort_by lt1 key1 l = sort_by lt2 key2 l.
Proof.
  intros H. induction l as [|x l IH]; [done|].
  change (insert_by lt1 key1 x (sort_by lt1 key1 l) =
          insert_by lt2 key2 x (sort_by lt2 key2 l)).
  rewrite IH. generalize (sort_by lt2 key2 l).
  intros m. induction m as [|y m IHm]; simpl; [done|].
  by rewrite H, IHm.
Qed.

(** ** The scenarios of the specification *)

(** Scenario A: two services that fit together share one server. *)
Example scenario_A :
  fst (Script1.best_plan [svcA; svcB] capsA rng0) = Ok (Some planA) /\
  Script.first_fit_decreasing [svcA; svcB] capsA = planA.
Proof. split; by vm_compute. Qed.

(** Scenario B: two replicas of one service take two servers. *)
Example scenario_B :
  fst (Script1.best_plan [svcA; svcA] capsA rng0) = Ok (Some planB) /\
  Script.first_fit_decreasing [svcA; svcA] capsA = planB.
Proof. split; by vm_compute. Qed.

(** No replica: no server, provided no capacity is zero. *)
Example empty_list :
  fst (Script1.best_plan [] capsA rng0) = Ok (Some []) /\
  Script1.ffd [] (vec 0 0 0 0 0) RESOURCE_KEYS = Ok [] /\
  fst (Script1.best_plan [] (vec 0 4 100 50 200) rng0) = Raise ZeroDivisionError.
Proof. repeat split; by vm_compute. Qed.

(** * Further properties of the code *)

(** ** The shape of a plan *)

Lemma append_nil_l (s : string) : "" +:+ s = s.
Proof. reflexivity. Qed.

Lemma server_name_inj (n m : nat) : server_name n = server_name m -> n = m.
Proof.
  unfold server_name. intros H. injection H as H.
  rewrite !append_nil_l in H.
  apply Unsigned.to_uint_inj.
  apply (f_equal NilEmpty.uint_of_string) in H.
  rewrite !NilEmpty.usu in H. by injection H.
Qed.

Section PackShape.

Variable can_host : Server -> Inst -> Vec -> bool.
Variable caps : Vec.

Lemma assign_numbered (servers : list Server) (inst : Inst) :
  numbered servers -> numbered (assign can_host caps servers inst).
Proof.
  unfold numbered, assign. intros H.
  destruct (first_fit can_host servers inst caps) as [servers'|] eqn:Hff.
  - apply first_fit_Some in Hff as (before & s & after & -> & -> & _ & _).
    rewrite !fmap_app, !fmap_cons, !length_app in *. simpl in *. exact H.
  - rewrite fmap_app, length_app, H. simpl.
    replace (length servers + 1)%nat with (S (length servers)) by lia.
    rewrite seq_S, fmap_app. done.
Qed.

Lemma pack_numbered (l : list Inst) : numbered (pack can_host caps l).
Proof.
  unfold pack. assert (H : numbered []) by done. revert H. generalize (@nil Server).
  induction l as [|inst l IH]; intros servers H; simpl; [done|].
  by apply IH, assign_numbered.
Qed.

(** No server is empty. *)
Lemma pack_inhabited (l : list Inst) :
  Forall (fun s => instances s <> []) (pack can_host caps l).
Proof.
  apply pack_Forall with (Q0 := fun _ => True).
  - intros s inst _ _ _. simpl. intros H%app_eq_nil. by destruct H.
  - by intros ss inst _.
  - by apply Forall_forall.
Qed.

End PackShape.

Lemma length_hosted_ge (servers : list Server) :
  Forall (fun s => instances s <> []) servers ->
  (length servers <= length (hosted servers))%nat.
Proof.
  unfold hosted. induction 1 as [|s servers Hs _ IH]; [done|].
  rewrite fmap_cons. cbn [concat]. rewrite length_app.
  destruct (instances s); [done|]. cbn [length]. lia.
Qed.

(** What every packing run keeps, whichever the packer. *)
Lemma packing_run_invariant (P : list Server -> Prop) (l : list Inst) (caps : Vec)
    (plan : list Server) :
  (forall can_host sorted,
     (forall server inst caps, can_host server inst caps = true <->
        (Servicio inst ∉ services server) /\ room server inst caps) ->
     sorted ≡ₚ l -> P (pack can_host caps sorted)) ->
  packing_run l caps plan -> P plan.
Proof.
  intros HP [<- | order H | g H].
  - rewrite first_fit_decreasing_sort_by.
    apply HP; [apply can_host0_true | apply sort_by_perm].
  - apply ffd_Ok in H as ->. apply HP; [apply can_host1_true | apply sort_by_perm].
  - revert H. apply best_plan_invariant. intros order p ->%ffd_Ok.
    apply HP; [apply can_host1_true | apply sort_by_perm].
Qed.

(** X1.  In the plan of every packing run the servers are named S1, S2,
    ... in the order of the list: the names are pairwise distinct. *)
Theorem plan_names (l : list Inst) (caps : Vec) (plan : list Server) :
  packing_run l caps plan ->
  name <$> plan = server_name <$> seq 1 (length plan) /\
  NoDup (name <$> plan).
Proof.
  intros Hrun.
  assert (H : name <$> plan = server_name <$> seq 1 (length plan)).
  { revert Hrun. apply (packing_run_invariant (fun plan => numbered plan)).
    intros can_host sorted _ _. apply pack_numbered. }
  split; [done|]. rewrite H.
  apply NoDup_fmap_2; [intros n m; apply server_name_inj | apply NoDup_ListNoDup, seq_NoDup].
Qed.

Lemma plan_names_witness :
  packing_run [svcA; svcA] capsA planB /\
  name <$> planB = server_name <$> seq 1 (length planB) /\
  NoDup (name <$> planB).
Proof.
  assert (H : packing_run [svcA; svcA] capsA planB)
    by (apply run_ffd with RESOURCE_KEYS; vm_compute; reflexivity).
  exact (conj H (plan_names _ _ _ H)).
Defined.

(** X3.  In the plan of every packing run every server hosts at least
    one instance; the plan has no more servers than the input has
    replicas, and it is empty exactly when the input is. *)
Theorem plan_size (l : list Inst) (caps : Vec) (plan : list Server) :
  packing_run l caps plan ->
  Forall (fun s => instances s <> []) plan /\
  (length plan <= length l)%nat /\
  (plan = [] <-> l = []).
Proof.
  intros Hrun.
  assert (H : Forall (fun s => instances s <> []) plan /\ hosted plan ≡ₚ l).
  { revert Hrun.
    apply (packing_run_invariant
             (fun plan => Forall (fun s => instances s <> []) plan /\ hosted plan ≡ₚ l)).
    intros can_host sorted _ Hs. split; [apply pack_inhabited|].
    by rewrite pack_hosted. }
  destruct H as [Hne Hperm]. split; [done|].
  pose proof (length_hosted_ge plan Hne) as Hlen.
  rewrite Hperm in Hlen. split; [done|]. split.
  - intros ->. unfold hosted in Hperm. simpl in Hperm.
    by apply Permutation_nil_l in Hperm.
  - intros ->. simpl in Hlen. destruct plan; [done | simpl in Hlen; lia].
Qed.

Lemma plan_size_witness :
  packing_run [svcA; svcB] capsA planA /\
  Forall (fun s => instances s <> []) planA /\
  (length planA <= length [svcA; svcB])%nat /\
  (planA = [] <-> [svcA; svcB] = []).
Proof.
  assert (H : packing_run [svcA; svcB] capsA planA)
    by (apply run_best_plan with rng0; vm_compute; reflexivity).
  exact (conj H (plan_size _ _ _ H)).
Defined.

(** ** Anti-affinity as a lower bound *)

Lemma replicas_of_absent (service : string) (l : list Inst) :
  service ∉ Servicio <$> l -> replicas_of service l = O.
Proof.
  unfold replicas_of. induction l as [|x l IH]; [done|].
  rewrite fmap_cons, not_elem_of_cons. intros [Hx Hl].
  rewrite filter_cons_False by done. by apply IH.
Qed.

Lemma replicas_of_NoDup (service : string) (l : list Inst) :
  NoDup (Servicio <$> l) -> (replicas_of service l <= 1)%nat.
Proof.
  induction l as [|x l IH]; [unfold replicas_of; simpl; lia|].
  rewrite fmap_cons, NoDup_cons. intros [Hx Hl].
  unfold replicas_of in *. rewrite filter_cons.
  destruct (decide (Servicio x = service)) as [<-|Hne]; [|by apply IH].
  pose proof (replicas_of_absent (Servicio x) l Hx) as H0.
  unfold replicas_of in H0. cbn [length]. lia.
Qed.

Lemma replicas_of_hosted (service : string) (servers : list Server) :
  Forall anti_affine servers ->
  (replicas_of service (hosted servers) <= length servers)%nat.
Proof.
  unfold hosted. induction 1 as [|s servers [_ Hs] _ IH]; [done|].
  rewrite fmap_cons. cbn [concat]. unfold replicas_of in *.
  rewrite filter_app, length_app.
  pose proof (replicas_of_NoDup service (instances s) Hs) as H1.
  unfold replicas_of in H1. cbn [length]. lia.
Qed.

(** X4.  In the plan of every packing run there are at least as many
    servers as the input has replicas of any one service. *)
Theorem servers_per_service (l : list Inst) (caps : Vec) (plan : list Server)
    (service : string) :
  packing_run l caps plan ->
  (replicas_of service l <= length plan)%nat.
Proof.
  intros Hrun.
  assert (H : Forall anti_affine plan /\ hosted plan ≡ₚ l).
  { revert Hrun.
    apply (packing_run_invariant (fun plan => Forall anti_affine plan /\ hosted plan ≡ₚ l)).
    intros can_host sorted Hc Hs. split; [by apply pack_anti_affine|].
    by rewrite pack_hosted. }
  destruct H as [Ha Hp]. unfold replicas_of. rewrite <- Hp.
  by apply replicas_of_hosted.
Qed.

Lemma servers_per_service_witness :
  packing_run [svcA; svcA] capsA planB /\
  (replicas_of "svcA" [svcA; svcA] <= length planB)%nat.
Proof.
  assert (H : packing_run [svcA; svcA] capsA planB)
    by (apply run_ffd with RESOURCE_KEYS; vm_compute; reflexivity).
  exact (conj H (servers_per_service _ _ _ "svcA" H)).
Defined.

(** ** What first fit leaves behind *)

Section FirstFit.

Variable can_host : Server -> Inst -> Vec -> bool.
Hypothesis can_host_true : forall server inst caps,
  can_host server inst caps = true <->
  (Servicio inst ∉ services server) /\ room server inst caps.

Variable caps : Vec.




End FirstFit.




(** ** The plan the search keeps *)




(** ** When [ffd] raises *)

Lemma traverse_Raise {A B : Type} (f : A -> Result B) (l : list A) (x : A) (e : PyExn) :
  x ∈ l -> f x = Raise e -> traverse f l = Raise ZeroDivisionError.
Proof.
  induction l as [|y l IH]; [by intros ?%elem_of_nil|].
  intros [->|Hx]%elem_of_cons Hfx; simpl.
  - rewrite Hfx. by destruct e.
  - destruct (f y) as [b|[]]; [|done]. simpl. by rewrite IH.
Qed.

(** X8.  [ffd] raises exactly when there is a replica to sort and some
    capacity of the ordering is zero, and what it raises then is
    [ZeroDivisionError]; on the empty list it returns the empty plan
    whatever the capacities. *)
Theorem ffd_raises (l : list Inst) (caps : Vec) (order : list Resource) :
  (Script1.ffd l caps order = Raise ZeroDivisionError <->
   l <> [] /\ Exists (fun k => get caps k == 0) order) /\
  ((l = [] \/ nonzero_on caps order) <->
   exists plan, Script1.ffd l caps order = Ok plan) /\
  Script1.ffd [] caps order = Ok [].
Proof.
  assert (Hraise : l <> [] -> Exists (fun k => get caps k == 0) order ->
                   Script1.ffd l caps order = Raise ZeroDivisionError).
  { intros Hl (k & Hk & Hz)%Exists_exists. destruct l as [|x l]; [done|].
    unfold Script1.ffd, Script1.instances_sorted.
    assert (Hx : Script1.sort_key caps order x = Raise ZeroDivisionError).
    { unfold Script1.sort_key. eapply traverse_Raise; [exact Hk|]. by apply py_div_zero. }
    rewrite (traverse_Raise _ (x :: l) x ZeroDivisionError); [done | apply list_elem_of_here|].
    by rewrite Hx. }
  assert (Hok : l = [] \/ nonzero_on caps order ->
                exists plan, Script1.ffd l caps order = Ok plan).
  { intros [->|Hnz]; [by exists [] | rewrite ffd_nonzero by done; eauto]. }
  assert (Hdec : (l = [] \/ nonzero_on caps order) \/
                 (l <> [] /\ Exists (fun k => get caps k == 0) order)).
  { destruct l as [|x l]; [left; by left|].
    destruct (decide (Exists (fun k => get caps k == 0) order)) as [H|H].
    - right. by split.
    - left. right. apply not_Exists_Forall in H; [done | intros k; apply Qeq_dec]. }
  split; [|split; [|done]].
  - split; [|intros []; by apply Hraise].
    intros H. destruct Hdec as [Hd|]; [|done].
    destruct (Hok Hd) as [plan Hplan]. rewrite H in Hplan. discriminate.
  - split; [done|]. intros [plan Hplan].
    destruct Hdec as [|[Hl He]]; [done|].
    rewrite (Hraise Hl He) in Hplan. discriminate.
Qed.

(** ** The critical ordering *)

Lemma criticity_items (total caps : Vec) (keys : list Resource) (crit : list (Q * Resource)) :
  traverse (fun k => c ← py_div (get total k) (get caps k); Ok (c, k)) keys = Ok crit ->
  crit = map (fun k => (get total k / get caps k, k)) keys.
Proof.
  intros H. apply traverse_Ok in H.
  induction H as [|k p keys crit Hp _ IH]; simpl; [done|].
  rewrite IH. f_equal.
  destruct (py_div (get total k) (get caps k)) as [c|] eqn:Hc; [|discriminate].
  simpl in Hp. injection Hp as <-. by apply py_div_Ok in Hc as [-> _].
Qed.

Lemma crit_order_Ok (l : list Inst) (caps : Vec) (order0 : list Resource) :
  Script1.crit_order l caps = Ok order0 ->
  order0 = sort_by Qlt_bool (criticity caps l) RESOURCE_KEYS.
Proof.
  unfold Script1.crit_order.
  set (total := tabulate _).
  destruct (traverse _ RESOURCE_KEYS) as [crit|] eqn:H; [|discriminate].
  apply criticity_items in H as ->.
  generalize RESOURCE_KEYS. intros keys.
  cbn [mbind Result_bind]. intros [= <-].
  rewrite (sorted_reverse_sort_by Qlt_bool (fun k => get total k / get caps k) keys).
  apply sort_by_ext. intros x y. unfold criticity, total. by rewrite !get_tabulate.
Qed.

(** ** The sort of [first_fit_decreasing] *)

Lemma length_sort_key0 (x : Inst) : length (Script.sort_key x) = 3%nat.
Proof. done. Qed.

(** X12.  [first_fit_decreasing] runs its placement loop on the
    replicas sorted by the tuple (CPU, Red, Memoria) of their demands,
    whatever the capacities: the sorted list is a permutation of the
    input, no replica is followed by one of a lexicographically greater
    tuple, and the replicas of one tuple keep the order they have in
    the input. *)
Theorem first_fit_decreasing_sorts (l : list Inst) (caps : Vec) :
  exists sorted,
    Script.instances_sorted l = sorted /\
    Script.first_fit_decreasing l caps = pack Script.can_host caps sorted /\
    sorted ≡ₚ l /\
    StronglySorted (fun a b => lex_le (Script.sort_key b) (Script.sort_key a)) sorted /\
    forall x, filter (fun y => tuple_eq (Script.sort_key y) (Script.sort_key x)) sorted =
              filter (fun y => tuple_eq (Script.sort_key y) (Script.sort_key x)) l.
Proof.
  exists (sort_by tuple_lt Script.sort_key l).
  split; [apply sorted_reverse_sort_by|].
  split; [apply first_fit_decreasing_sort_by|].
  split; [apply sort_by_perm|].
  split.
  - eapply StronglySorted_impl;
      [|apply (sort_by_decreasing tuple_lt Script.sort_key tuple_lt_asym tuple_ge_trans)].
    intros a b Hab. simpl in Hab. by apply tuple_ge_lex_le.
  - intros x.
    assert (Htie : forall y, tie tuple_lt Script.sort_key (Script.sort_key x) y <->
                             tuple_eq (Script.sort_key y) (Script.sort_key x)).
    { intros y. unfold tie. by apply tuple_tie_eq. }
    rewrite <- (list_filter_iff _ _ _ Htie).
    rewrite <- (list_filter_iff _ _ l Htie).
    apply (sort_by_stable tuple_lt Script.sort_key tuple_ge_trans).
Qed.

(** ** Sampling without replacement *)

(** Drawing the element at [j] and moving the last candidate into its
    place leaves the other candidates. *)
Lemma pool_step {A : Type} (pool : list A) (m j : nat) (x y : A) :
  (j < S m)%nat -> pool !! j = Some x -> pool !! m = Some y ->
  take (S m) pool ≡ₚ x :: take m (<[j:=y]> pool).
Proof.
  intros Hj Hx Hy. rewrite (take_S_r pool m y Hy).
  destruct (decide (j = m)) as [->|Hne].
  - rewrite take_insert_ge by lia. rewrite Hx in Hy. injection Hy as ->.
    by rewrite Permutation_app_comm.
  - assert (Hjm : (j < m)%nat) by lia.
    rewrite take_insert_lt by done.
    assert (Ht : take m pool !! j = Some x) by by rewrite lookup_take_lt.
    assert (Hlen : (j < length (take m pool))%nat) by by eapply lookup_lt_Some.
    rewrite insert_take_drop by done.
    rewrite <- (take_drop_middle (take m pool) j x Ht) at 1.
    generalize (take j (take m pool)), (drop (S j) (take m pool)). intros t1 t2.
    rewrite <- app_assoc. simpl.
    rewrite <- !Permutation_middle. constructor.
    by rewrite app_nil_r.
Qed.

Lemma sample_pool_spec {A : Type} (k m : nat) (pool : list A) (g : Rng) :
  (k <= m)%nat -> (m <= length pool)%nat ->
  length (fst (sample_pool k m pool g)) = k /\
  (exists rest, fst (sample_pool k m pool g) ++ rest ≡ₚ take m pool) /\
  snd (sample_pool k m pool g) = mkRng (tape g) (cursor g + k).
Proof.
  revert m pool g. induction k as [|k IH]; intros m pool g Hk Hm.
  - simpl. split; [done|]. split; [by exists (take m pool)|].
    rewrite Nat.add_0_r. by destruct g.
  - destruct m as [|m]; [lia|].
    cbn [sample_pool]. unfold randbelow.
    set (j := (tape g (cursor g) mod S m)%nat).
    assert (Hj : (j < S m)%nat) by (apply Nat.mod_upper_bound; lia).
    destruct (lookup_lt_is_Some_2 pool j) as [x Hx]; [lia|].
    destruct (lookup_lt_is_Some_2 pool m) as [y Hy]; [lia|].
    replace (S m - 1)%nat with m by lia. rewrite Hx, Hy.
    specialize (IH m (<[j:=y]> pool) (mkRng (tape g) (S (cursor g)))).
    destruct (sample_pool k m (<[j:=y]> pool) _) as [r g2].
    rewrite length_insert in IH.
    destruct IH as (Hlen & [rest Hrest] & Hg); [lia | lia |].
    simpl in *. split; [by rewrite Hlen|]. split.
    + exists rest. rewrite (pool_step pool m j x y Hj Hx Hy). by constructor.
    + rewrite Hg. f_equal. lia.
Qed.

Lemma random_sample_spec {A : Type} (population : list A) (k : nat) (g : Rng) :
  (k <= length population)%nat -> NoDup population ->
  length (fst (random_sample population k g)) = k /\
  NoDup (fst (random_sample population k g)) /\
  snd (random_sample population k g) = mkRng (tape g) (cursor g + k).
Proof.
  intros Hk Hnd. unfold random_sample.
  destruct (sample_pool_spec k (length population) population g Hk (le_n _))
    as (Hlen & [rest Hrest] & Hg).
  split; [done|]. split; [|done].
  rewrite take_ge in Hrest by done. rewrite <- Hrest in Hnd.
  by apply NoDup_app in Hnd as [? _].
Qed.

(** ** The permutations of the resource keys *)

Lemma selections_perm {A : Type} (l : list A) (x : A) (rest : list A) :
  (x, rest) ∈ selections l -> x :: rest ≡ₚ l.
Proof.
  revert x rest. induction l as [|a l IH]; intros x rest; simpl.
  - by intros ?%elem_of_nil.
  - intros [[= -> ->]|H]%elem_of_cons; [done|].
    apply list_elem_of_fmap in H as ([y r] & [= -> ->] & Hin). simpl.
    rewrite perm_swap. constructor. by apply IH.
Qed.

Lemma selections_fst {A : Type} (l : list A) : fst <$> selections l = l.
Proof.
  induction l as [|a l IH]; simpl; [done|]. f_equal.
  rewrite <- list_fmap_compose. simpl. exact IH.
Qed.

Lemma permutations_of_length_perm {A : Type} (n : nat) (l p : list A) :
  length l = n -> p ∈ permutations_of_length n l -> p ≡ₚ l.
Proof.
  revert l p. induction n as [|n IH]; intros l p Hlen; simpl.
  - intros ->%list_elem_of_singleton. by destruct l.
  - intros H. apply list_elem_of_In, in_flat_map in H as ([x rest] & Hsel & Hp).
    apply list_elem_of_In in Hsel. apply selections_perm in Hsel.
    apply in_map_iff in Hp as (p' & <- & Hp'). simpl in *.
    rewrite <- Hsel. constructor. apply IH; [|by apply list_elem_of_In].
    apply Permutation_length in Hsel. simpl in Hsel. lia.
Qed.

(** Blocks with distinct heads, each without duplicates. *)
Lemma NoDup_heads {A : Type} (f : list A -> list (list A)) (sel : list (A * list A)) :
  NoDup (fst <$> sel) ->
  Forall (fun p => NoDup (f (snd p))) sel ->
  NoDup (flat_map (fun p => map (cons (fst p)) (f (snd p))) sel).
Proof.
  induction sel as [|[x rest] sel IH]; simpl; [constructor|].
  rewrite NoDup_cons. intros [Hx Hsel] Hf. inversion Hf as [|? ? Hrest Hf']; subst.
  apply NoDup_app. split; [|split].
  - by apply (NoDup_fmap_2 (cons x)).
  - intros q Hq Hq'. apply list_elem_of_fmap in Hq as (q1 & -> & _).
    apply list_elem_of_In, in_flat_map in Hq' as ([x' rest'] & Hin & Hq').
    apply in_map_iff in Hq' as (q2 & [= <- _] & _). simpl in *.
    apply Hx. apply list_elem_of_fmap. exists (x', rest').
    split; [done | by apply list_elem_of_In].
  - by apply IH.
Qed.

Lemma permutations_of_length_NoDup {A : Type} (n : nat) (l : list A) :
  length l = n -> NoDup l -> NoDup (permutations_of_length n l).
Proof.
  revert l. induction n as [|n IH]; intros l Hlen Hnd; simpl.
  - apply NoDup_singleton.
  - apply NoDup_heads; [by rewrite selections_fst|].
    apply Forall_forall. intros [x rest] Hsel%selections_perm. simpl.
    apply IH.
    + apply Permutation_length in Hsel. simpl in Hsel. lia.
    + rewrite <- Hsel in Hnd. by apply NoDup_cons in Hnd as [_ ?].
Qed.

Lemma length_flat_map_const {A B : Type} (f : A -> list B) (l : list A) (c : nat) :
  Forall (fun x => length (f x) = c) l -> length (flat_map f l) = (length l * c)%nat.
Proof.
  induction 1 as [|x l Hx _ IH]; simpl; [done|].
  rewrite length_app, Hx, IH. lia.
Qed.

Lemma length_selections {A : Type} (l : list A) : length (selections l) = length l.
Proof. by rewrite <- (selections_fst l) at 2; rewrite length_fmap. Qed.

Lemma length_permutations_of_length {A : Type} (n : nat) (l : list A) :
  length l = n -> length (permutations_of_length n l) = fact n.
Proof.
  revert l. induction n as [|n IH]; intros l Hlen; simpl; [done|].
  rewrite (length_flat_map_const _ _ (fact n)).
  - rewrite length_selections, Hlen. lia.
  - apply Forall_forall. intros [x rest] Hsel%selections_perm. simpl.
    rewrite length_map. apply IH.
    apply Permutation_length in Hsel. simpl in Hsel. lia.
Qed.

(** X10.  [best_plan] tries 101 orderings: the critical one, then 100
    pairwise distinct orderings drawn among the 120 permutations of the
    resource keys; every ordering tried is a permutation of the five
    keys. *)
Theorem orderings_tried (l : list Inst) (caps : Vec) (order0 : list Resource) (g : Rng) :
  Script1.crit_order l caps = Ok order0 ->
  length (itertools_permutations RESOURCE_KEYS) = 120%nat /\
  NoDup (itertools_permutations RESOURCE_KEYS) /\
  exists sampled,
    fst (Script1.candidates order0 g) = order0 :: sampled /\
    length sampled = 100%nat /\
    NoDup sampled /\
    Forall (fun order => order ∈ itertools_permutations RESOURCE_KEYS) sampled /\
    Forall (fun order => order ≡ₚ RESOURCE_KEYS) (order0 :: sampled).
Proof.
  intros Hc.
  assert (Hnd : NoDup (itertools_permutations RESOURCE_KEYS)).
  { apply permutations_of_length_NoDup; [done|].
    unfold RESOURCE_KEYS. apply NoDup_ListNoDup. repeat constructor; simpl; intuition discriminate. }
  assert (Hlen : length (itertools_permutations RESOURCE_KEYS) = 120%nat)
    by by unfold itertools_permutations; rewrite length_permutations_of_length.
  split; [done|]. split; [done|].
  unfold Script1.candidates.
  change (Nat.min 100 (fact (length RESOURCE_KEYS))) with 100%nat.
  destruct (random_sample_spec (itertools_permutations RESOURCE_KEYS) 100 g)
    as (Hl & Hs & _); [lia | done |].
  pose proof (sample_pool_elem_of 100 (length (itertools_permutations RESOURCE_KEYS))
                (itertools_permutations RESOURCE_KEYS) g) as Hin.
  unfold random_sample in *.
  destruct (sample_pool 100 _ _ g) as [sampled g']. simpl in *.
  exists sampled. split; [done|]. split; [done|]. split; [done|].
  assert (Hall : Forall (fun order => order ∈ itertools_permutations RESOURCE_KEYS) sampled)
    by (apply Forall_forall; intros o Ho; by apply Hin).
  split; [done|]. constructor.
  - apply crit_order_Ok in Hc as ->. apply sort_by_perm.
  - eapply Forall_impl; [exact Hall|]. intros o Ho.
    by apply (permutations_of_length_perm (length RESOURCE_KEYS)).
Qed.

Lemma orderings_tried_witness :
  Script1.crit_order [svcA; svcB] capsA = Ok [CPU; Memoria; Red; Almacenamiento; Disco_IO] /\
  length (itertools_permutations RESOURCE_KEYS) = 120%nat /\
  NoDup (itertools_permutations RESOURCE_KEYS) /\
  exists sampled,
    fst (Script1.candidates [CPU; Memoria; Red; Almacenamiento; Disco_IO] rng0)
      = [CPU; Memoria; Red; Almacenamiento; Disco_IO] :: sampled /\
    length sampled = 100%nat /\
    NoDup sampled /\
    Forall (fun order => order ∈ itertools_permutations RESOURCE_KEYS) sampled /\
    Forall (fun order => order ≡ₚ RESOURCE_KEYS)
           ([CPU; Memoria; Red; Almacenamiento; Disco_IO] :: sampled).
Proof.
  assert (H : Script1.crit_order [svcA; svcB] capsA
              = Ok [CPU; Memoria; Red; Almacenamiento; Disco_IO])
    by (vm_compute; reflexivity).
  exact (conj H (orderings_tried _ _ _ rng0 H)).
Defined.

(** X11.  With no zero capacity [best_plan] consumes exactly 100 draws
    of the generator, whatever the replicas: a second call in the same
    process continues from there and may sample other orderings. *)
Theorem best_plan_draws (l : list Inst) (caps : Vec) (g : Rng) :
  (forall k, ~ get caps k == 0) ->
  snd (Script1.best_plan l caps g) = mkRng (tape g) (cursor g + 100).
Proof.
  intros Hnz. apply (forall_resource (fun k => ~ get caps k == 0)) in Hnz.
  unfold Script1.best_plan.
  destruct (crit_order_nonzero l caps Hnz) as [order0 ->].
  unfold Script1.candidates.
  change (Nat.min 100 (fact (length RESOURCE_KEYS))) with 100%nat.
  assert (Hlen : length (itertools_permutations RESOURCE_KEYS) = 120%nat)
    by by unfold itertools_permutations; rewrite length_permutations_of_length.
  destruct (sample_pool_spec 100 (length (itertools_permutations RESOURCE_KEYS))
              (itertools_permutations RESOURCE_KEYS) g) as (_ & _ & Hg); [lia | done |].
  unfold random_sample. by destruct (sample_pool 100 _ _ g).
Qed.

Lemma best_plan_draws_witness :
  (forall k, ~ get capsA k == 0) /\
  snd (Script1.best_plan [svcA; svcB] capsA rng0) = mkRng (tape rng0) (cursor rng0 + 100).
Proof.
  assert (H : forall k, ~ get capsA k == 0) by q_le.
  exact (conj H (best_plan_draws [svcA; svcB] capsA rng0 H)).
Defined.

(** ** From the rows to the plan *)

Lemma replicas_of_app (service : string) (l1 l2 : list Inst) :
  replicas_of service (l1 ++ l2) = (replicas_of service l1 + replicas_of service l2)%nat.
Proof. unfold replicas_of. by rewrite filter_app, length_app. Qed.

Lemma replicas_of_replicate (service : string) (n : nat) (inst : Inst) :
  replicas_of service (replicate n inst) =
  if decide (Servicio inst = service) then n else O.
Proof.
  unfold replicas_of. induction n as [|n IH]; simpl; [by case_decide|].
  rewrite filter_cons. destruct (decide (Servicio inst = service)); simpl; by rewrite IH.
Qed.

Lemma replicas_of_load (service : string) (rows : list Row) :
  replicas_of service (load_instances rows) =
  sum_list (map (fun row => if decide (Servicios row = service) then quantity row else O)
                rows).
Proof.
  unfold load_instances. induction rows as [|row rows IH]; simpl; [done|].
  rewrite replicas_of_app, replicas_of_replicate, IH. done.
Qed.

Lemma quantity_le_replicas (rows : list Row) (row : Row) :
  row ∈ rows -> (quantity row <= replicas_of (Servicios row) (load_instances rows))%nat.
Proof.
  rewrite replicas_of_load. induction rows as [|r rows IH]; [by intros ?%elem_of_nil|].
  intros [->|Hin]%elem_of_cons; simpl.
  - rewrite decide_True by done. lia.
  - specialize (IH Hin). lia.
Qed.

(** X15.  A row of quantity n forces n servers: the plan of every
    packing run on the loaded instances has at least as many servers as
    any single row asks replicas for. *)
Theorem quantity_forces_servers (rows : list Row) (caps : Vec) (plan : list Server)
    (row : Row) :
  packing_run (load_instances rows) caps plan ->
  row ∈ rows ->
  (py_int (Cantidad row) <= Z.of_nat (length plan))%Z.
Proof.
  intros Hrun Hrow.
  assert (H : (replicas_of (Servicios row) (load_instances rows) <= length plan)%nat).
  { assert (Ha : Forall anti_affine plan /\ hosted plan ≡ₚ load_instances rows).
    { revert Hrun.
      apply (packing_run_invariant
               (fun plan => Forall anti_affine plan /\ hosted plan ≡ₚ load_instances rows)).
      intros can_host sorted Hc Hs. split; [by apply pack_anti_affine|].
      by rewrite pack_hosted. }
    destruct Ha as [Ha Hp]. unfold replicas_of. rewrite <- Hp.
    by apply replicas_of_hosted. }
  pose proof (quantity_le_replicas rows row Hrow) as Hq.
  unfold quantity, range_length in Hq. lia.
Qed.

Lemma quantity_forces_servers_witness :
  packing_run (load_instances rows3) caps3
              (Script.first_fit_decreasing (load_instances rows3) caps3) /\
  mkRow "web" (3 # 1) (50 # 1) 1 1 1 1 ∈ rows3 /\
  (py_int (Cantidad (mkRow "web" (3 # 1) (50 # 1) 1 1 1 1)) <=
   Z.of_nat (length (Script.first_fit_decreasing (load_instances rows3) caps3)))%Z.
Proof.
  assert (H1 : packing_run (load_instances rows3) caps3
                 (Script.first_fit_decreasing (load_instances rows3) caps3))
    by by apply run_first_fit_decreasing.
  assert (H2 : mkRow "web" (3 # 1) (50 # 1) 1 1 1 1 ∈ rows3) by apply list_elem_of_here.
  exact (conj H1 (conj H2 (quantity_forces_servers _ _ _ _ H1 H2))).
Defined.

Example load_instances_example :
  Servicio <$> load_instances rows3 = ["web"; "web"; "web"] /\
  length (Script.first_fit_decreasing (load_instances rows3) caps3) = 3%nat.
Proof. split; by vm_compute. Qed.

(** * The code on doubles *)

(** ** The order of the doubles *)

Import PrimFloat.

Lemma SFcompare_antisym (x y : SpecFloat.spec_float) :
  SpecFloat.SFcompare y x = option_map CompOpp (SpecFloat.SFcompare x y).
Proof.
  destruct x as [sx|sx| |sx mx ex], y as [sy|sy| |sy my ey]; simpl;
    try reflexivity; try (by destruct sx); try (by destruct sy);
    try (by destruct sx, sy).
  change (Pos.compare_cont Eq my mx) with (Pos.compare my mx).
  change (Pos.compare_cont Eq mx my) with (Pos.compare mx my).
  rewrite (Z.compare_antisym ex ey), (Pos.compare_antisym mx my).
  destruct sx, sy; simpl; try reflexivity;
    destruct (ex ?= ey)%Z; simpl; try reflexivity;
    by destruct (mx ?= my)%positive.
Qed.

Lemma SFcompare_le_trans (x y z : SpecFloat.spec_float) (c1 c2 : comparison) :
  SpecFloat.SFcompare x y = Some c1 -> SpecFloat.SFcompare y z = Some c2 ->
  c1 <> Gt -> c2 <> Gt ->
  SpecFloat.SFcompare x z = Some (match c1, c2 with Eq, Eq => Eq | _, _ => Lt end).
Proof.
  assert (Hpos : forall a b, Pos.compare_cont Eq a b = Pos.compare a b) by done.
  destruct x as [sx|sx| |sx mx ex], y as [sy|sy| |sy my ey], z as [sz|sz| |sz mz ez];
    simpl; try discriminate;
    try destruct sx; try destruct sy; try destruct sz; simpl;
    intros H1 H2 Hc1 Hc2; rewrite ?Hpos in *;
    repeat match goal with
    | H : context [(?a ?= ?b)%Z] |- _ => destruct (Z.compare_spec a b)
    | |- context [(?a ?= ?b)%Z] => destruct (Z.compare_spec a b)
    end; simplify_eq; try done; try lia;
    repeat match goal with
    | H : context [(?a ?= ?b)%positive] |- _ => destruct (Pos.compare_spec a b)
    | |- context [(?a ?= ?b)%positive] => destruct (Pos.compare_spec a b)
    end; simplify_eq; simpl in *; try done; try lia.
Qed.

Lemma Prim2SF_not_nan (x : float) :
  is_nan x = false -> FloatOps.Prim2SF x <> SpecFloat.S754_nan.
Proof.
  intros H. unfold FloatOps.Prim2SF. rewrite H.
  destruct (is_zero x); [done|]. destruct (is_infinity x); [done|].
  destruct (FloatOps.Z.frexp x) as [r e].
  destruct (SpecFloat.shr_fexp _ _ _ _ _) as [shr e'].
  by destruct (SpecFloat.shr_m shr).
Qed.

Lemma fcmp_total (x y : float) :
  is_nan x = false -> is_nan y = false -> exists c, F64.fcmp x y = Some c.
Proof.
  intros Hx%Prim2SF_not_nan Hy%Prim2SF_not_nan. unfold F64.fcmp.
  destruct (FloatOps.Prim2SF x) as [sx|sx| |sx mx ex],
           (FloatOps.Prim2SF y) as [sy|sy| |sy my ey]; simpl; try done; eauto.
Qed.

Lemma fcmp_antisym (x y : float) : F64.fcmp y x = option_map CompOpp (F64.fcmp x y).
Proof. apply SFcompare_antisym. Qed.

Lemma fcmp_le_trans (x y z : float) (c1 c2 : comparison) :
  F64.fcmp x y = Some c1 -> F64.fcmp y z = Some c2 -> c1 <> Gt -> c2 <> Gt ->
  F64.fcmp x z = Some (match c1, c2 with Eq, Eq => Eq | _, _ => Lt end).
Proof. apply SFcompare_le_trans. Qed.

Lemma fcmp_ge_trans (x y z : float) (c1 c2 : comparison) :
  F64.fcmp x y = Some c1 -> F64.fcmp y z = Some c2 -> c1 <> Lt -> c2 <> Lt ->
  F64.fcmp x z = Some (match c1, c2 with Eq, Eq => Eq | _, _ => Gt end).
Proof.
  intros H1 H2 Hc1 Hc2.
  assert (H1' : F64.fcmp y x = Some (CompOpp c1)) by by rewrite fcmp_antisym, H1.
  assert (H2' : F64.fcmp z y = Some (CompOpp c2)) by by rewrite fcmp_antisym, H2.
  rewrite fcmp_antisym.
  rewrite (fcmp_le_trans z y x _ _ H2' H1'); by destruct c1, c2.
Qed.

Lemma eqb_fcmp (x y : float) :
  (x =? y)%float = match F64.fcmp x y with Some Eq => true | _ => false end.
Proof. apply FloatAxioms.eqb_spec. Qed.

Lemma ltb_fcmp (x y : float) :
  (x <? y)%float = match F64.fcmp x y with Some Lt => true | _ => false end.
Proof. apply FloatAxioms.ltb_spec. Qed.

Lemma leb_fcmp (x y : float) :
  (x <=? y)%float = match F64.fcmp x y with Some (Lt | Eq) => true | _ => false end.
Proof. apply FloatAxioms.leb_spec. Qed.

(** Without [nan], [x > y] is the negation of [x <= y]. *)
Lemma ltb_negb_leb (x y : float) :
  is_nan x = false -> is_nan y = false -> (y <? x)%float = negb (x <=? y)%float.
Proof.
  intros Hx Hy. destruct (fcmp_total x y Hx Hy) as [c Hc].
  rewrite ltb_fcmp, leb_fcmp, fcmp_antisym, Hc. by destruct c.
Qed.


(** ** The store model and the functional model *)

Lemma bind_Returns {A B : Type} (m : Store.M A) (f : A -> Store.M B) (h h' : Store.Heap)
    (a : A) :
  m h = Store.Returns a h' -> (m ≫= f) h = f a h'.
Proof. intros H. unfold mbind, Store.M_bind. by rewrite H. Qed.

Lemma bind_Raises {A B : Type} (m : Store.M A) (f : A -> Store.M B) (h : Store.Heap)
    (e : PyExn) :
  m h = Store.Raises e -> (m ≫= f) h = Store.Raises e.
Proof. intros H. unfold mbind, Store.M_bind. by rewrite H. Qed.

Lemma bind_outcome {A B : Type} (m : Store.M A) (f : A -> Store.M B) (h : Store.Heap)
    (o : Store.Outcome A) :
  m h = o ->
  (m ≫= f) h = match o with
               | Store.Returns a h' => f a h'
               | Store.Raises e => Store.Raises e
               | Store.Stuck => Store.Stuck
               end.
Proof. intros H. unfold mbind, Store.M_bind. by rewrite H. Qed.

Lemma bind_lift {A B : Type} (m : Store.M A) (f : A -> Store.M B) (h : Store.Heap)
    (r : Result A) :
  m h = Store.lift r h ->
  (m ≫= f) h = match r with Ok a => f a h | Raise e => Store.Raises e end.
Proof. intros H. unfold mbind, Store.M_bind. rewrite H. by destruct r. Qed.

Lemma getitem_Returns (h : Store.Heap) (r : Store.ref) (d : Store.Dict) (k : Resource) :
  h !! r = Some d -> Store.getitem r k h = Store.Returns (F64.get (Store.num d) k) h.
Proof.
  intros H. unfold Store.getitem, Store.deref, mbind, Store.M_bind. by rewrite H.
Qed.

Lemma get_Servicio_Returns (h : Store.Heap) (r : Store.ref) (s : string) (v : F64.Vec) :
  h !! r = Some (Store.InstDict s v) -> Store.get_Servicio r h = Store.Returns s h.
Proof.
  intros H. unfold Store.get_Servicio, Store.deref, mbind, Store.M_bind. by rewrite H.
Qed.

Lemma get_services_Returns (h : Store.Heap) (r : Store.ref) (n : string) (v : F64.Vec)
    (ss : gset string) (rs : list Store.ref) :
  h !! r = Some (Store.ServerDict n v ss rs) ->
  Store.get_services r h = Store.Returns ss h.
Proof.
  intros H. unfold Store.get_services, Store.deref, mbind, Store.M_bind. by rewrite H.
Qed.

Lemma all_reads {A : Type} (f : A -> Store.M bool) (g : A -> bool) (l : list A)
    (h : Store.Heap) :
  (forall x, f x h = Store.Returns (g x) h) ->
  Store.all f l h = Store.Returns (forallb g l) h.
Proof.
  intros H. induction l as [|x l IH]; [done|].
  simpl. rewrite (bind_Returns _ _ _ _ _ (H x)). by destruct (g x).
Qed.

Lemma for_each_reads {A B : Type} (f : A -> Store.M B) (g : A -> Result B) (l : list A)
    (h : Store.Heap) :
  (forall x, x ∈ l -> f x h = Store.lift (g x) h) ->
  Store.for_each f l h = Store.lift (traverse g l) h.
Proof.
  induction l as [|x l IH]; intros H; [done|].
  simpl. rewrite (bind_lift _ _ _ _ (H x ltac:(left))).
  destruct (g x) as [y|e]; [|done]. simpl.
  rewrite (bind_lift _ _ _ _ (IH (fun z Hz => H z ltac:(by right)))).
  by destruct (traverse g l).
Qed.

Lemma view_inst_Some (h : Store.Heap) (r : Store.ref) (x : F64.Inst) :
  Store.view_inst h r = Some x <-> Store.is_inst h r x.
Proof.
  unfold Store.view_inst, Store.is_inst. destruct x as [s v]. simpl.
  destruct (h !! r) as [[| |]|]; naive_solver.
Qed.

Lemma view_caps_Some (h : Store.Heap) (r : Store.ref) (v : F64.Vec) :
  Store.view_caps h r = Some v <-> Store.is_caps h r v.
Proof.
  unfold Store.view_caps, Store.is_caps. destruct (h !! r) as [[| |]|]; naive_solver.
Qed.

Lemma view_insts_Some (h : Store.Heap) (rs : list Store.ref) (l : list F64.Inst) :
  mapM (Store.view_inst h) rs = Some l <-> Forall2 (Store.is_inst h) rs l.
Proof.
  rewrite mapM_Some.
  split; intros H; (eapply Forall2_impl; [exact H|]); intros r x; apply view_inst_Some.
Qed.

Lemma view_server_Some (h : Store.Heap) (r : Store.ref) (s : F64.Server) :
  Store.view_server h r = Some s <-> Store.is_server h r s.
Proof.
  unfold Store.view_server, Store.is_server, Store.rep. destruct s as [n v ss l]. simpl. split.
  - destruct (h !! r) as [[| |n' v' ss' rs]|]; try done.
    destruct (mapM _ rs) as [l'|] eqn:Hl; [|done]. simpl.
    intros [= -> -> -> ->]. apply view_insts_Some in Hl. eauto.
  - intros (d & -> & rs & -> & Hrs). apply view_insts_Some in Hrs. by rewrite Hrs.
Qed.

Lemma view_plan_Some (h : Store.Heap) (rs : list Store.ref) (plan : list F64.Server) :
  mapM (Store.view_server h) rs = Some plan <-> Forall2 (Store.is_server h) rs plan.
Proof.
  rewrite mapM_Some.
  split; intros H; (eapply Forall2_impl; [exact H|]); intros r x; apply view_server_Some.
Qed.

(** A store only grows: what an address stands for stays. *)
Lemma is_inst_app (h ext : Store.Heap) (r : Store.ref) (x : F64.Inst) :
  Store.is_inst h r x -> Store.is_inst (h ++ ext) r x.
Proof. apply lookup_app_l_Some. Qed.

Lemma is_caps_app (h ext : Store.Heap) (r : Store.ref) (v : F64.Vec) :
  Store.is_caps h r v -> Store.is_caps (h ++ ext) r v.
Proof. apply lookup_app_l_Some. Qed.

Lemma rep_app (h ext : Store.Heap) (d : Store.Dict) (s : F64.Server) :
  Store.rep h d s -> Store.rep (h ++ ext) d s.
Proof.
  intros (rs & -> & Hrs). exists rs. split; [done|].
  eapply Forall2_impl; [exact Hrs|]. intros r x. apply is_inst_app.
Qed.

Lemma is_server_app (h ext : Store.Heap) (r : Store.ref) (s : F64.Server) :
  Store.is_server h r s -> Store.is_server (h ++ ext) r s.
Proof.
  intros (d & Hd & Hrep). exists d. split; [by apply lookup_app_l_Some|by apply rep_app].
Qed.

(** *** The feasibility test reads and returns *)

Lemma can_host_reads (h : Store.Heap) (s i c : Store.ref) (sv : F64.Server)
    (iv : F64.Inst) (cv : F64.Vec) :
  Store.is_server h s sv -> Store.is_inst h i iv -> Store.is_caps h c cv ->
  Store.can_host s i c h = Store.Returns (F64.Script1.can_host sv iv cv) h.
Proof.
  intros (d & Hs & rs & -> & _) Hi Hc. unfold Store.can_host, F64.Script1.can_host.
  rewrite (bind_Returns _ _ _ _ _ (get_Servicio_Returns _ _ _ _ Hi)).
  rewrite (bind_Returns _ _ _ _ _ (get_services_Returns _ _ _ _ _ _ Hs)).
  destruct (bool_decide _); [done|].
  apply all_reads. intros k.
  rewrite (bind_Returns _ _ _ _ _ (getitem_Returns _ _ _ k Hs)).
  rewrite (bind_Returns _ _ _ _ _ (getitem_Returns _ _ _ k Hi)).
  by rewrite (bind_Returns _ _ _ _ _ (getitem_Returns _ _ _ k Hc)).
Qed.


(** *** The sort moves addresses as it moves replicas *)

Lemma sort_key_reads (h : Store.Heap) (i c : Store.ref) (iv : F64.Inst) (cv : F64.Vec)
    (order : list Resource) :
  Store.is_inst h i iv -> Store.is_caps h c cv ->
  Store.sort_key c order i h = Store.lift (F64.Script1.sort_key cv order iv) h.
Proof.
  intros Hi Hc. apply for_each_reads. intros r _.
  rewrite (bind_Returns _ _ _ _ _ (getitem_Returns _ _ _ r Hi)).
  by rewrite (bind_Returns _ _ _ _ _ (getitem_Returns _ _ _ r Hc)).
Qed.

Lemma keyed_reads (h : Store.Heap) (c : Store.ref) (cv : F64.Vec) (order : list Resource)
    (rs : list Store.ref) (l : list F64.Inst) :
  Store.is_caps h c cv -> Forall2 (Store.is_inst h) rs l ->
  match traverse (fun x => key ← F64.Script1.sort_key cv order x; Ok (key, x)) l with
  | Ok kl =>
      exists kr,
        Store.for_each (fun x => key ← Store.sort_key c order x; mret (key, x)) rs h
          = Store.Returns kr h /\
        Forall2 (Store.same_keys h) kr kl
  | Raise e =>
      Store.for_each (fun x => key ← Store.sort_key c order x; mret (key, x)) rs h
        = Store.Raises e
  end.
Proof.
  intros Hc. induction 1 as [|r x rs l Hr Hrs IH]; simpl.
  - exists []. by split.
  - pose proof (bind_lift _ (fun key => mret (key, r) : Store.M _) _ _
                  (sort_key_reads _ _ _ _ _ order Hr Hc)) as Hk.
    rewrite (bind_outcome _ _ _ _ Hk).
    destruct (F64.Script1.sort_key cv order x) as [key|e]; simpl; [|done].
    destruct (traverse _ l) as [kl|e]; simpl.
    + destruct IH as (kr & Hkr & Hsame). exists ((key, r) :: kr).
      rewrite (bind_Returns _ _ _ _ _ Hkr). split; [done|]. by constructor.
    + by rewrite (bind_Raises _ _ _ _ IH).
Qed.

Lemma insert_desc_same_keys {K : Type} (lt : K -> K -> bool) (h : Store.Heap)
    (p : K * Store.ref) (q : K * F64.Inst) (kr : list (K * Store.ref))
    (kl : list (K * F64.Inst)) :
  Store.same_keys h p q -> Forall2 (Store.same_keys h) kr kl ->
  Forall2 (Store.same_keys h) (insert_desc lt p kr) (insert_desc lt q kl).
Proof.
  intros Hpq. induction 1 as [|p' q' kr kl Hpq' Hrest IH]; simpl.
  - constructor; [done|constructor].
  - assert (Hlt : lt (fst p) (fst p') = lt (fst q) (fst q'))
      by (by destruct Hpq as [-> _], Hpq' as [-> _]).
    rewrite Hlt. destruct (lt (fst q) (fst q')).
    + by constructor.
    + constructor; [done|]. by constructor.
Qed.

Lemma sorted_reverse_same_keys {K : Type} (lt : K -> K -> bool) (h : Store.Heap)
    (kr : list (K * Store.ref)) (kl : list (K * F64.Inst)) :
  Forall2 (Store.same_keys h) kr kl ->
  Forall2 (Store.is_inst h) (map snd (sorted_reverse lt kr)) (map snd (sorted_reverse lt kl)).
Proof.
  intros H. apply Forall2_fmap.
  eapply Forall2_impl with (P := Store.same_keys h); [|by intros ?? [_ ?]].
  induction H; simpl; [constructor|]. by apply insert_desc_same_keys.
Qed.

Lemma instances_sorted_reads (h : Store.Heap) (c : Store.ref) (cv : F64.Vec)
    (order : list Resource) (rs : list Store.ref) (l : list F64.Inst) :
  Store.is_caps h c cv -> Forall2 (Store.is_inst h) rs l ->
  match F64.Script1.instances_sorted l cv order with
  | Ok sorted =>
      exists rs', Store.instances_sorted rs c order h = Store.Returns rs' h /\
                  Forall2 (Store.is_inst h) rs' sorted
  | Raise e => Store.instances_sorted rs c order h = Store.Raises e
  end.
Proof.
  intros Hc Hrs. pose proof (keyed_reads h c cv order rs l Hc Hrs) as H.
  unfold F64.Script1.instances_sorted, Store.instances_sorted.
  destruct (traverse _ l) as [kl|e]; simpl.
  - destruct H as (kr & Hkr & Hsame). eexists.
    rewrite (bind_Returns _ _ _ _ _ Hkr). split; [done|].
    by apply sorted_reverse_same_keys.
  - by rewrite (bind_Raises _ _ _ _ H).
Qed.

(** *** The placement loop writes to its own servers only *)

Lemma insert_middle {A : Type} (l1 l2 : list A) (x y : A) :
  <[length l1 := y]> (l1 ++ x :: l2) = l1 ++ y :: l2.
Proof. by rewrite <- (Nat.add_0_r (length l1)), insert_app_r. Qed.

Lemma host_keys (pre post : Store.Heap) (i : Store.ref) (iv : F64.Inst) (n : string)
    (ss : gset string) (rs : list Store.ref) (keys : list Resource) (u : F64.Vec) :
  Store.is_inst pre i iv ->
  exists us,
    Store.for_each (fun k => u ← Store.getitem (length pre) k;
                             d ← Store.getitem i k;
                             Store.setitem (length pre) k (PrimFloat.add u d))
                   keys (pre ++ Store.ServerDict n u ss rs :: post)
    = Store.Returns us
        (pre ++ Store.ServerDict n
                  (fold_left (fun u k => F64.setitem u k
                                (PrimFloat.add (F64.get u k) (F64.get (F64.demand iv) k)))
                             keys u) ss rs :: post).
Proof.
  intros Hi. revert u. induction keys as [|k keys IH]; intros u; simpl.
  - by eexists.
  - set (h := pre ++ Store.ServerDict n u ss rs :: post).
    set (u' := F64.setitem u k (PrimFloat.add (F64.get u k) (F64.get (F64.demand iv) k))).
    assert (Hs : h !! length pre = Some (Store.ServerDict n u ss rs))
      by by apply list_lookup_middle.
    assert (Hi' : h !! i = Some (Store.InstDict (F64.Servicio iv) (F64.demand iv)))
      by by apply lookup_app_l_Some.
    assert (Hbody : (u ← Store.getitem (length pre) k;
                     d ← Store.getitem i k;
                     Store.setitem (length pre) k (PrimFloat.add u d)) h
                    = Store.Returns tt (pre ++ Store.ServerDict n u' ss rs :: post)).
    { rewrite (bind_Returns _ _ _ _ _ (getitem_Returns _ _ _ k Hs)).
      rewrite (bind_Returns _ _ _ _ _ (getitem_Returns _ _ _ k Hi')).
      unfold Store.setitem, Store.update. rewrite Hs. unfold h.
      by rewrite insert_middle. }
    rewrite (bind_Returns _ _ _ _ _ Hbody).
    destruct (IH u') as [us Hus].
    rewrite (bind_Returns _ _ _ _ _ Hus). by eexists.
Qed.

Lemma host_writes (base pre post : Store.Heap) (i : Store.ref) (iv : F64.Inst)
    (d : Store.Dict) (sv : F64.Server) :
  Store.is_inst base i iv -> Store.is_inst pre i iv -> Store.rep base d sv ->
  exists d', Store.host (length pre) i (pre ++ d :: post) = Store.Returns tt (pre ++ d' :: post) /\
             Store.rep base d' (F64.host sv iv).
Proof.
  intros Hi0 Hi (rs & -> & Hrs).
  destruct (host_keys pre post i iv (F64.name sv) (F64.services sv) rs RESOURCE_KEYS
              (F64.usage sv) Hi) as [us Hus].
  eexists. split.
  - unfold Store.host. rewrite (bind_Returns _ _ _ _ _ Hus).
    rewrite (bind_Returns _ _ _ _ _
               (get_Servicio_Returns _ _ _ _ (lookup_app_l_Some _ _ _ _ Hi))).
    unfold Store.services_add, Store.instances_append, Store.update.
    unfold mbind, Store.M_bind.
    rewrite (list_lookup_middle pre post _ _ eq_refl), insert_middle.
    rewrite (list_lookup_middle pre post _ _ eq_refl), insert_middle. done.
  - eexists. split; [done|]. simpl. apply Forall2_app; [done|]. by repeat constructor.
Qed.

(** The inner loop on the servers [sd], which stand in the store after
    the dictionaries [pre]. *)
Lemma first_fit_writes (base : Store.Heap) (i c : Store.ref) (iv : F64.Inst) (cv : F64.Vec)
    (sd : list Store.Dict) (plan : list F64.Server) (pre : list Store.Dict) :
  Store.is_inst base i iv -> Store.is_caps base c cv -> Forall2 (Store.rep base) sd plan ->
  match F64.first_fit F64.Script1.can_host plan iv cv with
  | Some plan' =>
      exists sd', Store.first_fit (seq (length (base ++ pre)) (length sd)) i c
                    ((base ++ pre) ++ sd)
                  = Store.Returns true ((base ++ pre) ++ sd') /\
                  Forall2 (Store.rep base) sd' plan'
  | None =>
      Store.first_fit (seq (length (base ++ pre)) (length sd)) i c ((base ++ pre) ++ sd)
      = Store.Returns false ((base ++ pre) ++ sd)
  end.
Proof.
  intros Hi Hc Hsd. revert pre.
  induction Hsd as [|d sv sd plan Hd Hsd IH]; intros pre; simpl; [done|].
  assert (Hi' : Store.is_inst (base ++ pre) i iv) by by apply is_inst_app.
  assert (Hc' : Store.is_caps (base ++ pre) c cv) by by apply is_caps_app.
  assert (Hs : Store.is_server ((base ++ pre) ++ d :: sd) (length (base ++ pre)) sv).
  { exists d. split; [by apply list_lookup_middle|].
    rewrite <- app_assoc. by apply rep_app. }
  rewrite (bind_Returns _ _ _ _ _
             (can_host_reads _ _ _ _ _ _ _ Hs (is_inst_app _ _ _ _ Hi') (is_caps_app _ _ _ _ Hc'))).
  destruct (F64.Script1.can_host sv iv cv).
  - destruct (host_writes base (base ++ pre) sd i iv d sv Hi Hi' Hd) as (d' & Hrun & Hrep).
    rewrite (bind_Returns _ _ _ _ _ Hrun).
    exists (d' :: sd). split; [done|]. by constructor.
  - specialize (IH (pre ++ [d])).
    replace (S (length (base ++ pre))) with (length (base ++ pre ++ [d]))
      by (rewrite !length_app; simpl; lia).
    replace ((base ++ pre) ++ d :: sd) with ((base ++ pre ++ [d]) ++ sd)
      by (by rewrite <- !app_assoc).
    destruct (F64.first_fit _ plan iv cv) as [plan'|]; simpl.
    + destruct IH as (sd' & Hrun & Hrep). exists (d :: sd'). split.
      * rewrite Hrun. by rewrite <- !app_assoc.
      * by constructor.
    + done.
Qed.

Lemma for_keys_reads (f : Resource -> Store.M PrimFloat.float)
    (g : Resource -> PrimFloat.float) (h : Store.Heap) :
  (forall k, f k h = Store.Returns (g k) h) ->
  Store.for_keys f h = Store.Returns (F64.tabulate g) h.
Proof.
  intros H. unfold Store.for_keys.
  by do 5 (rewrite (bind_Returns _ _ _ _ _ (H _)); cbv beta).
Qed.

Lemma new_server_writes (h : Store.Heap) (servers : list Store.ref) (i : Store.ref)
    (iv : F64.Inst) :
  Store.is_inst h i iv ->
  Store.new_server servers i h
  = Store.Returns (length h)
      (h ++ [Store.ServerDict (server_name (length servers + 1))
                              (F64.tabulate (fun k => F64.get (F64.demand iv) k))
                              {[ F64.Servicio iv ]} [i]]).
Proof.
  intros Hi. unfold Store.new_server.
  rewrite (bind_Returns _ _ _ _ _
             (for_keys_reads _ _ _ (fun k => getitem_Returns _ _ _ k Hi))).
  by rewrite (bind_Returns _ _ _ _ _ (get_Servicio_Returns _ _ _ _ Hi)).
Qed.

Lemma F64_first_fit_length (can_host : F64.Server -> F64.Inst -> F64.Vec -> bool)
    (plan plan' : list F64.Server) (iv : F64.Inst) (cv : F64.Vec) :
  F64.first_fit can_host plan iv cv = Some plan' -> length plan' = length plan.
Proof.
  revert plan'. induction plan as [|s plan IH]; intros plan'; simpl; [done|].
  destruct (can_host s iv cv); [by intros [= <-]|].
  destruct (F64.first_fit can_host plan iv cv) as [p|]; [|done].
  intros [= <-]. simpl. f_equal. by apply IH.
Qed.

(** The outer loop: the store grows by the server dictionaries, which
    get the addresses after the ones of the store it started from. *)
Lemma place_writes (base : Store.Heap) (c : Store.ref) (cv : F64.Vec)
    (rs : list Store.ref) (l : list F64.Inst) (sd : list Store.Dict)
    (plan : list F64.Server) :
  Store.is_caps base c cv -> Forall2 (Store.is_inst base) rs l ->
  Forall2 (Store.rep base) sd plan ->
  exists sd',
    Store.place (seq (length base) (length sd)) rs c (base ++ sd)
    = Store.Returns (seq (length base) (length sd')) (base ++ sd') /\
    Forall2 (Store.rep base) sd' (fold_left (F64.assign F64.Script1.can_host cv) l plan).
Proof.
  intros Hc Hrs. revert sd plan.
  induction Hrs as [|i iv rs l Hi Hrs IH]; intros sd plan Hsd; simpl.
  - by exists sd.
  - pose proof (first_fit_writes base i c iv cv sd plan [] Hi Hc Hsd) as Hff.
    rewrite !app_nil_r in Hff. unfold F64.assign at 2.
    destruct (F64.first_fit _ plan iv cv) as [plan'|] eqn:Hpure.
    + destruct Hff as (sd1 & Hrun & Hsd1).
      rewrite (bind_Returns _ _ _ _ _ Hrun).
      assert (Hlen : length sd1 = length sd).
      { rewrite (Forall2_length _ _ _ Hsd1), (Forall2_length _ _ _ Hsd).
        by eapply F64_first_fit_length. }
      rewrite <- Hlen. by apply IH.
    + rewrite (bind_Returns _ _ _ _ _ Hff).
      rewrite (bind_Returns _ _ _ _ _
                 (new_server_writes _ _ _ _ (is_inst_app _ sd _ _ Hi))).
      rewrite length_app, <- seq_S, <- app_assoc.
      rewrite length_seq.
      replace (S (length sd)) with (length (sd ++ [Store.ServerDict
          (server_name (length sd + 1))
          (F64.tabulate (fun k => F64.get (F64.demand iv) k))
          {[ F64.Servicio iv ]} [i]])) by (rewrite length_app; simpl; lia).
      apply IH. apply Forall2_app; [done|]. constructor; [|constructor].
      exists [i]. unfold F64.new_server. simpl.
      rewrite (Forall2_length _ _ _ Hsd). split; [done|]. by repeat constructor.
Qed.


Lemma rep_is_server (h : Store.Heap) (sd : list Store.Dict) (plan : list F64.Server) :
  Forall2 (Store.rep h) sd plan ->
  Forall2 (Store.is_server (h ++ sd)) (seq (length h) (length sd)) plan.
Proof.
  intros H. apply Forall2_same_length_lookup_2.
  { rewrite length_seq. by eapply Forall2_length. }
  intros j r s Hr Hs. apply lookup_seq in Hr as [-> Hj].
  destruct (Forall2_lookup_r _ _ _ _ _ H Hs) as (d & Hd & Hrep).
  exists d. split; [|by apply rep_app].
  by rewrite lookup_app_r, Nat.add_comm, Nat.add_sub by lia.
Qed.

(** *** A run of the packer *)

Lemma ffd_runs (h : Store.Heap) (rs : list Store.ref) (c : Store.ref) (l : list F64.Inst)
    (cv : F64.Vec) (order : list Resource) :
  Store.is_caps h c cv -> Forall2 (Store.is_inst h) rs l ->
  match F64.Script1.ffd l cv order with
  | Ok plan =>
      exists sd, Store.ffd rs c order h
                 = Store.Returns (seq (length h) (length sd)) (h ++ sd) /\
                 Forall2 (Store.rep h) sd plan
  | Raise e => Store.ffd rs c order h = Store.Raises e
  end.
Proof.
  intros Hc Hrs. pose proof (instances_sorted_reads h c cv order rs l Hc Hrs) as Hs.
  unfold F64.Script1.ffd, Store.ffd.
  destruct (F64.Script1.instances_sorted l cv order) as [sorted|e]; simpl.
  - destruct Hs as (rs' & Hrun & Hrs').
    rewrite (bind_Returns _ _ _ _ _ Hrun).
    destruct (place_writes h c cv rs' sorted [] [] Hc Hrs' ltac:(constructor)) as (sd & Hp & Hsd).
    rewrite app_nil_r in Hp. simpl in Hp. by exists sd.
  - by rewrite (bind_Raises _ _ _ _ Hs).
Qed.

(** *** The search *)

Lemma usage_reads (h : Store.Heap) (k : Resource) (rs : list Store.ref)
    (plan : list F64.Server) :
  Forall2 (Store.is_server h) rs plan ->
  Store.for_each (fun s => Store.getitem s k) rs h
  = Store.Returns (map (fun s => F64.get (F64.usage s) k) plan) h.
Proof.
  induction 1 as [|r s rs plan (d & Hd & rs0 & -> & _) _ IH]; simpl; [done|].
  rewrite (bind_Returns _ _ _ _ _ (getitem_Returns _ _ _ k Hd)).
  by rewrite (bind_Returns _ _ _ _ _ IH).
Qed.

Lemma spare_reads (py_sum : list float -> float)
    (h : Store.Heap) (c : Store.ref) (cv : F64.Vec) (rs : list Store.ref)
    (plan : list F64.Server) :
  Store.is_caps h c cv -> Forall2 (Store.is_server h) rs plan ->
  Store.spare py_sum c rs h = Store.Returns (F64.Script1.spare py_sum cv plan) h.
Proof.
  intros Hc Hrs. unfold Store.spare, F64.Script1.spare.
  set (g := fun k => PrimFloat.sub (F64.get cv k)
                       (py_sum (map (fun s => F64.get (F64.usage s) k) plan))).
  assert (H : Store.for_each
                (fun k => c ← Store.getitem c k;
                          us ← Store.for_each (fun s => Store.getitem s k) rs;
                          mret (PrimFloat.sub c (py_sum us))) RESOURCE_KEYS h
              = Store.lift (traverse (fun k => Ok (g k)) RESOURCE_KEYS) h).
  { apply for_each_reads. intros k _.
    rewrite (bind_Returns _ _ _ _ _ (getitem_Returns _ _ _ k Hc)).
    by rewrite (bind_Returns _ _ _ _ _ (usage_reads _ k _ _ Hrs)). }
  rewrite (bind_lift _ _ _ _ H).
  by rewrite (traverse_pure _ g) by (apply Forall_forall; done).
Qed.

Lemma is_best_app (h ext : Store.Heap) (best : option (list Store.ref))
    (pbest : option (list F64.Server)) :
  Store.is_best h best pbest -> Store.is_best (h ++ ext) best pbest.
Proof.
  destruct best, pbest; simpl; try done.
  intros H. eapply Forall2_impl; [exact H|]. intros r s. apply is_server_app.
Qed.

Lemma consider_reads (py_sum : list float -> float)
    (h : Store.Heap) (c : Store.ref) (cv : F64.Vec)
    (best : option (list Store.ref)) (pbest : option (list F64.Server))
    (rs : list Store.ref) (plan : list F64.Server) :
  Store.is_caps h c cv -> Store.is_best h best pbest -> Forall2 (Store.is_server h) rs plan ->
  exists best', Store.consider py_sum c best rs h = Store.Returns best' h /\
                Store.is_best h best' (F64.Script1.consider py_sum cv pbest plan).
Proof.
  intros Hc Hbest Hrs. destruct best as [b|], pbest as [pb|]; simpl in *; try done.
  - rewrite (Forall2_length _ _ _ Hrs), (Forall2_length _ _ _ Hbest).
    destruct (length plan <? length pb)%nat; [by eexists|].
    destruct (length plan =? length pb)%nat; [|by eexists].
    rewrite (bind_Returns _ _ _ _ _ (spare_reads py_sum _ _ _ _ _ Hc Hbest)).
    rewrite (bind_Returns _ _ _ _ _ (spare_reads py_sum _ _ _ _ _ Hc Hrs)).
    eexists. split; [done|]. by destruct (PrimFloat.ltb _ _).
  - by eexists.
Qed.

Lemma search_runs (py_sum : list float -> float)
    (orders : list (list Resource)) (h : Store.Heap) (rs : list Store.ref)
    (c : Store.ref) (l : list F64.Inst) (cv : F64.Vec) (best : option (list Store.ref))
    (pbest : option (list F64.Server)) :
  Store.is_caps h c cv -> Forall2 (Store.is_inst h) rs l -> Store.is_best h best pbest ->
  match foldM (fun best order => plan ← F64.Script1.ffd l cv order;
                                 Ok (F64.Script1.consider py_sum cv best plan)) orders pbest with
  | Ok pbest' =>
      exists ext best', Store.search py_sum rs c orders best h = Store.Returns best' (h ++ ext) /\
                        Store.is_best (h ++ ext) best' pbest'
  | Raise e => Store.search py_sum rs c orders best h = Store.Raises e
  end.
Proof.
  revert h best pbest.
  induction orders as [|order orders IH]; intros h best pbest Hc Hrs Hbest; simpl.
  - exists [], best. by rewrite app_nil_r.
  - pose proof (ffd_runs h rs c l cv order Hc Hrs) as Hffd.
    destruct (F64.Script1.ffd l cv order) as [plan|e]; simpl.
    + destruct Hffd as (sd & Hrun & Hsd).
      rewrite (bind_Returns _ _ _ _ _ Hrun).
      destruct (consider_reads py_sum (h ++ sd) c cv best pbest _ plan
                  (is_caps_app _ _ _ _ Hc) (is_best_app _ _ _ _ Hbest)
                  (rep_is_server _ _ _ Hsd)) as (best' & Hcons & Hbest').
      rewrite (bind_Returns _ _ _ _ _ Hcons).
      assert (Hrs' : Forall2 (Store.is_inst (h ++ sd)) rs l).
      { eapply Forall2_impl; [exact Hrs|]. intros r x. apply is_inst_app. }
      specialize (IH (h ++ sd) best' (F64.Script1.consider py_sum cv pbest plan)
                     (is_caps_app _ _ _ _ Hc) Hrs' Hbest').
      destruct (foldM _ orders _) as [pbest'|e]; [|done].
      destruct IH as (ext & b' & Hsearch & Hb').
      exists (sd ++ ext), b'. by rewrite app_assoc.
    + by rewrite (bind_Raises _ _ _ _ Hffd).
Qed.

Lemma demand_reads (h : Store.Heap) (k : Resource) (rs : list Store.ref)
    (l : list F64.Inst) :
  Forall2 (Store.is_inst h) rs l ->
  Store.for_each (fun inst => Store.getitem inst k) rs h
  = Store.Returns (map (fun inst => F64.get (F64.demand inst) k) l) h.
Proof.
  induction 1 as [|r x rs l Hr _ IH]; simpl; [done|].
  rewrite (bind_Returns _ _ _ _ _ (getitem_Returns _ _ _ k Hr)).
  by rewrite (bind_Returns _ _ _ _ _ IH).
Qed.

Lemma crit_order_reads (py_sum : list float -> float)
    (h : Store.Heap) (rs : list Store.ref) (c : Store.ref)
    (l : list F64.Inst) (cv : F64.Vec) :
  Store.is_caps h c cv -> Forall2 (Store.is_inst h) rs l ->
  Store.crit_order py_sum rs c h = Store.lift (F64.Script1.crit_order py_sum l cv) h.
Proof.
  intros Hc Hrs. unfold Store.crit_order, F64.Script1.crit_order.
  assert (Hd : forall k,
             (xs ← Store.for_each (fun inst => Store.getitem inst k) rs;
              mret (py_sum xs)) h
             = Store.Returns (py_sum (map (fun inst => F64.get (F64.demand inst) k) l)) h).
  { intros k. by rewrite (bind_Returns _ _ _ _ _ (demand_reads _ k _ _ Hrs)). }
  rewrite (bind_Returns _ _ _ _ _ (for_keys_reads _ _ _ Hd)).
  set (demand := F64.tabulate _).
  assert (H : Store.for_each
                (fun k => c ← Store.getitem c k;
                          q ← Store.lift (F64.py_div (F64.get demand k) c);
                          mret (q, k)) RESOURCE_KEYS h
              = Store.lift (traverse (fun k => c ← F64.py_div (F64.get demand k) (F64.get cv k);
                                               Ok (c, k)) RESOURCE_KEYS) h).
  { apply for_each_reads. intros k _.
    rewrite (bind_Returns _ _ _ _ _ (getitem_Returns _ _ _ k Hc)). simpl.
    unfold mbind, Store.M_bind, Store.lift. by destruct (F64.py_div _ _). }
  rewrite (bind_lift _ _ _ _ H).
  by destruct (traverse _ RESOURCE_KEYS).
Qed.

Lemma best_plan_runs (py_sum : list float -> float)
    (h : Store.Heap) (rs : list Store.ref) (c : Store.ref)
    (l : list F64.Inst) (cv : F64.Vec) (g : Rng) :
  Store.is_caps h c cv -> Forall2 (Store.is_inst h) rs l ->
  match F64.Script1.best_plan py_sum l cv g with
  | (Ok pbest, g') =>
      exists ext best, Store.best_plan py_sum rs c g h = Store.Returns (best, g') (h ++ ext) /\
                       Store.is_best (h ++ ext) best pbest
  | (Raise e, _) => Store.best_plan py_sum rs c g h = Store.Raises e
  end.
Proof.
  intros Hc Hrs. unfold F64.Script1.best_plan, Store.best_plan.
  rewrite (bind_lift _ _ _ _ (crit_order_reads py_sum _ _ _ _ _ Hc Hrs)).
  destruct (F64.Script1.crit_order py_sum l cv) as [order0|e]; [|done].
  destruct (F64.Script1.candidates order0 g) as [orders g'].
  pose proof (search_runs py_sum orders h rs c l cv None None Hc Hrs I) as Hs.
  unfold F64.Script1.search.
  destruct (foldM _ orders None) as [pbest|e].
  - destruct Hs as (ext & best & Hrun & Hbest). exists ext, best.
    by rewrite (bind_Returns _ _ _ _ _ Hrun).
  - by rewrite (bind_Raises _ _ _ _ Hs).
Qed.


(** ** The order on tuples of doubles *)

Ltac f_cases x y Hx Hy c :=
  let Hc := fresh "Hc" in
  destruct (fcmp_total x y Hx Hy) as [c Hc];
  rewrite ?eqb_fcmp, ?ltb_fcmp, ?(fcmp_antisym x y), ?Hc in *.

Lemma f_tuple_lt_asym (a b : list float) :
  F64.no_nan a -> F64.no_nan b ->
  F64.tuple_lt a b = true -> F64.tuple_lt b a = false.
Proof.
  revert b. induction a as [|x a IH]; intros [|y b] Ha Hb; simpl; try done.
  apply Forall_cons in Ha as [Hx Ha], Hb as [Hy Hb].
  f_cases x y Hx Hy c. destruct c; simpl; try done. by apply IH.
Qed.

Lemma f_tuple_ge_trans (a b c : list float) :
  F64.no_nan a -> F64.no_nan b -> F64.no_nan c ->
  F64.tuple_lt a b = false -> F64.tuple_lt b c = false -> F64.tuple_lt a c = false.
Proof.
  revert b c. induction a as [|x a IH]; intros [|y b] [|z c] Ha Hb Hc; simpl; try done.
  apply Forall_cons in Ha as [Hx Ha], Hb as [Hy Hb], Hc as [Hz Hc].
  destruct (fcmp_total x y Hx Hy) as [c1 Hc1], (fcmp_total y z Hy Hz) as [c2 Hc2].
  rewrite !eqb_fcmp, !ltb_fcmp, Hc1, Hc2.
  destruct c1, c2; simpl; try done; intros H1 H2;
    rewrite (fcmp_ge_trans x y z _ _ Hc1 Hc2) by done; simpl; try done.
  by apply IH with b.
Qed.

Lemma f_tuple_lt_lex (a b : list float) :
  length a = length b -> F64.tuple_lt a b = true <-> F64.lex_lt a b.
Proof.
  revert b. induction a as [|x a IH]; intros [|y b]; simpl; try done.
  - intros _. split; [done | inversion 1].
  - intros [= Hlen]. destruct (PrimFloat.eqb x y) eqn:Exy.
    + rewrite (IH b Hlen). split.
      * by apply F64.lex_lt_tail.
      * inversion 1; subst; [|done].
        rewrite eqb_fcmp in Exy. rewrite ltb_fcmp in *.
        by destruct (F64.fcmp x y) as [[]|].
    + split.
      * by apply F64.lex_lt_head.
      * inversion 1; subst; [done | congruence].
Qed.

Lemma f_tuple_tie_eq (a b : list float) :
  F64.no_nan a -> F64.no_nan b -> length a = length b ->
  (F64.tuple_lt a b = false /\ F64.tuple_lt b a = false) <-> F64.tuple_eq a b.
Proof.
  unfold F64.tuple_eq.
  revert b. induction a as [|x a IH]; intros [|y b] Ha Hb; simpl; try done.
  apply Forall_cons in Ha as [Hx Ha], Hb as [Hy Hb]. intros [= Hlen].
  rewrite Forall2_cons, <- (IH b Ha Hb Hlen).
  f_cases x y Hx Hy c. destruct c; simpl; intuition discriminate.
Qed.

Lemma f_tuple_ge_lex_le (a b : list float) :
  F64.no_nan a -> F64.no_nan b -> length a = length b ->
  F64.tuple_lt a b = false -> F64.lex_le b a.
Proof.
  intros Ha Hb Hlen H. destruct (F64.tuple_lt b a) eqn:Hba.
  - left. by apply f_tuple_lt_lex.
  - right. apply f_tuple_tie_eq; [done..|]. by split.
Qed.

(** ** The stable decreasing sort, on keys that can be compared *)

Section SortFactsOn.

Context {K A : Type}.
Variable lt : K -> K -> bool.
Variable key_of : A -> K.
Variable good : K -> Prop.

Hypothesis lt_asym : forall a b, good a -> good b -> lt a b = true -> lt b a = false.
Hypothesis ge_trans :
  forall a b c, good a -> good b -> good c ->
                lt a b = false -> lt b c = false -> lt a c = false.

Lemma insert_by_decreasing_on (x : A) (l : list A) :
  good (key_of x) -> Forall (fun y => good (key_of y)) l ->
  decreasing lt key_of l -> decreasing lt key_of (insert_by lt key_of x l).
Proof.
  unfold decreasing. intros Hx Hl. induction 1 as [|y l Hsorted IH Hy]; simpl.
  - repeat constructor.
  - apply Forall_cons in Hl as [Hgy Hl].
    destruct (lt (key_of x) (key_of y)) eqn:Hxy.
    + constructor; [by apply IH|].
      rewrite insert_by_perm. constructor; [by apply lt_asym | done].
    + constructor; [by constructor|].
      constructor; [done|].
      rewrite Forall_forall in Hy, Hl. apply Forall_forall. intros z Hz.
      apply ge_trans with (key_of y); auto.
Qed.

Lemma sort_by_decreasing_on (l : list A) :
  Forall (fun y => good (key_of y)) l -> decreasing lt key_of (sort_by lt key_of l).
Proof.
  induction 1 as [|x l Hx Hl IH]; simpl; [constructor|].
  apply insert_by_decreasing_on; [done| |done].
  by rewrite sort_by_perm.
Qed.

Lemma insert_by_stable_on (k : K) (x : A) (l : list A) :
  good k -> good (key_of x) -> Forall (fun y => good (key_of y)) l ->
  filter (tie lt key_of k) (insert_by lt key_of x l) = filter (tie lt key_of k) (x :: l).
Proof.
  intros Hk Hx. induction 1 as [|y l Hy Hl IH]; simpl; [done|].
  destruct (lt (key_of x) (key_of y)) eqn:Hxy; [|done].
  rewrite filter_cons, IH, !filter_cons.
  destruct (decide (tie lt key_of k y)) as [[Hy1 Hy2]|Hny]; [|done].
  destruct (decide (tie lt key_of k x)) as [[Hx1 Hx2]|Hnx]; [|done].
  rewrite (ge_trans _ _ _ Hx Hk Hy Hx1 Hy2) in Hxy. discriminate.
Qed.

Lemma sort_by_stable_on (k : K) (l : list A) :
  good k -> Forall (fun y => good (key_of y)) l ->
  filter (tie lt key_of k) (sort_by lt key_of l) = filter (tie lt key_of k) l.
Proof.
  intros Hk. induction 1 as [|x l Hx Hl IH]; simpl; [done|].
  rewrite insert_by_stable_on, !filter_cons, IH; [done..|].
  by rewrite sort_by_perm.
Qed.

End SortFactsOn.

(** The stable decreasing sort by a key of tuples of one length without
    [nan] sorts. *)
Lemma sort_by_sorted_by {A : Type} (key_of : A -> list float) (n : nat) (l : list A) :
  Forall (fun x => F64.no_nan (key_of x) /\ length (key_of x) = n) l ->
  F64.sorted_by key_of l (sort_by F64.tuple_lt key_of l).
Proof.
  intros Hl.
  assert (Hgood : Forall (fun y => F64.no_nan (key_of y)) l)
    by (eapply Forall_impl; [exact Hl|]; by intros x [? _]).
  assert (Hall : forall x, x ∈ sort_by F64.tuple_lt key_of l ->
                           F64.no_nan (key_of x) /\ length (key_of x) = n).
  { intros x Hx. rewrite sort_by_perm in Hx. by apply (proj1 (Forall_forall _ _) Hl). }
  split; [apply sort_by_perm|]. split.
  - pose proof (sort_by_decreasing_on F64.tuple_lt key_of F64.no_nan
                  f_tuple_lt_asym f_tuple_ge_trans l Hgood) as Hdec.
    unfold decreasing in Hdec.
    induction Hdec as [|x s Hs IH Hx]; constructor.
    + apply IH. intros y Hy. apply Hall. by right.
    + apply Forall_forall. intros y Hy.
      destruct (Hall x ltac:(left)) as [Hnx Hlx].
      destruct (Hall y ltac:(by right)) as [Hny Hly].
      apply f_tuple_ge_lex_le; [done|done|congruence|].
      by apply (proj1 (Forall_forall _ _) Hx).
  - intros x Hx.
    destruct (proj1 (Forall_forall _ _) Hl x Hx) as [Hnx Hlx].
    pose proof (sort_by_stable_on F64.tuple_lt key_of F64.no_nan f_tuple_ge_trans
                  (key_of x) l Hnx Hgood) as Hst.
    assert (Hiff : forall s : list A,
              (forall y, y ∈ s -> F64.no_nan (key_of y) /\ length (key_of y) = n) ->
              filter (fun y => F64.tuple_eq (key_of y) (key_of x)) s =
              filter (tie F64.tuple_lt key_of (key_of x)) s).
    { intros s Hs. induction s as [|y s IH]; [done|].
      rewrite !filter_cons, IH by (intros z Hz; apply Hs; by right).
      destruct (Hs y ltac:(left)) as [Hny Hly].
      assert (Ht : tie F64.tuple_lt key_of (key_of x) y <-> F64.tuple_eq (key_of y) (key_of x)).
      { unfold tie. apply f_tuple_tie_eq; [done|done|congruence]. }
      destruct (decide (F64.tuple_eq _ _)), (decide (tie _ _ _ _)); tauto. }
    rewrite (Hiff _ Hall), (Hiff l); [done|].
    intros y Hy. by apply (proj1 (Forall_forall _ _) Hl).
Qed.


(** ** The feasibility test on doubles *)

Lemma fits_ltb (keys : list Resource) (server : F64.Server) (inst : F64.Inst)
    (caps : F64.Vec) :
  F64.Script.fits keys server inst caps =
  forallb (fun k => negb (F64.get caps k <? F64.get (F64.usage server) k
                                            + F64.get (F64.demand inst) k)%float) keys.
Proof.
  induction keys as [|k keys IH]; simpl; [done|]. rewrite IH. by destruct (_ <? _)%float.
Qed.

Lemma forallb_keys (f : Resource -> bool) :
  forallb f RESOURCE_KEYS = true <-> forall k, f k = true.
Proof.
  unfold RESOURCE_KEYS. simpl. rewrite !andb_true_iff. split.
  - intros H k. destruct k; tauto.
  - intros H. by rewrite !H.
Qed.

Lemma can_host1_admits (server : F64.Server) (inst : F64.Inst) (caps : F64.Vec) :
  F64.Script1.can_host server inst caps = true <-> F64.admits server inst caps.
Proof.
  unfold F64.Script1.can_host, F64.admits.
  destruct (bool_decide_reflect (F64.Servicio inst ∈ F64.services server)) as [Hin|Hnotin].
  - split; [done | by intros [? _]].
  - rewrite forallb_keys. tauto.
Qed.

Lemma can_host0_no_excess (server : F64.Server) (inst : F64.Inst) (caps : F64.Vec) :
  F64.Script.can_host server inst caps = true <->
  (F64.Servicio inst ∉ F64.services server) /\
  forall k, (F64.get caps k <? F64.get (F64.usage server) k
                               + F64.get (F64.demand inst) k)%float = false.
Proof.
  unfold F64.Script.can_host. rewrite fits_ltb.
  destruct (bool_decide_reflect (F64.Servicio inst ∈ F64.services server)) as [Hin|Hnotin].
  - split; [done | by intros [? _]].
  - rewrite forallb_keys. split.
    + intros H. split; [done|]. intros k. apply negb_true_iff, H.
    + intros [_ H] k. apply negb_true_iff, H.
Qed.

(** Without [nan] the two tests are one function. *)
Lemma can_host_agree_comparable (server : F64.Server) (inst : F64.Inst) (caps : F64.Vec) :
  F64.comparable server inst caps ->
  F64.Script.can_host server inst caps = F64.Script1.can_host server inst caps.
Proof.
  intros H. unfold F64.Script.can_host, F64.Script1.can_host. rewrite fits_ltb.
  destruct (bool_decide _); [done|].
  induction RESOURCE_KEYS as [|k keys IH]; simpl; [done|].
  destruct (H k) as [Hsum Hcap].
  by rewrite IH, (ltb_negb_leb _ _ Hsum Hcap), negb_involutive.
Qed.

Lemma fits_reads (h : Store.Heap) (s i c : nat) (sv : F64.Server) (iv : F64.Inst)
    (cv : F64.Vec) (keys : list Resource) :
  Store.is_server h s sv -> Store.is_inst h i iv -> Store.is_caps h c cv ->
  Store.Script.fits keys s i c h = Store.Returns (F64.Script.fits keys sv iv cv) h.
Proof.
  intros (d & Hs & rs & -> & _) Hi Hc.
  induction keys as [|k keys IH]; simpl; [done|].
  rewrite (bind_Returns _ _ _ _ _ (getitem_Returns _ _ _ k Hs)).
  rewrite (bind_Returns _ _ _ _ _ (getitem_Returns _ _ _ k Hi)).
  rewrite (bind_Returns _ _ _ _ _ (getitem_Returns _ _ _ k Hc)). simpl.
  by destruct (_ <? _)%float.
Qed.

Lemma can_host0_reads (h : Store.Heap) (s i c : nat) (sv : F64.Server)
    (iv : F64.Inst) (cv : F64.Vec) :
  Store.is_server h s sv -> Store.is_inst h i iv -> Store.is_caps h c cv ->
  Store.Script.can_host s i c h = Store.Returns (F64.Script.can_host sv iv cv) h.
Proof.
  intros Hs Hi Hc. unfold Store.Script.can_host, F64.Script.can_host.
  pose proof (fits_reads h s i c sv iv cv RESOURCE_KEYS Hs Hi Hc) as Hfits.
  destruct Hs as (d & Hs & rs & -> & _).
  rewrite (bind_Returns _ _ _ _ _ (get_Servicio_Returns _ _ _ _ Hi)).
  rewrite (bind_Returns _ _ _ _ _ (get_services_Returns _ _ _ _ _ _ Hs)).
  by destruct (bool_decide _).
Qed.

(** C4, the claim as stated fails.  In exact arithmetic a used core
    plus [2^-60] of a core exceeds the capacity of one core, but the
    sum of the two doubles is rounded to [1.0] and [can_host] answers
    [True].  And when a sum is not a number, [can_host] of [script.py]
    answers [True], since [nan > caps[k]] is false, although no sum is
    at most the capacity; [can_host] of [script1.py] answers [False]. *)
Lemma can_host_accepts_excess :
  F64.Script1.can_host Inputs64.serverFull Inputs64.sliver Inputs64.caps1 = true /\
  (exists u d c : Q,
     F64.exact (F64.get (F64.usage Inputs64.serverFull) CPU) = Some u /\
     F64.exact (F64.get (F64.demand Inputs64.sliver) CPU) = Some d /\
     F64.exact (F64.get Inputs64.caps1 CPU) = Some c /\
     (c < u + d)%Q) /\
  F64.Script.can_host Inputs64.serverFull Inputs64.undefinedCPU Inputs64.caps1 = true /\
  F64.Script1.can_host Inputs64.serverFull Inputs64.undefinedCPU Inputs64.caps1 = false /\
  ~ F64.admits Inputs64.serverFull Inputs64.undefinedCPU Inputs64.caps1.
Proof.
  split; [by vm_compute|]. split.
  { exists 1%Q, (1 # 1152921504606846976)%Q, 1%Q. by vm_compute. }
  split; [by vm_compute|]. split; [by vm_compute|].
  intros H%can_host1_admits. by vm_compute in H.
Qed.

(** C4.  On a store in which the three addresses stand for a server, a
    replica and the capacities, both [can_host] return their answer and
    leave the store as it was.  Both answer [False] when the service of
    the replica is already on the server.  Otherwise [can_host] of
    [script1.py] answers [True] exactly when in every dimension the
    double-precision sum of usage and demand is at most the capacity,
    and [can_host] of [script.py] exactly when in no dimension that sum
    is greater than the capacity; the two answers are the same unless a
    sum or a capacity is [nan]. *)
Theorem can_host_rounded_sum (h : Store.Heap) (s i c : nat) (sv : F64.Server)
    (iv : F64.Inst) (cv : F64.Vec) :
  Store.view_server h s = Some sv ->
  Store.view_inst h i = Some iv ->
  Store.view_caps h c = Some cv ->
  exists b1 b0 : bool,
    Store.can_host s i c h = Store.Returns b1 h /\
    Store.Script.can_host s i c h = Store.Returns b0 h /\
    (F64.Servicio iv ∈ F64.services sv -> b1 = false /\ b0 = false) /\
    (b1 = true <-> F64.admits sv iv cv) /\
    (b0 = true <->
     (F64.Servicio iv ∉ F64.services sv) /\
     forall k, (F64.get cv k <? F64.get (F64.usage sv) k
                                + F64.get (F64.demand iv) k)%float = false) /\
    (F64.comparable sv iv cv -> b0 = b1).
Proof.
  intros Hs%view_server_Some Hi%view_inst_Some Hc%view_caps_Some.
  exists (F64.Script1.can_host sv iv cv), (F64.Script.can_host sv iv cv).
  split; [by apply can_host_reads|]. split; [by apply can_host0_reads|].
  split; [|split; [apply can_host1_admits|split;
                     [apply can_host0_no_excess|apply can_host_agree_comparable]]].
  intros Hin. unfold F64.Script1.can_host, F64.Script.can_host.
  by rewrite bool_decide_eq_true_2.
Qed.

Lemma can_host_rounded_sum_witness :
  Store.view_server Inputs64.storeFull 3 = Some Inputs64.serverFull /\
  Store.view_inst Inputs64.storeFull 2 = Some Inputs64.sliver /\
  Store.view_caps Inputs64.storeFull 0 = Some Inputs64.caps1 /\
  exists b1 b0 : bool,
    Store.can_host 3 2 0 Inputs64.storeFull = Store.Returns b1 Inputs64.storeFull /\
    Store.Script.can_host 3 2 0 Inputs64.storeFull = Store.Returns b0 Inputs64.storeFull /\
    (F64.Servicio Inputs64.sliver ∈ F64.services Inputs64.serverFull ->
     b1 = false /\ b0 = false) /\
    (b1 = true <-> F64.admits Inputs64.serverFull Inputs64.sliver Inputs64.caps1) /\
    (b0 = true <->
     (F64.Servicio Inputs64.sliver ∉ F64.services Inputs64.serverFull) /\
     forall k, (F64.get Inputs64.caps1 k <? F64.get (F64.usage Inputs64.serverFull) k
                  + F64.get (F64.demand Inputs64.sliver) k)%float = false) /\
    (F64.comparable Inputs64.serverFull Inputs64.sliver Inputs64.caps1 -> b0 = b1).
Proof.
  assert (Hs : Store.view_server Inputs64.storeFull 3 = Some Inputs64.serverFull)
    by reflexivity.
  assert (Hi : Store.view_inst Inputs64.storeFull 2 = Some Inputs64.sliver) by reflexivity.
  assert (Hc : Store.view_caps Inputs64.storeFull 0 = Some Inputs64.caps1) by reflexivity.
  exact (conj Hs (conj Hi (conj Hc
           (can_host_rounded_sum Inputs64.storeFull 3 2 0 _ _ _ Hs Hi Hc)))).
Defined.

(** ** The tie-break on doubles *)

Lemma eqb_not_ltb (x y : float) : (x =? y)%float = true -> (x <? y)%float = false.
Proof. rewrite eqb_fcmp, ltb_fcmp. by destruct (F64.fcmp x y) as [[]|]. Qed.

Lemma nan_not_ltb (x y : float) :
  is_nan x = true \/ is_nan y = true -> (x <? y)%float = false.
Proof.
  intros H. destruct (x <? y)%float eqn:Hlt; [|done].
  rewrite ltb_fcmp in Hlt. unfold F64.fcmp in Hlt.
  assert (Hx : forall z, is_nan z = true -> FloatOps.Prim2SF z = SpecFloat.S754_nan).
  { intros z Hz. unfold FloatOps.Prim2SF. by rewrite Hz. }
  destruct H as [H|H]; rewrite (Hx _ H) in Hlt; [done|].
  by destruct (FloatOps.Prim2SF x) as [[]|[]| |[]].
Qed.

(** C6, the claim as stated fails.  The critical ordering, which
    starts with [Memoria], and the ordering that starts with [CPU] pack
    the same three replicas on two servers each.  The two plans have the
    same total spare capacity: in exact arithmetic, and also when the
    formula of the specification is evaluated in double precision.  The
    code leaves out the number of servers and finds [0.1875] for the
    plan found first and [0.18749999999999989] for the second: the
    second replaces the first.  This is so with either summation. *)
Lemma equal_spare_replaces_incumbent :
  F64.Script1.crit_order F64.sum_left Inputs64.replicas Inputs64.capsMix
    = Ok Inputs64.orderMemoria /\
  F64.Script1.crit_order F64.sum_compensated Inputs64.replicas Inputs64.capsMix
    = Ok Inputs64.orderMemoria /\
  F64.Script1.ffd Inputs64.replicas Inputs64.capsMix Inputs64.orderMemoria
    = Ok Inputs64.planMemoria /\
  F64.Script1.ffd Inputs64.replicas Inputs64.capsMix RESOURCE_KEYS = Ok Inputs64.planCPU /\
  length Inputs64.planCPU = length Inputs64.planMemoria /\
  (exists q, F64.exact_spare Inputs64.capsMix Inputs64.planCPU = Some q /\
             F64.exact_spare Inputs64.capsMix Inputs64.planMemoria = Some q) /\
  F64.total_spare F64.sum_left Inputs64.capsMix Inputs64.planCPU
    = F64.total_spare F64.sum_left Inputs64.capsMix Inputs64.planMemoria /\
  F64.total_spare F64.sum_compensated Inputs64.capsMix Inputs64.planCPU
    = F64.total_spare F64.sum_compensated Inputs64.capsMix Inputs64.planMemoria /\
  F64.Script1.consider F64.sum_left Inputs64.capsMix (Some Inputs64.planMemoria)
    Inputs64.planCPU = Some Inputs64.planCPU /\
  F64.Script1.consider F64.sum_compensated Inputs64.capsMix (Some Inputs64.planMemoria)
    Inputs64.planCPU = Some Inputs64.planCPU /\
  fst (F64.Script1.best_plan F64.sum_left Inputs64.replicas Inputs64.capsMix rng0)
    = Ok (Some Inputs64.planCPU) /\
  fst (F64.Script1.best_plan F64.sum_compensated Inputs64.replicas Inputs64.capsMix rng0)
    = Ok (Some Inputs64.planCPU) /\
  Inputs64.planCPU <> Inputs64.planMemoria.
Proof.
  repeat (split; [by vm_compute|]).
  split; [eexists; split; by vm_compute|].
  repeat (split; [by vm_compute|]).
  discriminate.
Qed.

(** C6.  Between two plans of equal server counts the loop compares
    what the capacity of one server leaves of each: the sum over the
    resources of the capacity minus the usage of all the servers,
    without the number of servers, every operation in double precision.
    It keeps the newcomer when this is smaller for it than for the
    incumbent, and the incumbent, found first, in every other case: when
    the two values are equal, and when one of them is not a number. *)
Theorem tie_break_rounded_spare (py_sum : list float -> float) (caps : F64.Vec)
    (best plan : list F64.Server) :
  length plan = length best ->
  F64.Script1.consider py_sum caps (Some best) plan
    = Some (if (F64.capacity_left py_sum caps plan
                <? F64.capacity_left py_sum caps best)%float
            then plan else best) /\
  ((F64.capacity_left py_sum caps plan =? F64.capacity_left py_sum caps best)%float = true ->
   F64.Script1.consider py_sum caps (Some best) plan = Some best) /\
  (is_nan (F64.capacity_left py_sum caps plan) = true \/
   is_nan (F64.capacity_left py_sum caps best) = true ->
   F64.Script1.consider py_sum caps (Some best) plan = Some best).
Proof.
  intros Hlen.
  assert (H : F64.Script1.consider py_sum caps (Some best) plan
              = Some (if (F64.capacity_left py_sum caps plan
                          <? F64.capacity_left py_sum caps best)%float
                      then plan else best)).
  { unfold F64.Script1.consider. rewrite Hlen, Nat.ltb_irrefl, Nat.eqb_refl.
    change (F64.Script1.spare py_sum caps) with (F64.capacity_left py_sum caps).
    by destruct (_ <? _)%float. }
  split; [done|]. rewrite H. split.
  - intros Heq. by rewrite (eqb_not_ltb _ _ Heq).
  - intros Hnan. by rewrite (nan_not_ltb _ _ Hnan).
Qed.

Lemma tie_break_rounded_spare_witness :
  length Inputs64.planCPU = length Inputs64.planMemoria /\
  F64.Script1.consider F64.sum_left Inputs64.capsMix (Some Inputs64.planMemoria)
    Inputs64.planCPU
    = Some (if (F64.capacity_left F64.sum_left Inputs64.capsMix Inputs64.planCPU
                <? F64.capacity_left F64.sum_left Inputs64.capsMix Inputs64.planMemoria)%float
            then Inputs64.planCPU else Inputs64.planMemoria).
Proof.
  assert (H : length Inputs64.planCPU = length Inputs64.planMemoria) by reflexivity.
  exact (conj H (proj1 (tie_break_rounded_spare F64.sum_left Inputs64.capsMix
                          Inputs64.planMemoria Inputs64.planCPU H))).
Defined.


(** ** The sort of the packers on doubles *)

Lemma f_py_div_nonzero (x y : float) :
  (y =? 0)%float = false -> F64.py_div x y = Ok (x / y)%float.
Proof. intros H. unfold F64.py_div. by rewrite H. Qed.

Lemma f_py_div_zero (x y : float) :
  (y =? 0)%float = true -> F64.py_div x y = Raise ZeroDivisionError.
Proof. intros H. unfold F64.py_div. by rewrite H. Qed.

Lemma f_length_key (caps : F64.Vec) (order : list Resource) (x : F64.Inst) :
  length (F64.key caps order x) = length order.
Proof. unfold F64.key. apply length_map. Qed.

Lemma f_sort_key_nonzero (caps : F64.Vec) (order : list Resource) (x : F64.Inst) :
  F64.nonzero_on caps order -> F64.Script1.sort_key caps order x = Ok (F64.key caps order x).
Proof.
  intros H. unfold F64.Script1.sort_key, F64.key. apply traverse_pure.
  eapply Forall_impl; [exact H|]. intros r Hr. by apply f_py_div_nonzero.
Qed.

Lemma f_instances_sorted_nonzero (l : list F64.Inst) (caps : F64.Vec)
    (order : list Resource) :
  F64.nonzero_on caps order ->
  F64.Script1.instances_sorted l caps order
  = Ok (sort_by F64.tuple_lt (F64.key caps order) l).
Proof.
  intros H. unfold F64.Script1.instances_sorted.
  rewrite (traverse_pure _ (fun x => (F64.key caps order x, x))).
  - simpl. by rewrite sorted_reverse_sort_by.
  - apply Forall_forall. intros x _. by rewrite f_sort_key_nonzero.
Qed.

Lemma f_ffd_zero (l : list F64.Inst) (caps : F64.Vec) (order : list Resource) :
  l <> [] -> ~ F64.nonzero_on caps order ->
  F64.Script1.ffd l caps order = Raise ZeroDivisionError.
Proof.
  intros Hl Hz. destruct l as [|x l]; [done|].
  apply not_Forall_Exists in Hz; [|intros k; apply _].
  apply Exists_exists in Hz as (k & Hk & Hzero).
  apply not_false_is_true in Hzero.
  unfold F64.Script1.ffd, F64.Script1.instances_sorted.
  assert (Hx : F64.Script1.sort_key caps order x = Raise ZeroDivisionError).
  { unfold F64.Script1.sort_key. eapply traverse_Raise; [exact Hk|].
    by apply f_py_div_zero. }
  rewrite (traverse_Raise _ (x :: l) x ZeroDivisionError); [done | apply list_elem_of_here|].
  by rewrite Hx.
Qed.

(** C5, the claim as stated fails.  With a capacity of zero on the
    ordering there is no key: [ffd] raises.  The keys are the quotients
    in double precision: the two replicas below have CPU demands that
    differ in the last bit, over three quarters of a core both quotients
    round to one double, and [ffd] leaves the replica of the smaller
    demand first.  [first_fit_decreasing] of [script.py] sorts by
    another key, the demands themselves, and puts the other first. *)
Lemma ffd_key_undefined_or_rounded :
  F64.Script1.ffd [Inputs64.lastBitA; Inputs64.lastBitB] Inputs64.capsNoCPU [CPU]
    = Raise ZeroDivisionError /\
  F64.Script1.instances_sorted [Inputs64.lastBitA; Inputs64.lastBitB]
      Inputs64.capsThreeQuarters [CPU]
    = Ok [Inputs64.lastBitA; Inputs64.lastBitB] /\
  (exists a b c : Q,
     F64.exact (F64.get (F64.demand Inputs64.lastBitA) CPU) = Some a /\
     F64.exact (F64.get (F64.demand Inputs64.lastBitB) CPU) = Some b /\
     F64.exact (F64.get Inputs64.capsThreeQuarters CPU) = Some c /\
     (a / c < b / c)%Q) /\
  F64.Script.instances_sorted [Inputs64.lastBitA; Inputs64.lastBitB]
    = [Inputs64.lastBitB; Inputs64.lastBitA].
Proof.
  split; [by vm_compute|]. split; [by vm_compute|]. split; [|by vm_compute].
  eexists _, _, _. split; [by vm_compute|]. split; [by vm_compute|].
  split; [by vm_compute|]. by vm_compute.
Qed.

(** C5.  When no capacity of the ordering is zero and no quotient is
    [nan], [ffd] runs its placement loop on the replicas sorted by the
    tuple of the double-precision quotients [demand[d] / caps[d]], [d]
    ranging over the ordering, first resource first: the sorted list is
    a permutation of the input, no replica is followed by one of a
    greater key, and the replicas whose keys are equal keep the order of
    the input.  When a capacity of the ordering is zero and there is a
    replica, [ffd] raises [ZeroDivisionError].  [first_fit_decreasing]
    of [script.py] sorts in the same way by the tuple of the demands of
    CPU, network and memory. *)
Theorem ffd_sorts_by_rounded_key (l : list F64.Inst) (caps : F64.Vec)
    (order : list Resource) :
  (F64.nonzero_on caps order ->
   Forall (fun x => F64.no_nan (F64.key caps order x)) l ->
   exists sorted,
     F64.Script1.instances_sorted l caps order = Ok sorted /\
     F64.Script1.ffd l caps order = Ok (F64.pack F64.Script1.can_host caps sorted) /\
     F64.sorted_by (F64.key caps order) l sorted) /\
  (l <> [] -> ~ F64.nonzero_on caps order ->
   F64.Script1.ffd l caps order = Raise ZeroDivisionError) /\
  (Forall (fun x => F64.no_nan (F64.cpu_red_memoria x)) l ->
   exists sorted,
     F64.Script.instances_sorted l = sorted /\
     F64.Script.first_fit_decreasing l caps = F64.pack F64.Script.can_host caps sorted /\
     F64.sorted_by F64.cpu_red_memoria l sorted).
Proof.
  split; [|split; [apply f_ffd_zero|]].
  - intros Hnz Hnan. exists (sort_by F64.tuple_lt (F64.key caps order) l).
    split; [by apply f_instances_sorted_nonzero|].
    split; [unfold F64.Script1.ffd; by rewrite f_instances_sorted_nonzero|].
    apply (sort_by_sorted_by _ (length order)).
    eapply Forall_impl; [exact Hnan|]. intros x Hx. split; [done|apply f_length_key].
  - intros Hnan. exists (sort_by F64.tuple_lt F64.cpu_red_memoria l).
    assert (Hsorted : F64.Script.instances_sorted l
                      = sort_by F64.tuple_lt F64.cpu_red_memoria l).
    { unfold F64.Script.instances_sorted.
      by rewrite <- (sorted_reverse_sort_by F64.tuple_lt F64.cpu_red_memoria). }
    split; [done|].
    split; [unfold F64.Script.first_fit_decreasing; by rewrite Hsorted|].
    apply (sort_by_sorted_by _ 3).
    eapply Forall_impl; [exact Hnan|]. by intros x Hx.
Qed.

Lemma ffd_sorts_by_rounded_key_witness :
  F64.nonzero_on Inputs64.capsThreeQuarters [CPU] /\
  Forall (fun x => F64.no_nan (F64.key Inputs64.capsThreeQuarters [CPU] x))
         [Inputs64.lastBitA; Inputs64.lastBitB] /\
  exists sorted,
    F64.Script1.instances_sorted [Inputs64.lastBitA; Inputs64.lastBitB]
        Inputs64.capsThreeQuarters [CPU] = Ok sorted /\
    F64.Script1.ffd [Inputs64.lastBitA; Inputs64.lastBitB] Inputs64.capsThreeQuarters [CPU]
      = Ok (F64.pack F64.Script1.can_host Inputs64.capsThreeQuarters sorted) /\
    F64.sorted_by (F64.key Inputs64.capsThreeQuarters [CPU])
                  [Inputs64.lastBitA; Inputs64.lastBitB] sorted.
Proof.
  assert (H1 : F64.nonzero_on Inputs64.capsThreeQuarters [CPU])
    by (repeat constructor).
  assert (H2 : Forall (fun x => F64.no_nan (F64.key Inputs64.capsThreeQuarters [CPU] x))
                      [Inputs64.lastBitA; Inputs64.lastBitB])
    by (repeat constructor).
  exact (conj H1 (conj H2
           (proj1 (ffd_sorts_by_rounded_key [Inputs64.lastBitA; Inputs64.lastBitB]
                     Inputs64.capsThreeQuarters [CPU]) H1 H2))).
Defined.


(** ** Two runs *)

Lemma f_candidates_same_draws (order0 : list Resource) (g1 g2 : Rng) :
  same_draws 100 g1 g2 ->
  fst (F64.Script1.candidates order0 g1) = fst (F64.Script1.candidates order0 g2).
Proof. apply candidates_same_draws. Qed.

Lemma f_best_plan_same_draws (py_sum : list float -> float) (l : list F64.Inst)
    (cv : F64.Vec) (g1 g2 : Rng) :
  same_draws 100 g1 g2 ->
  fst (F64.Script1.best_plan py_sum l cv g1) = fst (F64.Script1.best_plan py_sum l cv g2).
Proof.
  intros H. unfold F64.Script1.best_plan.
  destruct (F64.Script1.crit_order py_sum l cv) as [order0|e]; [|done].
  pose proof (f_candidates_same_draws order0 g1 g2 H) as Hc.
  destruct (F64.Script1.candidates order0 g1) as [o1 g1'],
           (F64.Script1.candidates order0 g2) as [o2 g2'].
  simpl in *. by subst.
Qed.

(** What a run of [ffd] shows to its caller is the plan of the
    functional model. *)
Lemma ffd_observe (h : Store.Heap) (rs : list nat) (c : nat) (l : list F64.Inst)
    (cv : F64.Vec) (order : list Resource) :
  mapM (Store.view_inst h) rs = Some l -> Store.view_caps h c = Some cv ->
  Store.observe (Store.ffd rs c order h) = Some (F64.Script1.ffd l cv order).
Proof.
  intros Hrs%view_insts_Some Hc%view_caps_Some.
  pose proof (ffd_runs h rs c l cv order Hc Hrs) as H.
  destruct (F64.Script1.ffd l cv order) as [plan|e].
  - destruct H as (sd & -> & Hsd). simpl.
    apply rep_is_server, view_plan_Some in Hsd. by rewrite Hsd.
  - by rewrite H.
Qed.

Lemma best_plan_observe (py_sum : list float -> float) (h : Store.Heap) (rs : list nat)
    (c : nat) (l : list F64.Inst) (cv : F64.Vec) (g : Rng) :
  mapM (Store.view_inst h) rs = Some l -> Store.view_caps h c = Some cv ->
  Store.observe_best (Store.best_plan py_sum rs c g h)
    = Some (fst (F64.Script1.best_plan py_sum l cv g)).
Proof.
  intros Hrs%view_insts_Some Hc%view_caps_Some.
  pose proof (best_plan_runs py_sum h rs c l cv g Hc Hrs) as H.
  destruct (F64.Script1.best_plan py_sum l cv g) as [[pbest|e] g'].
  - destruct H as (ext & best & -> & Hbest). simpl.
    destruct best as [b|], pbest as [pb|]; try done. simpl in Hbest.
    apply view_plan_Some in Hbest. by rewrite Hbest.
  - by rewrite H.
Qed.

(** The store a run of [ffd] leaves: the plan behind the addresses
    returned, the replicas and the capacities as they were. *)
Lemma ffd_leaves (h : Store.Heap) (rs : list nat) (c : nat) (l : list F64.Inst)
    (cv : F64.Vec) (order : list Resource) (p : list nat) (h' : Store.Heap) :
  mapM (Store.view_inst h) rs = Some l -> Store.view_caps h c = Some cv ->
  Store.ffd rs c order h = Store.Returns p h' ->
  exists plan ext,
    h' = h ++ ext /\
    F64.Script1.ffd l cv order = Ok plan /\
    mapM (Store.view_server h') p = Some plan /\
    mapM (Store.view_inst h') rs = Some l /\
    Store.view_caps h' c = Some cv.
Proof.
  intros Hrs%view_insts_Some Hc%view_caps_Some Hrun.
  pose proof (ffd_runs h rs c l cv order Hc Hrs) as H.
  destruct (F64.Script1.ffd l cv order) as [plan|e]; [|congruence].
  destruct H as (sd & Hrun' & Hsd). rewrite Hrun in Hrun'. injection Hrun' as -> ->.
  exists plan, sd. split; [done|]. split; [done|].
  split; [by apply view_plan_Some, rep_is_server|].
  split; [|by apply view_caps_Some, is_caps_app].
  apply view_insts_Some. eapply Forall2_impl; [exact Hrs|].
  intros r x. apply is_inst_app.
Qed.

(** C8.  A run of the packer shows its caller the plan that the
    replicas, the capacities and the ordering determine, or the
    exception: it does not depend on the addresses of the dictionaries,
    on what else the store holds, nor on the generator.  So two runs on
    stores in which the arguments stand for the same replica list and
    capacities show the same plan.  In particular a second run in the
    store that a first run left shows the same plan as the first, whose
    servers are still what they were, and the replicas and capacities
    still are what they were before the first run.  A run of the
    optimizer shows the plan that these and the hundred draws of its
    sample determine: from two states of the generator that yield the
    same draws, as after seeding twice with one seed, two runs show the
    same plan. *)
Theorem packing_deterministic (py_sum : list float -> float) (h1 h2 : Store.Heap)
    (rs1 rs2 : list nat) (c1 c2 : nat) (l : list F64.Inst) (cv : F64.Vec)
    (order : list Resource) (g1 g2 : Rng) :
  mapM (Store.view_inst h1) rs1 = Some l -> Store.view_caps h1 c1 = Some cv ->
  mapM (Store.view_inst h2) rs2 = Some l -> Store.view_caps h2 c2 = Some cv ->
  same_draws 100 g1 g2 ->
  (exists result,
     Store.observe (Store.ffd rs1 c1 order h1) = Some result /\
     Store.observe (Store.ffd rs2 c2 order h2) = Some result) /\
  (forall p h', Store.ffd rs1 c1 order h1 = Store.Returns p h' ->
     exists p' h'' plan,
       Store.ffd rs1 c1 order h' = Store.Returns p' h'' /\
       mapM (Store.view_server h'') p = Some plan /\
       mapM (Store.view_server h'') p' = Some plan /\
       mapM (Store.view_inst h'') rs1 = Some l /\
       Store.view_caps h'' c1 = Some cv) /\
  (exists result,
     Store.observe_best (Store.best_plan py_sum rs1 c1 g1 h1) = Some result /\
     Store.observe_best (Store.best_plan py_sum rs2 c2 g2 h2) = Some result).
Proof.
  intros Hrs1 Hc1 Hrs2 Hc2 Hg. split; [|split].
  - exists (F64.Script1.ffd l cv order). split; by apply ffd_observe.
  - intros p h' Hrun.
    destruct (ffd_leaves _ _ _ _ _ _ _ _ Hrs1 Hc1 Hrun)
      as (plan & ext & -> & Hplan & Hp & Hrs' & Hc').
    pose proof (ffd_runs (h1 ++ ext) rs1 c1 l cv order
                  (proj1 (view_caps_Some _ _ _) Hc')
                  (proj1 (view_insts_Some _ _ _) Hrs')) as Hrun2.
    rewrite Hplan in Hrun2. destruct Hrun2 as (sd & Hrun2 & Hsd).
    destruct (ffd_leaves _ _ _ _ _ _ _ _ Hrs' Hc' Hrun2)
      as (plan' & ext' & _ & Hplan' & Hp' & Hrs'' & Hc'').
    assert (plan' = plan) as -> by congruence.
    eexists _, _, plan. split; [exact Hrun2|]. split; [|by repeat split].
    apply view_plan_Some. apply view_plan_Some in Hp.
    eapply Forall2_impl; [exact Hp|]. intros r s. apply is_server_app.
  - exists (fst (F64.Script1.best_plan py_sum l cv g1)). split; [by apply best_plan_observe|].
    rewrite (f_best_plan_same_draws py_sum l cv g1 g2 Hg). by apply best_plan_observe.
Qed.

Lemma packing_deterministic_witness :
  mapM (Store.view_inst Inputs64.store1) [1; 2; 3]%nat = Some Inputs64.replicas /\
  Store.view_caps Inputs64.store1 0 = Some Inputs64.capsMix /\
  mapM (Store.view_inst Inputs64.store2) [3; 1; 0]%nat = Some Inputs64.replicas /\
  Store.view_caps Inputs64.store2 4 = Some Inputs64.capsMix /\
  same_draws 100 rng0 rng1 /\
  (exists result,
     Store.observe (Store.ffd [1; 2; 3]%nat 0 RESOURCE_KEYS Inputs64.store1) = Some result /\
     Store.observe (Store.ffd [3; 1; 0]%nat 4 RESOURCE_KEYS Inputs64.store2) = Some result) /\
  (exists result,
     Store.observe_best
       (Store.best_plan F64.sum_compensated [1; 2; 3]%nat 0 rng0 Inputs64.store1)
     = Some result /\
     Store.observe_best
       (Store.best_plan F64.sum_compensated [3; 1; 0]%nat 4 rng1 Inputs64.store2)
     = Some result).
Proof.
  assert (H1 : mapM (Store.view_inst Inputs64.store1) [1; 2; 3]%nat = Some Inputs64.replicas)
    by reflexivity.
  assert (H2 : Store.view_caps Inputs64.store1 0 = Some Inputs64.capsMix) by reflexivity.
  assert (H3 : mapM (Store.view_inst Inputs64.store2) [3; 1; 0]%nat = Some Inputs64.replicas)
    by reflexivity.
  assert (H4 : Store.view_caps Inputs64.store2 4 = Some Inputs64.capsMix) by reflexivity.
  assert (H5 : same_draws 100 rng0 rng1).
  { intros i Hi. simpl. destruct (Nat.ltb_spec i 100); [done | lia]. }
  pose proof (packing_deterministic F64.sum_compensated Inputs64.store1 Inputs64.store2
                [1; 2; 3]%nat [3; 1; 0]%nat 0 4 Inputs64.replicas Inputs64.capsMix
                RESOURCE_KEYS rng0 rng1 H1 H2 H3 H4 H5) as H.
  exact (conj H1 (conj H2 (conj H3 (conj H4 (conj H5
           (conj (proj1 H) (proj2 (proj2 H)))))))).
Defined.


(** ** Invariants of the packing loop on doubles *)

Section PackInvariants64.

Variable can_host : F64.Server -> F64.Inst -> F64.Vec -> bool.
Variable caps : F64.Vec.

Lemma f_first_fit_Some (servers servers' : list F64.Server) (inst : F64.Inst) :
  F64.first_fit can_host servers inst caps = Some servers' ->
  exists before s after,
    servers = before ++ s :: after /\
    servers' = before ++ F64.host s inst :: after /\
    can_host s inst caps = true.
Proof.
  revert servers'. induction servers as [|s rest IH]; intros servers' H; simpl in H.
  - discriminate.
  - destruct (can_host s inst caps) eqn:Hs.
    + injection H as <-. by exists [], s, rest.
    + destruct (F64.first_fit can_host rest inst caps) as [rest'|] eqn:Hrest; [|discriminate].
      injection H as <-.
      destruct (IH rest' eq_refl) as (before & s0 & after & -> & -> & Hs0).
      by exists (s :: before), s0, after.
Qed.

Lemma f_assign_Forall (P : F64.Server -> Prop) (servers : list F64.Server)
    (inst : F64.Inst) :
  (forall s, P s -> can_host s inst caps = true -> P (F64.host s inst)) ->
  P (F64.new_server servers inst) ->
  Forall P servers -> Forall P (F64.assign can_host caps servers inst).
Proof.
  intros Hhost Hnew Hall. unfold F64.assign.
  destruct (F64.first_fit can_host servers inst caps) as [servers'|] eqn:H.
  - apply f_first_fit_Some in H as (before & s & after & -> & -> & Hs).
    apply Forall_app in Hall as [Hb Ha]. inversion Ha; subst.
    apply Forall_app. split; [done|]. constructor; auto.
  - apply Forall_app. split; [done|]. by repeat constructor.
Qed.

Lemma f_pack_Forall (P : F64.Server -> Prop) (l : list F64.Inst) :
  (forall s inst, P s -> can_host s inst caps = true -> P (F64.host s inst)) ->
  (forall ss inst, P (F64.new_server ss inst)) ->
  Forall P (F64.pack can_host caps l).
Proof.
  intros Hhost Hnew. unfold F64.pack.
  assert (H : Forall P (@nil F64.Server)) by constructor. revert H.
  generalize (@nil F64.Server).
  induction l as [|inst l IH]; intros servers Hs; simpl; [done|].
  apply IH. apply f_assign_Forall; auto.
Qed.

End PackInvariants64.

Lemma f_usage_host (s : F64.Server) (inst : F64.Inst) (k : Resource) :
  F64.get (F64.usage (F64.host s inst)) k
  = (F64.get (F64.usage s) k + F64.get (F64.demand inst) k)%float.
Proof. by destruct k. Qed.

Lemma f_consider_cases (py_sum : list float -> float) (caps : F64.Vec)
    (best : option (list F64.Server)) (plan : list F64.Server) :
  F64.Script1.consider py_sum caps best plan = Some plan \/
  (exists b, best = Some b /\ F64.Script1.consider py_sum caps best plan = Some b).
Proof.
  unfold F64.Script1.consider. destruct best as [b|]; [|by left].
  repeat case_match; eauto.
Qed.

Lemma f_search_from_invariant (py_sum : list float -> float)
    (P : list F64.Server -> Prop) (l : list F64.Inst) (caps : F64.Vec)
    (orders : list (list Resource)) (acc : option (list F64.Server))
    (best : list F64.Server) :
  (forall order plan, F64.Script1.ffd l caps order = Ok plan -> P plan) ->
  (forall b, acc = Some b -> P b) ->
  foldM (fun best order => plan ← F64.Script1.ffd l caps order;
                           Ok (F64.Script1.consider py_sum caps best plan)) orders acc
    = Ok (Some best) ->
  P best.
Proof.
  intros Hffd. revert acc.
  induction orders as [|order orders IH]; intros acc Hacc; simpl.
  - intros [= ->]. by apply Hacc.
  - destruct (F64.Script1.ffd l caps order) as [plan|] eqn:Hplan; [|discriminate]. simpl.
    apply IH. intros b Hb.
    destruct (f_consider_cases py_sum caps acc plan) as [H|(b' & -> & H)];
      rewrite H in Hb; injection Hb as <-; eauto.
Qed.

Lemma f_best_plan_invariant (py_sum : list float -> float)
    (P : list F64.Server -> Prop) (l : list F64.Inst) (caps : F64.Vec) (g : Rng)
    (best : list F64.Server) :
  (forall order plan, F64.Script1.ffd l caps order = Ok plan -> P plan) ->
  fst (F64.Script1.best_plan py_sum l caps g) = Ok (Some best) -> P best.
Proof.
  intros Hffd. unfold F64.Script1.best_plan.
  destruct (F64.Script1.crit_order py_sum l caps) as [order0|]; [|discriminate].
  destruct (F64.Script1.candidates order0 g) as [orders g']. simpl.
  by apply f_search_from_invariant.
Qed.

Lemma f_ffd_Ok (l : list F64.Inst) (caps : F64.Vec) (order : list Resource)
    (plan : list F64.Server) :
  F64.Script1.ffd l caps order = Ok plan ->
  exists sorted, plan = F64.pack F64.Script1.can_host caps sorted.
Proof.
  unfold F64.Script1.ffd.
  destruct (F64.Script1.instances_sorted l caps order) as [sorted|]; [|discriminate].
  intros [= <-]. by exists sorted.
Qed.

(** What every packing run keeps, whichever the packer. *)
Lemma f_packing_run_invariant (P : list F64.Server -> Prop) (l : list F64.Inst)
    (caps : F64.Vec) (plan : list F64.Server) :
  (forall sorted, P (F64.pack F64.Script.can_host caps sorted)) ->
  (forall sorted, P (F64.pack F64.Script1.can_host caps sorted)) ->
  F64.packing_run l caps plan -> P plan.
Proof.
  intros H0 H1 [<- | order H | py_sum g H].
  - apply H0.
  - apply f_ffd_Ok in H as [sorted ->]. apply H1.
  - revert H. apply f_best_plan_invariant. intros order p [sorted ->]%f_ffd_Ok. apply H1.
Qed.

(** X2.  In the plan of every packing run every server hosts an
    instance, and its usage, for every resource key, is the demand of
    the first instance it hosts to which the demands of the others have
    been added in double precision, one after the other in the order
    in which the server received them. *)
Theorem usage_is_hosted_demand (l : list F64.Inst) (caps : F64.Vec)
    (plan : list F64.Server) :
  F64.packing_run l caps plan -> Forall F64.accumulated plan.
Proof.
  assert (H : forall can_host sorted,
                Forall F64.accumulated (F64.pack can_host caps sorted)).
  { intros can_host sorted. apply f_pack_Forall.
    - intros s inst Hs _. unfold F64.accumulated in *. cbn [F64.host F64.instances].
      destruct (F64.instances s) as [|x rest]; [done|]. simpl.
      intros k. rewrite map_app, fold_left_app. simpl.
      rewrite <- (Hs k). by destruct k.
    - intros ss inst k. by destruct k. }
  apply f_packing_run_invariant; intros sorted; apply H.
Qed.

Lemma usage_is_hosted_demand_witness :
  F64.packing_run Inputs64.replicas Inputs64.capsMix Inputs64.planCPU /\
  Forall F64.accumulated Inputs64.planCPU.
Proof.
  assert (H : F64.packing_run Inputs64.replicas Inputs64.capsMix Inputs64.planCPU)
    by (apply F64.run_best_plan with F64.sum_compensated rng0; vm_compute; reflexivity).
  exact (conj H (usage_is_hosted_demand _ _ _ H)).
Defined.

(** ** The critical ordering on doubles *)

Lemma f_ltb_asym (a b : float) :
  is_nan a = false -> is_nan b = false -> (a <? b)%float = true -> (b <? a)%float = false.
Proof. intros Ha Hb. f_cases a b Ha Hb c. by destruct c. Qed.

Lemma f_ltb_ge_trans (a b c : float) :
  is_nan a = false -> is_nan b = false -> is_nan c = false ->
  (a <? b)%float = false -> (b <? c)%float = false -> (a <? c)%float = false.
Proof.
  intros Ha Hb Hc.
  destruct (fcmp_total a b Ha Hb) as [c1 Hc1], (fcmp_total b c Hb Hc) as [c2 Hc2].
  rewrite !ltb_fcmp, Hc1, Hc2.
  destruct c1, c2; try done; intros _ _;
    by rewrite (fcmp_ge_trans a b c _ _ Hc1 Hc2).
Qed.

Lemma f_criticity_items (total caps : F64.Vec) (keys : list Resource)
    (crit : list (float * Resource)) :
  traverse (fun k => c ← F64.py_div (F64.get total k) (F64.get caps k); Ok (c, k)) keys
    = Ok crit ->
  crit = map (fun k => ((F64.get total k / F64.get caps k)%float, k)) keys.
Proof.
  intros H. apply traverse_Ok in H.
  induction H as [|k p keys crit Hp _ IH]; simpl; [done|].
  rewrite IH. f_equal. unfold F64.py_div in Hp.
  destruct (F64.get caps k =? 0)%float; [discriminate|].
  simpl in Hp. by injection Hp as <-.
Qed.

Lemma f_crit_order_Ok (py_sum : list float -> float) (l : list F64.Inst) (caps : F64.Vec)
    (order0 : list Resource) :
  F64.Script1.crit_order py_sum l caps = Ok order0 ->
  order0 = sort_by ltb (F64.criticity py_sum caps l) RESOURCE_KEYS.
Proof.
  unfold F64.Script1.crit_order.
  set (total := F64.tabulate _).
  destruct (traverse _ RESOURCE_KEYS) as [crit|] eqn:H; [|discriminate].
  apply f_criticity_items in H as ->.
  generalize RESOURCE_KEYS. intros keys.
  cbn [mbind Result_bind]. intros [= <-].
  rewrite (sorted_reverse_sort_by ltb (fun k => (F64.get total k / F64.get caps k)%float) keys).
  apply sort_by_ext. intros x y. unfold F64.criticity, total. by destruct x, y.
Qed.

(** X9.  The critical ordering [best_plan] computes is a permutation of
    the five resource keys.  When no criticity (total demand over
    capacity, as [sum] and the division in double precision give it) is
    [nan], no key is followed by one of a greater criticity, and keys of
    equal criticity keep the order of RESOURCE_KEYS. *)
Theorem crit_order_sorted (py_sum : list float -> float) (l : list F64.Inst)
    (caps : F64.Vec) (order0 : list Resource) :
  F64.Script1.crit_order py_sum l caps = Ok order0 ->
  order0 ≡ₚ RESOURCE_KEYS /\
  ((forall k, is_nan (F64.criticity py_sum caps l k) = false) ->
   StronglySorted (fun a b => (F64.criticity py_sum caps l b
                               <=? F64.criticity py_sum caps l a)%float = true) order0 /\
   forall k0,
     filter (fun k => (F64.criticity py_sum caps l k
                       =? F64.criticity py_sum caps l k0)%float = true) order0 =
     filter (fun k => (F64.criticity py_sum caps l k
                       =? F64.criticity py_sum caps l k0)%float = true) RESOURCE_KEYS).
Proof.
  intros ->%f_crit_order_Ok. split; [apply sort_by_perm|]. intros Hnan.
  set (crit := F64.criticity py_sum caps l) in *.
  assert (Hgood : Forall (fun k => is_nan (crit k) = false) RESOURCE_KEYS)
    by (apply Forall_forall; auto).
  split.
  - eapply StronglySorted_impl;
      [|apply (sort_by_decreasing_on ltb crit (fun x => is_nan x = false)
                 f_ltb_asym f_ltb_ge_trans RESOURCE_KEYS Hgood)].
    intros a b H. simpl in H.
    destruct (fcmp_total _ _ (Hnan a) (Hnan b)) as [c Hc].
    rewrite ltb_fcmp, Hc in H. rewrite leb_fcmp, fcmp_antisym, Hc. by destruct c.
  - intros k0.
    assert (Htie : forall k, tie ltb crit (crit k0) k <-> (crit k =? crit k0)%float = true).
    { intros k. unfold tie.
      destruct (fcmp_total _ _ (Hnan k) (Hnan k0)) as [c Hc].
      rewrite !ltb_fcmp, eqb_fcmp, (fcmp_antisym (crit k)), Hc.
      destruct c; simpl; intuition discriminate. }
    rewrite <- (list_filter_iff _ _ _ Htie).
    rewrite <- (list_filter_iff _ _ RESOURCE_KEYS Htie).
    apply (sort_by_stable_on ltb crit (fun x => is_nan x = false) f_ltb_ge_trans); auto.
Qed.

Lemma crit_order_sorted_witness :
  F64.Script1.crit_order F64.sum_compensated Inputs64.replicas Inputs64.capsMix
    = Ok Inputs64.orderMemoria /\
  Inputs64.orderMemoria ≡ₚ RESOURCE_KEYS.
Proof.
  assert (H : F64.Script1.crit_order F64.sum_compensated Inputs64.replicas Inputs64.capsMix
              = Ok Inputs64.orderMemoria)
    by (vm_compute; reflexivity).
  exact (conj H (proj1 (crit_order_sorted _ _ _ _ H))).
Defined.

(** ** Shared servers stay within the capacities *)

Lemma f_leb_not_ltb (x y : float) : (x <=? y)%float = true -> (y <? x)%float = false.
Proof.
  rewrite leb_fcmp, ltb_fcmp, (fcmp_antisym x y). by destruct (F64.fcmp x y) as [[]|].
Qed.

(** X19.  In the plan of every packing run a server that hosts more
    than one instance has, in no dimension, a usage greater than the
    capacity; in a plan of [ffd] or [best_plan] its usage is at most the
    capacity in every dimension.  Usage is the double-precision value
    the code stores, and the comparisons are those of doubles. *)
Theorem shared_server_within (l : list F64.Inst) (caps : F64.Vec) (plan : list F64.Server) :
  F64.packing_run l caps plan ->
  Forall (fun s => F64.shared s ->
                   forall k, (F64.get caps k <? F64.get (F64.usage s) k)%float = false) plan /\
  ((exists order, F64.Script1.ffd l caps order = Ok plan) \/
   (exists py_sum g, fst (F64.Script1.best_plan py_sum l caps g) = Ok (Some plan)) ->
   Forall (fun s => F64.shared s ->
                    forall k, (F64.get (F64.usage s) k <=? F64.get caps k)%float = true) plan).
Proof.
  assert (H1 : forall sorted,
             Forall (fun s => F64.shared s ->
                      forall k, (F64.get (F64.usage s) k <=? F64.get caps k)%float = true)
                    (F64.pack F64.Script1.can_host caps sorted)).
  { intros sorted. apply f_pack_Forall.
    - intros s inst _ Hfit _ k. rewrite f_usage_host.
      apply can_host1_admits in Hfit as [_ Hfit]. apply Hfit.
    - intros ss inst Hshared. unfold F64.shared in Hshared. simpl in Hshared. lia. }
  assert (H0 : forall sorted,
             Forall (fun s => F64.shared s ->
                      forall k, (F64.get caps k <? F64.get (F64.usage s) k)%float = false)
                    (F64.pack F64.Script.can_host caps sorted)).
  { intros sorted. apply f_pack_Forall.
    - intros s inst _ Hfit _ k. rewrite f_usage_host.
      apply can_host0_no_excess in Hfit as [_ Hfit]. apply Hfit.
    - intros ss inst Hshared. unfold F64.shared in Hshared. simpl in Hshared. lia. }
  intros Hrun. split.
  - revert Hrun. apply f_packing_run_invariant; [exact H0|].
    intros sorted. eapply Forall_impl; [apply H1|].
    intros s Hs Hshared k. by apply f_leb_not_ltb, Hs.
  - intros [[order H]|(py_sum & g & H)].
    + apply f_ffd_Ok in H as [sorted ->]. apply H1.
    + revert H. apply f_best_plan_invariant. intros order p [sorted ->]%f_ffd_Ok. apply H1.
Qed.

Lemma shared_server_within_witness :
  F64.packing_run [Inputs64.db; Inputs64.sliver] Inputs64.caps1
    [F64.mkServer "S1" (F64.vec 1 0 0 0 0) {[ "db"; "web" ]} [Inputs64.db; Inputs64.sliver]] /\
  Forall (fun s => F64.shared s ->
                   forall k, (F64.get Inputs64.caps1 k <? F64.get (F64.usage s) k)%float = false)
    [F64.mkServer "S1" (F64.vec 1 0 0 0 0) {[ "db"; "web" ]} [Inputs64.db; Inputs64.sliver]].
Proof.
  assert (H : F64.packing_run [Inputs64.db; Inputs64.sliver] Inputs64.caps1
                [F64.mkServer "S1" (F64.vec 1 0 0 0 0) {[ "db"; "web" ]}
                              [Inputs64.db; Inputs64.sliver]])
    by (apply F64.run_ffd with RESOURCE_KEYS; vm_compute; reflexivity).
  exact (conj H (proj1 (shared_server_within _ _ _ H))).
Defined.

(** ** The store and the functions *)

(** X20.  The code on the store of dictionaries computes what the
    functions on values compute: when the addresses given stand for a
    replica list and for capacities, a run of [ffd] shows its caller the
    plan, or the exception, of the function [ffd] on that list and those
    capacities, and a run of [best_plan] those of the function
    [best_plan].  No run ends on a missing key or address. *)
Theorem store_runs_as_functions (py_sum : list float -> float) (h : Store.Heap)
    (rs : list nat) (c : nat) (l : list F64.Inst) (cv : F64.Vec) (order : list Resource)
    (g : Rng) :
  mapM (Store.view_inst h) rs = Some l -> Store.view_caps h c = Some cv ->
  Store.observe (Store.ffd rs c order h) = Some (F64.Script1.ffd l cv order) /\
  Store.observe_best (Store.best_plan py_sum rs c g h)
    = Some (fst (F64.Script1.best_plan py_sum l cv g)).
Proof.
  intros Hrs Hc. split; [by apply ffd_observe | by apply best_plan_observe].
Qed.

Lemma store_runs_as_functions_witness :
  mapM (Store.view_inst Inputs64.store2) [3; 1; 0]%nat = Some Inputs64.replicas /\
  Store.view_caps Inputs64.store2 4 = Some Inputs64.capsMix /\
  Store.observe (Store.ffd [3; 1; 0]%nat 4 RESOURCE_KEYS Inputs64.store2)
    = Some (F64.Script1.ffd Inputs64.replicas Inputs64.capsMix RESOURCE_KEYS) /\
  Store.observe_best (Store.best_plan F64.sum_left [3; 1; 0]%nat 4 rng0 Inputs64.store2)
    = Some (fst (F64.Script1.best_plan F64.sum_left Inputs64.replicas Inputs64.capsMix rng0)).
Proof.
  assert (H1 : mapM (Store.view_inst Inputs64.store2) [3; 1; 0]%nat = Some Inputs64.replicas)
    by reflexivity.
  assert (H2 : Store.view_caps Inputs64.store2 4 = Some Inputs64.capsMix) by reflexivity.
  exact (conj H1 (conj H2
           (store_runs_as_functions F64.sum_left Inputs64.store2 [3; 1; 0]%nat 4
              Inputs64.replicas Inputs64.capsMix RESOURCE_KEYS rng0 H1 H2))).
Defined.


(** ** The plan the search keeps, on doubles *)

Lemma f_ltb_irrefl (x : float) : (x <? x)%float = false.
Proof.
  rewrite ltb_fcmp. pose proof (fcmp_antisym x x) as H.
  destruct (F64.fcmp x x) as [[]|]; try done.
Qed.

Lemma f_ltb_trans (x y z : float) :
  (x <? y)%float = true -> (y <? z)%float = true -> (x <? z)%float = true.
Proof.
  rewrite !ltb_fcmp. intros Hxy Hyz.
  destruct (F64.fcmp x y) as [[]|] eqn:H1; try done.
  destruct (F64.fcmp y z) as [[]|] eqn:H2; try done.
  by rewrite (fcmp_le_trans x y z _ _ H1 H2).
Qed.

Lemma beats_irrefl (py_sum : list float -> float) (caps : F64.Vec) (p : list F64.Server) :
  ~ F64.beats py_sum caps p p.
Proof. intros [H|[_ H]]; [lia|]. by rewrite f_ltb_irrefl in H. Qed.

Lemma beats_trans (py_sum : list float -> float) (caps : F64.Vec)
    (p q r : list F64.Server) :
  F64.beats py_sum caps p q -> F64.beats py_sum caps q r -> F64.beats py_sum caps p r.
Proof.
  intros [H1|[H1 H1']] [H2|[H2 H2']]; [left; lia..|].
  right. split; [congruence|]. by eapply f_ltb_trans.
Qed.

Lemma beats_dec (py_sum : list float -> float) (caps : F64.Vec) (p q : list F64.Server) :
  F64.beats py_sum caps p q \/ ~ F64.beats py_sum caps p q.
Proof.
  unfold F64.beats.
  destruct (decide (length p < length q)%nat) as [|Hlt]; [by left; left|].
  destruct (decide (length p = length q)) as [Heq|Hne].
  - destruct (F64.capacity_left py_sum caps p <? F64.capacity_left py_sum caps q)%float.
    + left. by right.
    + right. intros [?|[_ ?]]; [lia | done].
  - right. intros [?|[? _]]; lia.
Qed.

(** The newcomer replaces the incumbent exactly when it beats it. *)
Lemma consider_beats (py_sum : list float -> float) (caps : F64.Vec)
    (b plan : list F64.Server) :
  (F64.beats py_sum caps plan b ->
   F64.Script1.consider py_sum caps (Some b) plan = Some plan) /\
  (~ F64.beats py_sum caps plan b ->
   F64.Script1.consider py_sum caps (Some b) plan = Some b).
Proof.
  unfold F64.beats, F64.Script1.consider.
  change (F64.Script1.spare py_sum caps) with (F64.capacity_left py_sum caps).
  destruct (Nat.ltb_spec (length plan) (length b)) as [Hlt|Hge].
  - split; [done|]. intros H. exfalso. apply H. by left.
  - destruct (Nat.eqb_spec (length plan) (length b)) as [Heq|Hne].
    + destruct (_ <? _)%float.
      * split; [done|]. intros H. exfalso. apply H. by right.
      * split; [|done]. intros [?|[_ ?]]; [lia | done].
    + split; [|done]. intros [?|[? _]]; lia.
Qed.

Lemma f_search_from_unbeaten (py_sum : list float -> float) (l : list F64.Inst)
    (caps : F64.Vec) (orders : list (list Resource)) (acc : option (list F64.Server))
    (best : list F64.Server) :
  foldM (fun best order => plan ← F64.Script1.ffd l caps order;
                           Ok (F64.Script1.consider py_sum caps best plan)) orders acc
    = Ok (Some best) ->
  (acc = Some best \/
   exists order, order ∈ orders /\ F64.Script1.ffd l caps order = Ok best) /\
  (forall b, acc = Some b -> b = best \/ F64.beats py_sum caps best b) /\
  (forall order p, order ∈ orders -> F64.Script1.ffd l caps order = Ok p ->
                   ~ F64.beats py_sum caps p best).
Proof.
  revert acc. induction orders as [|order orders IH]; intros acc; simpl.
  - intros [= ->]. split; [by left|]. split.
    + intros b [= ->]. by left.
    + by intros order p ?%elem_of_nil.
  - destruct (F64.Script1.ffd l caps order) as [plan|] eqn:Hplan; [|discriminate]. simpl.
    intros H. apply IH in H as (Hfrom & Hacc & Hrest).
    destruct acc as [b|].
    + destruct (consider_beats py_sum caps b plan) as [Hyes Hno].
      destruct (beats_dec py_sum caps plan b) as [Hb|Hb].
      * rewrite (Hyes Hb) in Hfrom, Hacc. specialize (Hacc plan eq_refl).
        split; [|split].
        -- destruct Hfrom as [[= <-]|(o & Ho & Hffd)]; right.
           ++ exists order. split; [apply list_elem_of_here | done].
           ++ exists o. split; [by apply list_elem_of_further | done].
        -- intros b' [= <-]. right.
           destruct Hacc as [<-|Hacc]; [done | by eapply beats_trans].
        -- intros o p [->|Ho]%elem_of_cons Hp; [|by eapply Hrest].
           rewrite Hplan in Hp. injection Hp as <-.
           destruct Hacc as [<-|Hacc]; [apply beats_irrefl|].
           intros Hpb. apply (beats_irrefl py_sum caps best). by eapply beats_trans.
      * rewrite (Hno Hb) in Hfrom, Hacc. specialize (Hacc b eq_refl).
        split; [|split].
        -- destruct Hfrom as [Hbest|(o & Ho & Hffd)]; [by left|].
           right. exists o. split; [by apply list_elem_of_further | done].
        -- by intros b' [= <-].
        -- intros o p [->|Ho]%elem_of_cons Hp; [|by eapply Hrest].
           rewrite Hplan in Hp. injection Hp as <-.
           destruct Hacc as [<-|Hacc]; [done|].
           intros Hpb. apply Hb. by eapply beats_trans.
    + simpl in Hfrom, Hacc. specialize (Hacc plan eq_refl).
      split; [|split; [done|]].
      * destruct Hfrom as [[= <-]|(o & Ho & Hffd)]; right.
        -- exists order. split; [apply list_elem_of_here | done].
        -- exists o. split; [by apply list_elem_of_further | done].
      * intros o p [->|Ho]%elem_of_cons Hp; [|by eapply Hrest].
        rewrite Hplan in Hp. injection Hp as <-.
        destruct Hacc as [<-|Hacc]; [apply beats_irrefl|].
        intros Hpb. apply (beats_irrefl py_sum caps best). by eapply beats_trans.
Qed.

(** X7.  The plan [best_plan] returns is the plan of [ffd] under one of
    the orderings tried, and the plan of no ordering tried wins the
    comparison against it: none has fewer servers, and none with as many
    servers leaves less capacity, that is, has a smaller sum over the
    resources of the capacity minus the usage of all the servers, every
    operation in double precision. *)
Theorem best_plan_unbeaten (py_sum : list float -> float) (l : list F64.Inst)
    (caps : F64.Vec) (g : Rng) (best : list F64.Server) :
  fst (F64.Script1.best_plan py_sum l caps g) = Ok (Some best) ->
  exists order0,
    F64.Script1.crit_order py_sum l caps = Ok order0 /\
    (exists order, order ∈ fst (F64.Script1.candidates order0 g) /\
                   F64.Script1.ffd l caps order = Ok best) /\
    (forall order p, order ∈ fst (F64.Script1.candidates order0 g) ->
                     F64.Script1.ffd l caps order = Ok p ->
                     (length best <= length p)%nat /\
                     (length p = length best ->
                      (F64.capacity_left py_sum caps p
                       <? F64.capacity_left py_sum caps best)%float = false)).
Proof.
  unfold F64.Script1.best_plan.
  destruct (F64.Script1.crit_order py_sum l caps) as [order0|]; [|discriminate].
  destruct (F64.Script1.candidates order0 g) as [orders g'] eqn:Hc. simpl.
  intros H. exists order0. split; [done|]. rewrite Hc. simpl.
  apply f_search_from_unbeaten in H as ([Hnone|Hfrom] & _ & Hmin); [discriminate|].
  split; [done|]. intros order p Ho Hp. specialize (Hmin order p Ho Hp).
  split.
  - destruct (decide (length best <= length p)%nat); [done|].
    exfalso. apply Hmin. left. lia.
  - intros Hlen. apply not_true_is_false. intros Hlt. apply Hmin. by right.
Qed.

Lemma best_plan_unbeaten_witness :
  fst (F64.Script1.best_plan F64.sum_left Inputs64.replicas Inputs64.capsMix rng0)
    = Ok (Some Inputs64.planCPU) /\
  exists order0,
    F64.Script1.crit_order F64.sum_left Inputs64.replicas Inputs64.capsMix = Ok order0 /\
    (exists order, order ∈ fst (F64.Script1.candidates order0 rng0) /\
                   F64.Script1.ffd Inputs64.replicas Inputs64.capsMix order
                   = Ok Inputs64.planCPU) /\
    (forall order p, order ∈ fst (F64.Script1.candidates order0 rng0) ->
                     F64.Script1.ffd Inputs64.replicas Inputs64.capsMix order = Ok p ->
                     (length Inputs64.planCPU <= length p)%nat /\
                     (length p = length Inputs64.planCPU ->
                      (F64.capacity_left F64.sum_left Inputs64.capsMix p
                       <? F64.capacity_left F64.sum_left Inputs64.capsMix
                            Inputs64.planCPU)%float = false)).
Proof.
  assert (H : fst (F64.Script1.best_plan F64.sum_left Inputs64.replicas Inputs64.capsMix rng0)
              = Ok (Some Inputs64.planCPU))
    by (vm_compute; reflexivity).
  exact (conj H (best_plan_unbeaten _ _ _ _ _ H)).
Defined.
